(** * Recipe condition expressions and model-pattern resolution

    A shallow embedding of
    [amplifier_module_tool_recipes/expression_evaluator.py] and
    [amplifier_module_tool_recipes/model_resolver.py], with the properties
    the recipe-engine specification states about them.

    Conventions of the embedding.
    - A Python [str] is a Rocq [string]; a character is an [ascii], read as
      the code point U+0000..U+00FF.  The character classes of the Python
      runtime ([str.isspace], [str.isalnum], the regular-expression class
      [\w]) are written out for these 256 code points.
    - [raise ExpressionError(msg)] is the outcome [Raise e], where [e]
      records which message was built and its arguments.
    - Loops whose trip count is not a structural measure take a [fuel]
      argument; the entry points supply enough of it, and the theorems
      [tokenize_terminates], [parse_terminates] and
      [evaluate_condition_terminates] show that [OutOfFuel] is never the
      outcome of an entry point.
    - The context dictionary is threaded through the functions that receive
      it, so that what evaluation leaves in it is part of every result.
    - The resource limits of the interpreter are outside the embedding: the
      recursion limit that deeply nested parentheses or long chains of
      [not] can reach, the bound on the number of digits [str] accepts
      when it converts an [int], and the exhaustion of memory. *)

From Stdlib Require Import ZArith QArith String Ascii List Bool Lia DecimalString.
From Stdlib Require Import DecimalPos DecimalZ.
From stdpp Require Import base option list gmap strings.

Local Open Scope string_scope.
Local Open Scope nat_scope.

(** ** The Python runtime the modules rely on *)

Module Py.

(** [ord(ch)] *)
Definition ord (ch : ascii) : N := N_of_ascii ch.

Definition between (lo hi : N) (ch : ascii) : bool :=
  (lo <=? ord ch)%N && (ord ch <=? hi)%N.

(** [ch.isspace()] for the code points below 256: the ASCII controls
    TAB..CR and FS..US, the space, NEL (U+0085) and NBSP (U+00A0). *)
Definition isspace (ch : ascii) : bool :=
  between 9 13 ch || between 28 32 ch || between 133 133 ch || between 160 160 ch.

(** [ch.isalnum()] for the code points below 256: ASCII digits and
    letters, and the Latin-1 letters and numerics. *)
Definition isalnum (ch : ascii) : bool :=
  between 48 57 ch || between 65 90 ch || between 97 122 ch
  || between 170 170 ch || between 178 179 ch || between 181 181 ch
  || between 185 186 ch || between 188 190 ch || between 192 214 ch
  || between 216 246 ch || between 248 255 ch.

(** The regular-expression class [\w] on [str] patterns: alphanumeric
    or underscore. *)
Definition is_word (ch : ascii) : bool := isalnum ch || Ascii.eqb ch "_".

(** [s.lstrip()], [s.rstrip()] and [s.strip()] *)
Fixpoint lstrip (s : string) : string :=
  match s with
  | String ch s' => if isspace ch then lstrip s' else s
  | EmptyString => EmptyString
  end.

Fixpoint rstrip (s : string) : string :=
  match s with
  | EmptyString => EmptyString
  | String ch s' =>
      match rstrip s' with
      | EmptyString => if isspace ch then EmptyString else String ch EmptyString
      | r => String ch r
      end
  end.

Definition strip (s : string) : string := rstrip (lstrip s).

(** [not s], the falsity of a string *)
Definition is_empty (s : string) : bool :=
  match s with EmptyString => true | String _ _ => false end.

(** [s[i:j]] for [0 <= i] and [0 <= j] *)
Definition slice (s : string) (i j : nat) : string := substring i (j - i) s.

(** [s[1:-1]] *)
Definition slice_1_m1 (s : string) : string := slice s 1 (String.length s - 1).

(** [s.startswith(p)] and [s.endswith(p)] *)
Definition startswith (s p : string) : bool := String.prefix p s.

Definition endswith (s p : string) : bool :=
  (String.length p <=? String.length s)
  && String.eqb (slice s (String.length s - String.length p) (String.length s)) p.

(** [s.split(sep)] for a one-character separator *)
Fixpoint split (sep : ascii) (s : string) : list string :=
  match s with
  | EmptyString => [EmptyString]
  | String ch s' =>
      if Ascii.eqb ch sep then EmptyString :: split sep s'
      else match split sep s' with
           | part :: parts => String ch part :: parts
           | [] => [String ch EmptyString]
           end
  end.

(** [ch in s] for a character *)
Fixpoint contains_char (ch : ascii) (s : string) : bool :=
  match s with
  | String ch' s' => Ascii.eqb ch ch' || contains_char ch s'
  | EmptyString => false
  end.

(** [all(p(ch) for ch in s)] *)
Fixpoint all_chars (p : ascii -> bool) (s : string) : bool :=
  match s with
  | String ch s' => p ch && all_chars p s'
  | EmptyString => true
  end.

(** [x in (a, b, ...)] on strings *)
Definition in_tuple (x : string) (items : list string) : bool :=
  existsb (String.eqb x) items.

(** [str(n)] for an [int] *)
Definition str_int (n : Z) : string := NilEmpty.string_of_int (Z.to_int n).

End Py.

(** ** Outcomes *)

(** The messages [ExpressionError] is raised with. *)
Inductive message : Type :=
| UndefinedVariable (var_path : string)
| UnterminatedString (position : nat)
| UnexpectedCharacter (ch : ascii) (position : nat)
| UnexpectedToken (token : string) (position : nat)
| UnexpectedEnd
| ExpectedCloseParen
| UnexpectedKeyword (token : string)
| UnexpectedOperator (token : string).

(** The exceptions the code can raise: its own [ExpressionError], and the
    [IndexError] of a subscript out of range. *)
Inductive exception : Type :=
| ExpressionError (msg : message)
| IndexError.

Inductive outcome (A : Type) : Type :=
| Return (a : A)
| Raise (e : exception)
| OutOfFuel.

Arguments Return {A} a.
Arguments Raise {A} e.
Arguments OutOfFuel {A}.

Definition out_bind {A B} (m : outcome A) (k : A -> outcome B) : outcome B :=
  match m with
  | Return a => k a
  | Raise e => Raise e
  | OutOfFuel => OutOfFuel
  end.

Notation "'let*' p := m 'in' k" := (out_bind m (fun p => k))
  (at level 10, p pattern, m at level 200, k at level 200).

(** The two kinds of error the specification names. *)
Definition is_undefined_variable (e : exception) : bool :=
  match e with ExpressionError (UndefinedVariable _) => true | _ => false end.

Definition is_syntax_error (e : exception) : bool :=
  match e with
  | ExpressionError _ => negb (is_undefined_variable e)
  | IndexError => false
  end.

(** ** Context values *)

(** What a context maps a name to.  [VDict] carries the mapping and the
    text [str()] gives for the object; [VOther] is any object that is not
    [None], a [str], a [bool], an [int] or a [dict], known by its [str()]
    text (a [float], a [list], ...). *)
#[warnings="-register-all"]
Inductive value : Type :=
| VNone
| VStr (s : string)
| VBool (b : bool)
| VInt (n : Z)
| VDict (items : gmap string value) (text : string)
| VOther (text : string).

Abbreviation context := (gmap string value).

(** Computations that are handed the context: the outcome and the context
    as it is afterwards. *)
Definition Ctx (A : Type) : Type := context -> outcome A * context.

Definition ctx_ret {A} (a : A) : Ctx A := fun c => (Return a, c).

Definition ctx_raise {A} (msg : message) : Ctx A :=
  fun c => (Raise (ExpressionError msg), c).

Definition ctx_bind {A B} (m : Ctx A) (k : A -> Ctx B) : Ctx B :=
  fun c =>
    match m c with
    | (Return a, c') => k a c'
    | (Raise e, c') => (Raise e, c')
    | (OutOfFuel, c') => (OutOfFuel, c')
    end.

Definition ctx_lift {A} (o : outcome A) : Ctx A := fun c => (o, c).

Notation "x <- m ;; k" := (ctx_bind m (fun x => k))
  (at level 100, m at next level, right associativity).

(** ** expression_evaluator.py: variable substitution *)

(** [_resolve_variable]: the loop over the parts of the path. *)
Fixpoint resolve_parts (parts : list string) (v : value) : value :=
  match parts with
  | [] => v
  | part :: parts' =>
      match v with
      | VDict items _ =>
          match items !! part with
          | Some v' => resolve_parts parts' v'
          | None => VNone
          end
      | _ => VNone
      end
  end.

Definition _resolve_variable (path : string) : Ctx value :=
  fun c => (Return (resolve_parts (Py.split "." path) (VDict c "")), c).

(** [replace_var], given the text of group 1 of the match *)
Definition replace_var (var_path : string) : Ctx string :=
  v <- _resolve_variable var_path ;;
  match v with
  | VNone => ctx_raise (UndefinedVariable var_path)
  | VStr s => ctx_ret ("'" +:+ s +:+ "'")
  | VBool b => ctx_ret (if b then "true" else "false")
  | VInt n => ctx_ret (Py.str_int n)
  | VDict _ text => ctx_ret text
  | VOther text => ctx_ret text
  end.

(** The longest prefix of [s] made of word characters and of dots that a
    word character follows, and what comes after it. *)
Fixpoint path_rest (s : string) : string * string :=
  match s with
  | EmptyString => (EmptyString, EmptyString)
  | String ch s' =>
      if Py.is_word ch then
        let '(p, r) := path_rest s' in (String ch p, r)
      else if Ascii.eqb ch "." then
        match s' with
        | String ch' _ =>
            if Py.is_word ch' then
              let '(p, r) := path_rest s' in (String ch p, r)
            else (EmptyString, s)
        | EmptyString => (EmptyString, s)
        end
      else (EmptyString, s)
  end.

(** A match of the pattern of [_substitute_variables] at the start of [s]:
    two opening braces, group 1 (one or more word characters, then any
    number of groups of a dot and one or more word characters), two
    closing braces.  The result is group 1 and the text after the match.
    Every repetition in the pattern is followed by a character outside the
    repeated class, so the greedy match is the only candidate. *)
Definition match_reference (s : string) : option (string * string) :=
  match s with
  | String "{" (String "{" (String ch s1 as body)) =>
      if Py.is_word ch then
        match path_rest body with
        | (var_path, String "}" (String "}" after)) => Some (var_path, after)
        | _ => None
        end
      else None
  | _ => None
  end.

(** [pattern.sub(replace_var, s)]: the leftmost matches, left to right,
    each replaced by what [replace_var] returns. *)
Fixpoint sub_replace_var (fuel : nat) (s : string) : Ctx string :=
  match s with
  | EmptyString => ctx_ret EmptyString
  | String ch rest =>
      match fuel with
      | O => ctx_lift OutOfFuel
      | S fuel' =>
          match match_reference s with
          | Some (var_path, after) =>
              text <- replace_var var_path ;;
              out <- sub_replace_var fuel' after ;;
              ctx_ret (text +:+ out)
          | None =>
              out <- sub_replace_var fuel' rest ;;
              ctx_ret (String ch out)
          end
      end
  end.

Definition _substitute_variables (expression : string) : Ctx string :=
  sub_replace_var (String.length expression) expression.

(** ** expression_evaluator.py: the tokenizer *)

(** The double quote character, by its code. *)
Definition double_quote : ascii := "034"%char.

(** The test that [ch] is one of the two quote characters *)
Definition is_quote (ch : ascii) : bool :=
  Ascii.eqb ch "'" || Ascii.eqb ch double_quote.

Definition is_paren (ch : ascii) : bool := Ascii.eqb ch "(" || Ascii.eqb ch ")".

Definition is_angle (ch : ascii) : bool := Ascii.eqb ch "<" || Ascii.eqb ch ">".

Definition TWO_CHAR_OPS : list string := ["=="; "!="; ">="; "<="].

(** The test of the word branch: [ch.isalnum() or ch == "_" or ch == "."] *)
Definition is_word_char (ch : ascii) : bool :=
  Py.isalnum ch || Ascii.eqb ch "_" || Ascii.eqb ch ".".

(** [while j < n and expression[j] != quote: j += 1], with [count] the
    [n - j] characters still ahead; the result is the final [j]. *)
Fixpoint find_quote (expression : string) (quote : ascii) (count j : nat) : nat :=
  match count with
  | O => j
  | S count' =>
      match get j expression with
      | Some ch => if Ascii.eqb ch quote then j
                   else find_quote expression quote count' (S j)
      | None => j
      end
  end.

(** [while j < n and (expression[j].isalnum() or expression[j] in ("_", ".")):
    j += 1], likewise. *)
Fixpoint find_word_end (expression : string) (count j : nat) : nat :=
  match count with
  | O => j
  | S count' =>
      match get j expression with
      | Some ch => if is_word_char ch then find_word_end expression count' (S j)
                   else j
      | None => j
      end
  end.

(** One turn of the [while i < n] loop of [_tokenize], at a position [i]
    holding the character [ch]: the next position and the tokens appended,
    or the error raised. *)
Inductive scan : Type :=
| Next (i' : nat) (appended : list string)
| Stop (msg : message).

Definition tokenize_step (expression : string) (i : nat) (ch : ascii) : scan :=
  let n := String.length expression in
  if Py.isspace ch then Next (i + 1) []
  else if is_quote ch then
    let j := find_quote expression ch (n - (i + 1)) (i + 1) in
    if n <=? j then Stop (UnterminatedString i)
    else Next (j + 1) [Py.slice expression i (j + 1)]
  else if is_paren ch then Next (i + 1) [String ch EmptyString]
  else if (i + 1 <? n) && Py.in_tuple (Py.slice expression i (i + 2)) TWO_CHAR_OPS
  then Next (i + 2) [Py.slice expression i (i + 2)]
  else if is_angle ch then Next (i + 1) [String ch EmptyString]
  else if is_word_char ch then
    let j := find_word_end expression (n - i) i in
    Next j [Py.slice expression i j]
  else Stop (UnexpectedCharacter ch i).

Fixpoint tokenize_loop (fuel : nat) (expression : string) (i : nat)
    (tokens : list string) : outcome (list string) :=
  match get i expression with
  | None => Return tokens
  | Some ch =>
      match fuel with
      | O => OutOfFuel
      | S fuel' =>
          match tokenize_step expression i ch with
          | Next i' appended =>
              tokenize_loop fuel' expression i' (tokens ++ appended)
          | Stop msg => Raise (ExpressionError msg)
          end
      end
  end.

Definition _tokenize (expression : string) : outcome (list string) :=
  tokenize_loop (String.length expression) expression 0 [].

(** [_is_truthy] *)
Definition _is_truthy (value : string) : bool :=
  negb (Py.in_tuple value ["false"; "False"; ""; "0"; "none"; "None"]).

(** ** The Python runtime: [float(s)] on a string and float comparison *)

Module PyFloat.

(** An IEEE 754 binary64 value, a finite one by the rational it stands
    for (the sign of zero plays no part in comparisons). *)
Inductive float : Type :=
| Nan
| Inf (negative : bool)
| Finite (q : Q).

(** Round [num / den] ([den > 0]) to the nearest integer, ties to even. *)
Definition round_half_even (num den : Z) : Z :=
  let q := (num / den)%Z in
  match (2 * (num mod den) ?= den)%Z with
  | Lt => q
  | Gt => (q + 1)%Z
  | Eq => if Z.even q then q else (q + 1)%Z
  end.

(** [2 ^ e <= n / d], for [n, d > 0] *)
Definition pow2_le_ratio (e n d : Z) : bool :=
  if (0 <=? e)%Z then (d * 2 ^ e <=? n)%Z else (d <=? n * 2 ^ (- e))%Z.

(** The binary64 value nearest to [n / d], for [n, d > 0]: 53 significant
    bits, least exponent -1074, overflow to infinity from [2 ^ 1024]. *)
Definition nearest (n d : Z) : float :=
  let e0 := (Z.log2 n - Z.log2 d)%Z in
  let e := if pow2_le_ratio e0 n d then e0 else (e0 - 1)%Z in
  let q := Z.max (e - 52) (-1074) in
  if (0 <=? q)%Z then
    let mant := round_half_even n (d * 2 ^ q) in
    if (2 ^ 1024 <=? mant * 2 ^ q)%Z then Inf false
    else Finite (inject_Z (mant * 2 ^ q))
  else
    let mant := round_half_even (n * 2 ^ (- q)) d in
    Finite (Qmake mant (Z.to_pos (2 ^ (- q)))).

Definition negate (x : float) : float :=
  match x with
  | Nan => Nan
  | Inf s => Inf (negb s)
  | Finite q => Finite (Qopp q)
  end.

(** The value of the decimal [mantissa * 10 ^ exponent], [mantissa >= 0]. *)
Definition of_decimal (mantissa exponent : Z) : float :=
  if (mantissa =? 0)%Z then Finite 0
  else if (0 <=? exponent)%Z then nearest (mantissa * 10 ^ exponent) 1
  else nearest mantissa (10 ^ (- exponent)).

Definition is_digit (ch : ascii) : bool := Py.between 48 57 ch.

Definition digit_value (ch : ascii) : Z := (Z.of_N (Py.ord ch) - 48)%Z.

(** A run of decimal digits at the start of [s], appended to the digits
    read so far: their value, how many were read, and the rest. *)
Fixpoint digits (s : string) (acc count : Z) : Z * Z * string :=
  match s with
  | String ch s' =>
      if is_digit ch then digits s' (10 * acc + digit_value ch)%Z (count + 1)%Z
      else (acc, count, s)
  | EmptyString => (acc, count, s)
  end.

Definition sign (s : string) : bool * string :=
  match s with
  | String "-" s' => (true, s')
  | String "+" s' => (false, s')
  | _ => (false, s)
  end.

Definition is_exponent_mark (ch : ascii) : bool :=
  Ascii.eqb ch "e" || Ascii.eqb ch "E".

(** A decimal number filling the whole of [s]: digits with an optional
    point and at least one digit, then an optional exponent. *)
Definition parse_number (s : string) : option float :=
  let '(neg, s0) := sign s in
  let '(m1, n1, s1) := digits s0 0 0 in
  let '(m2, n2, s2) :=
    match s1 with
    | String "." s1' => digits s1' m1 0
    | _ => (m1, 0%Z, s1)
    end in
  if (n1 + n2 =? 0)%Z then None
  else
    let finish (e : Z) :=
      let x := of_decimal m2 (e - n2) in
      Some (if neg then negate x else x) in
    match s2 with
    | EmptyString => finish 0%Z
    | String ch s3 =>
        if is_exponent_mark ch then
          let '(eneg, s4) := sign s3 in
          match digits s4 0 0 with
          | (e, ne, EmptyString) =>
              if (ne =? 0)%Z then None
              else finish (if eneg then (- e)%Z else e)
          | _ => None
          end
        else None
    end.

(** ASCII lower case *)
Definition lower (ch : ascii) : ascii :=
  if Py.between 65 90 ch then ascii_of_N (Py.ord ch + 32) else ch.

Fixpoint lower_string (s : string) : string :=
  match s with
  | String ch s' => String (lower ch) (lower_string s')
  | EmptyString => EmptyString
  end.

(** [inf], [infinity] and [nan], signed, in any letter case *)
Definition parse_inf_or_nan (s : string) : option float :=
  let '(neg, s0) := sign s in
  let w := lower_string s0 in
  if String.eqb w "inf" || String.eqb w "infinity" then Some (Inf neg)
  else if String.eqb w "nan" then Some Nan
  else None.

(** White space of the C locale, which is what the conversion strips. *)
Definition c_isspace (ch : ascii) : bool :=
  Py.between 9 13 ch || Py.between 32 32 ch.

(** Non-ASCII white space is turned into a space before the conversion. *)
Definition space_to_ascii (ch : ascii) : ascii :=
  if Py.between 127 255 ch && Py.isspace ch then " "%char else ch.

Fixpoint map_string (f : ascii -> ascii) (s : string) : string :=
  match s with
  | String ch s' => String (f ch) (map_string f s')
  | EmptyString => EmptyString
  end.

Fixpoint c_lstrip (s : string) : string :=
  match s with
  | String ch s' => if c_isspace ch then c_lstrip s' else s
  | EmptyString => EmptyString
  end.

Fixpoint c_rstrip (s : string) : string :=
  match s with
  | EmptyString => EmptyString
  | String ch s' =>
      match c_rstrip s' with
      | EmptyString => if c_isspace ch then EmptyString else String ch EmptyString
      | r => String ch r
      end
  end.

(** An underscore is allowed only between two digits; [prev] is the
    character before [s] (NUL at the start). *)
Fixpoint underscores_ok (prev : ascii) (s : string) : bool :=
  match s with
  | EmptyString => negb (Ascii.eqb prev "_")
  | String ch s' =>
      (if Ascii.eqb ch "_" then is_digit prev
       else negb (Ascii.eqb prev "_") || is_digit ch)
      && underscores_ok ch s'
  end.

Fixpoint remove_underscores (s : string) : string :=
  match s with
  | String ch s' =>
      if Ascii.eqb ch "_" then remove_underscores s'
      else String ch (remove_underscores s')
  | EmptyString => EmptyString
  end.

(** [float(s)]: [None] stands for [ValueError]. *)
Definition of_string (s : string) : option float :=
  let t := c_rstrip (c_lstrip (map_string space_to_ascii s)) in
  if underscores_ok zero t then
    let u := remove_underscores t in
    match parse_number u with
    | Some x => Some x
    | None => parse_inf_or_nan u
    end
  else None.

(** [x == y], [x < y] and [x <= y] on floats *)
Definition eqb (x y : float) : bool :=
  match x, y with
  | Finite p, Finite q => Qeq_bool p q
  | Inf a, Inf b => Bool.eqb a b
  | _, _ => false
  end.

Definition ltb (x y : float) : bool :=
  match x, y with
  | Nan, _ | _, Nan => false
  | Finite p, Finite q => negb (Qle_bool q p)
  | Inf a, Inf b => a && negb b
  | Inf a, Finite _ => a
  | Finite _, Inf b => negb b
  end.

Definition leb (x y : float) : bool := ltb x y || eqb x y.

End PyFloat.

(** [_try_numeric] *)
Definition _try_numeric (value : string) : option PyFloat.float :=
  PyFloat.of_string value.

(** The conditional expression [_parse_comparison] applies to an operand:
    [val[1:-1]] if [val] starts and ends with the same quote character,
    else [val]. *)
Definition strip_quotes (val : string) : string :=
  if (Py.startswith val "'" && Py.endswith val "'")
     || (Py.startswith val (String double_quote "")
         && Py.endswith val (String double_quote ""))
  then Py.slice_1_m1 val
  else val.

(** The chain of [if op == ...: return ...] of the numeric branch; [None]
    when no test holds and control falls out of the chain. *)
Definition compare_numbers (op : string) (l r : PyFloat.float) : option bool :=
  if String.eqb op "==" then Some (PyFloat.eqb l r)
  else if String.eqb op "!=" then Some (negb (PyFloat.eqb l r))
  else if String.eqb op "<" then Some (PyFloat.ltb l r)
  else if String.eqb op ">" then Some (PyFloat.ltb r l)
  else if String.eqb op ">=" then Some (PyFloat.leb r l)
  else if String.eqb op "<=" then Some (PyFloat.leb l r)
  else None.

(** The same chain of the string branch. *)
Definition compare_strings (op : string) (l r : string) : option bool :=
  if String.eqb op "==" then Some (String.eqb l r)
  else if String.eqb op "!=" then Some (negb (String.eqb l r))
  else if String.eqb op "<" then Some (String.ltb l r)
  else if String.eqb op ">" then Some (String.ltb r l)
  else if String.eqb op ">=" then Some (String.leb r l)
  else if String.eqb op "<=" then Some (String.leb l r)
  else None.

(** ** expression_evaluator.py: the parser *)

Module _Parser.

Definition COMPARISON_OPS : list string := ["=="; "!="; "<"; ">"; ">="; "<="].

Section Methods.

(** [self.tokens]; [self.pos] is passed to each method and returned
    with its result. *)
Variable tokens : list string.

Definition _peek (pos : nat) : option string := tokens !! pos.

Definition _consume (pos : nat) : outcome (string * nat) :=
  match tokens !! pos with
  | Some token => Return (token, pos + 1)
  | None => Raise IndexError
  end.

(** [self._peek() == word] *)
Definition peek_is (pos : nat) (word : string) : bool :=
  match _peek pos with
  | Some token => String.eqb token word
  | None => false
  end.

(** [self._peek() in items] *)
Definition peek_in (pos : nat) (items : list string) : bool :=
  match _peek pos with
  | Some token => Py.in_tuple token items
  | None => false
  end.

Definition is_string_literal (token : string) : bool :=
  (Py.startswith token "'" && Py.endswith token "'")
  || (Py.startswith token (String double_quote "")
      && Py.endswith token (String double_quote "")).

Fixpoint _parse_or (fuel pos : nat) : outcome (bool * nat) :=
  match fuel with
  | O => OutOfFuel
  | S fuel' =>
      let* (left_, pos) := _parse_and fuel' pos in
      _parse_or_loop fuel' left_ pos
  end

with _parse_or_loop (fuel : nat) (left_ : bool) (pos : nat) : outcome (bool * nat) :=
  match fuel with
  | O => OutOfFuel
  | S fuel' =>
      if peek_is pos "or" then
        let* (_, pos) := _consume pos in
        let* (right_, pos) := _parse_and fuel' pos in
        _parse_or_loop fuel' (left_ || right_) pos
      else Return (left_, pos)
  end

with _parse_and (fuel pos : nat) : outcome (bool * nat) :=
  match fuel with
  | O => OutOfFuel
  | S fuel' =>
      let* (left_, pos) := _parse_not fuel' pos in
      _parse_and_loop fuel' left_ pos
  end

with _parse_and_loop (fuel : nat) (left_ : bool) (pos : nat) : outcome (bool * nat) :=
  match fuel with
  | O => OutOfFuel
  | S fuel' =>
      if peek_is pos "and" then
        let* (_, pos) := _consume pos in
        let* (right_, pos) := _parse_not fuel' pos in
        _parse_and_loop fuel' (left_ && right_) pos
      else Return (left_, pos)
  end

with _parse_not (fuel pos : nat) : outcome (bool * nat) :=
  match fuel with
  | O => OutOfFuel
  | S fuel' =>
      if peek_is pos "not" then
        let* (_, pos) := _consume pos in
        let* (value, pos) := _parse_not fuel' pos in
        Return (negb value, pos)
      else _parse_comparison fuel' pos
  end

with _parse_comparison (fuel pos : nat) : outcome (bool * nat) :=
  match fuel with
  | O => OutOfFuel
  | S fuel' =>
      let* (left_val, pos) := _parse_atom fuel' pos in
      let truthiness (pos : nat) := Return (_is_truthy (strip_quotes left_val), pos) in
      if peek_in pos COMPARISON_OPS then
        let* (op, pos) := _consume pos in
        let* (right_val, pos) := _parse_atom fuel' pos in
        let left_cmp := strip_quotes left_val in
        let right_cmp := strip_quotes right_val in
        let decided :=
          match _try_numeric left_cmp, _try_numeric right_cmp with
          | Some left_num, Some right_num => compare_numbers op left_num right_num
          | _, _ => compare_strings op left_cmp right_cmp
          end in
        match decided with
        | Some b => Return (b, pos)
        | None => truthiness pos
        end
      else truthiness pos
  end

with _parse_atom (fuel pos : nat) : outcome (string * nat) :=
  match fuel with
  | O => OutOfFuel
  | S fuel' =>
      match _peek pos with
      | None => Raise (ExpressionError UnexpectedEnd)
      | Some token =>
          if String.eqb token "(" then
            let* (_, pos) := _consume pos in
            let* (result, pos) := _parse_or fuel' pos in
            if negb (peek_is pos ")") then Raise (ExpressionError ExpectedCloseParen)
            else
              let* (_, pos) := _consume pos in
              Return (if result then "true" else "false", pos)
          else if is_string_literal token then
            let* (_, pos) := _consume pos in
            Return (token, pos)
          else if Py.in_tuple token ["and"; "or"; "not"] then
            Raise (ExpressionError (UnexpectedKeyword token))
          else if Py.in_tuple token [")"; "=="; "!="; "<"; ">"; ">="; "<="] then
            Raise (ExpressionError (UnexpectedOperator token))
          else
            let* (_, pos) := _consume pos in
            Return (token, pos)
      end
  end.

(** The depth of calls a list of [n] tokens can need. *)
Definition enough_fuel (n : nat) : nat := 5 * n + 5.

Definition parse : outcome bool :=
  let* (result, pos) := _parse_or (enough_fuel (length tokens)) 0 in
  if pos <? length tokens then
    match tokens !! pos with
    | Some token => Raise (ExpressionError (UnexpectedToken token pos))
    | None => Raise IndexError
    end
  else Return result.

End Methods.

End _Parser.

(** [_evaluate_expression] *)
Definition _evaluate_expression (expr : string) : outcome bool :=
  let expr := Py.strip expr in
  if Py.is_empty expr then Return true
  else
    let* tokens := _tokenize expr in
    _Parser.parse tokens.

(** [evaluate_condition] *)
Definition evaluate_condition (expression : string) : Ctx bool :=
  if Py.is_empty expression || Py.is_empty (Py.strip expression) then ctx_ret true
  else
    substituted <- _substitute_variables expression ;;
    ctx_lift (_evaluate_expression (Py.strip substituted)).

(** ** model_resolver.py *)

Module ModelResolver.

Record ModelResolutionResult : Type := {
  resolved_model : string;
  pattern : option string;
  available_models : option (list string);
  matched_models : option (list string)
}.

(** [is_glob_pattern] *)
Definition is_glob_pattern (model_hint : string) : bool :=
  existsb (fun c => Py.contains_char c model_hint) ["*"; "?"; "["]%char.

(** [s.replace(old, "")] for a non-empty [old]: the occurrences of [old]
    are dropped from left to right; [skip] counts the characters of the
    occurrence being dropped. *)
Fixpoint remove_occurrences (old s : string) (skip : nat) : string :=
  match s with
  | EmptyString => EmptyString
  | String ch rest =>
      match skip with
      | S skip' => remove_occurrences old rest skip'
      | O =>
          if String.prefix old s
          then remove_occurrences old rest (String.length old - 1)
          else String ch (remove_occurrences old rest 0)
      end
  end.

(** An element of what [list_models()] returns: a string, or an object
    with its [id] attribute (if it has one) and its [str()] text. *)
Inductive model_entry : Type :=
| ModelName (name : string)
| ModelObject (id : option string) (text : string).

(** A mounted provider: its truth value, and [list_models] if it has the
    attribute, with [None] for a call that raises. *)
Record provider : Type := {
  truthy : bool;
  list_models : option (option (list model_entry))
}.

(** The coordinator, by what [coordinator.get("providers")] does: [None]
    when it raises, else the providers by name in the order of
    iteration (no providers when the value is falsy). *)
Definition coordinator : Type := option (list (string * provider)).

(** The [for name, p in providers.items()] loop with its [break]. *)
Fixpoint find_provider (provider_name : string) (providers : list (string * provider))
    : option provider :=
  match providers with
  | [] => None
  | (name, p) :: providers' =>
      if Py.in_tuple provider_name
           [name; remove_occurrences "provider-" name 0; "provider-" +:+ provider_name]
      then Some p
      else find_provider provider_name providers'
  end.

Definition model_id (m : model_entry) : string :=
  match m with
  | ModelName name => name
  | ModelObject (Some id) _ => id
  | ModelObject None text => text
  end.

(** The [try] block: the models of the provider, or the empty list the
    variable was initialised with. *)
Definition query_available_models (provider_name : string) (coord : coordinator)
    : list string :=
  match coord with
  | None => []
  | Some providers =>
      match find_provider provider_name providers with
      | Some p =>
          if truthy p then
            match list_models p with
            | Some (Some models) => map model_id models
            | Some None => []
            | None => []
            end
          else []
      | None => []
      end
  end.

(** [matched.sort(reverse=True)], as an insertion sort into descending
    order. *)
Fixpoint insert_descending (x : string) (l : list string) : list string :=
  match l with
  | [] => [x]
  | y :: l' => if String.leb y x then x :: l else y :: insert_descending x l'
  end.

Fixpoint sort_reverse (l : list string) : list string :=
  match l with
  | [] => []
  | x :: l' => insert_descending x (sort_reverse l')
  end.

Section Resolve.

(** [fnmatch.filter(names, pat)] keeps the names the pattern matches;
    the matching itself belongs to the [fnmatch] library and is a
    parameter here. *)
Variable fnmatch : string -> string -> bool.

Definition fnmatch_filter (names : list string) (pat : string) : list string :=
  List.filter (fun name => fnmatch name pat) names.

(** [resolve_model_pattern]; a [provider_name] of [None] and an empty
    one are both false. *)
Definition resolve_model_pattern (model_hint : string)
    (provider_name : option string) (coord : coordinator)
    : ModelResolutionResult :=
  if negb (is_glob_pattern model_hint) then
    {| resolved_model := model_hint; pattern := None;
       available_models := None; matched_models := None |}
  else
    match provider_name with
    | None | Some EmptyString =>
        {| resolved_model := model_hint; pattern := Some model_hint;
           available_models := None; matched_models := None |}
    | Some provider_name =>
        let available := query_available_models provider_name coord in
        match available with
        | [] =>
            {| resolved_model := model_hint; pattern := Some model_hint;
               available_models := Some []; matched_models := Some [] |}
        | _ :: _ =>
            let matched := fnmatch_filter available model_hint in
            match matched with
            | [] =>
                {| resolved_model := model_hint; pattern := Some model_hint;
                   available_models := Some available; matched_models := Some [] |}
            | _ :: _ =>
                let matched := sort_reverse matched in
                match matched with
                | resolved :: _ =>
                    {| resolved_model := resolved; pattern := Some model_hint;
                       available_models := Some available;
                       matched_models := Some matched |}
                | [] =>
                    (* [matched[0]] on an empty list; [matched] is not empty here *)
                    {| resolved_model := model_hint; pattern := Some model_hint;
                       available_models := Some available;
                       matched_models := Some matched |}
                end
            end
        end
    end.

End Resolve.

End ModelResolver.

(** ** Vocabulary of the properties *)

(** [p] holds of the first character of [s]. *)
Definition head_is (p : ascii -> bool) (s : string) : bool :=
  match s with
  | String ch _ => p ch
  | EmptyString => false
  end.

(** The [while] loop of [_tokenize] entered at position [i], with the fuel
    the rest of the text needs. *)
Definition tokenize_from (expression : string) (i : nat) (tokens : list string)
    : outcome (list string) :=
  tokenize_loop (String.length expression - i) expression i tokens.

(** [Scan k ts r]: in a text that ends with [k +:+ r], the characters [k]
    are exactly a run of white space and complete tokens [ts], each token
    ending where the text that follows lets it end. *)
Inductive Scan : string -> list string -> string -> Prop :=
| Scan_stop r :
    Scan EmptyString [] r
| Scan_space ch k ts r :
    Py.isspace ch = true ->
    Scan k ts r ->
    Scan (String ch k) ts r
| Scan_quote q body k ts r :
    is_quote q = true ->
    Py.contains_char q body = false ->
    Scan k ts r ->
    Scan (String q (body +:+ String q k)) (String q (body +:+ String q EmptyString) :: ts) r
| Scan_paren ch k ts r :
    is_paren ch = true ->
    Scan k ts r ->
    Scan (String ch k) (String ch EmptyString :: ts) r
| Scan_op2 op k ts r :
    Py.in_tuple op TWO_CHAR_OPS = true ->
    Scan k ts r ->
    Scan (op +:+ k) (op :: ts) r
| Scan_angle ch k ts r :
    is_angle ch = true ->
    head_is (Ascii.eqb "=") (k +:+ r) = false ->
    Scan k ts r ->
    Scan (String ch k) (String ch EmptyString :: ts) r
| Scan_word w k ts r :
    w <> EmptyString ->
    Py.all_chars is_word_char w = true ->
    head_is is_word_char (k +:+ r) = false ->
    Scan k ts r ->
    Scan (w +:+ k) (w :: ts) r.

(** The position a parser method returns lies between the position it was
    given and the end of the tokens. *)
Definition within {A} (n pos : nat) (o : outcome (A * nat)) : Prop :=
  match o with
  | Return (_, pos') => pos <= pos' <= n
  | _ => True
  end.

(** The fuel was enough. *)
Definition has_fuel {A} (o : outcome A) : Prop := o <> OutOfFuel.

(** The characters an operator can start with. *)
Definition op_start (ch : ascii) : bool :=
  Ascii.eqb ch "=" || Ascii.eqb ch "!" || is_angle ch.

(** [p] holds of the last character of [s]. *)
Fixpoint last_is (p : ascii -> bool) (s : string) : bool :=
  match s with
  | EmptyString => false
  | String ch EmptyString => p ch
  | String _ s' => last_is p s'
  end.

Definition not_space (ch : ascii) : bool := negb (Py.isspace ch).

(** [o'], computed with more fuel, is [o] unless [o] ran out of fuel. *)
Definition fuel_le {A} (o o' : outcome A) : Prop := o <> OutOfFuel -> o' = o.

(** What [o] returns at a position [p], [o'] returns at [k + p]. *)
Definition embeds {A} (k : nat) (o o' : outcome (A * nat)) : Prop :=
  forall a p, o = Return (a, p) -> o' = Return (a, k + p).

(** The tokens [post] do not start with a word the parser would take as
    the continuation of an expression. *)
Definition inert (post : list string) : bool :=
  match post with
  | [] => true
  | h :: _ => negb (Py.in_tuple h ("or" :: "and" :: "not" :: _Parser.COMPARISON_OPS))
  end.

(** The six comparison operators of the grammar. *)
Inductive operator : Type := OpEq | OpNe | OpLt | OpGt | OpGe | OpLe.

Definition operator_text (o : operator) : string :=
  match o with
  | OpEq => "=="
  | OpNe => "!="
  | OpLt => "<"
  | OpGt => ">"
  | OpGe => ">="
  | OpLe => "<="
  end.

(** The comparison of two numbers. *)
Definition compare_floats (o : operator) (x y : PyFloat.float) : bool :=
  match o with
  | OpEq => PyFloat.eqb x y
  | OpNe => negb (PyFloat.eqb x y)
  | OpLt => PyFloat.ltb x y
  | OpGt => PyFloat.ltb y x
  | OpGe => PyFloat.leb y x
  | OpLe => PyFloat.leb x y
  end.

(** The comparison of two texts: equality, and the lexicographic order of
    the code points. *)
Definition compare_texts (o : operator) (l r : string) : bool :=
  match o with
  | OpEq => String.eqb l r
  | OpNe => negb (String.eqb l r)
  | OpLt => String.ltb l r
  | OpGt => String.ltb r l
  | OpGe => String.leb r l
  | OpLe => String.leb l r
  end.

(** What the specification says a comparison of the operands [a] and [b]
    is: quotes stripped, then numeric if both texts are numbers, else
    textual. *)
Definition comparison_value (o : operator) (a b : string) : bool :=
  let l := strip_quotes a in
  let r := strip_quotes b in
  match PyFloat.of_string l, PyFloat.of_string r with
  | Some x, Some y => compare_floats o x y
  | _, _ => compare_texts o l r
  end.

(** A token [_parse_atom] takes as a value: not a parenthesis, and a
    string literal or a word that is neither a keyword nor an operator. *)
Definition is_value_token (token : string) : bool :=
  negb (String.eqb token "(")
  && (_Parser.is_string_literal token
      || negb (Py.in_tuple token ["and"; "or"; "not"])
         && negb (Py.in_tuple token [")"; "=="; "!="; "<"; ">"; ">="; "<="])).

(** The synthetic token of a parenthesised sub-expression. *)
Definition bool_text (b : bool) : string := if b then "true" else "false".

(** The text of a path of word characters separated by single dots: group
    1 of the pattern of [_substitute_variables]. *)
Fixpoint dotted_tail (s : string) : bool :=
  match s with
  | EmptyString => true
  | String ch s' =>
      if Py.is_word ch then dotted_tail s'
      else if Ascii.eqb ch "." then
        match s' with
        | String ch' _ => Py.is_word ch' && dotted_tail s'
        | EmptyString => false
        end
      else false
  end.

Definition is_dotted_path (p : string) : bool := head_is Py.is_word p && dotted_tail p.

(** The text of a reference to the path [p]. *)
Definition reference (p : string) : string := "{{" +:+ p +:+ "}}".

(** The value the parts of a path lead to in nested dictionaries, if every
    part is a key of the dictionary reached so far. *)
Fixpoint lookup_path (parts : list string) (v : value) : option value :=
  match parts with
  | [] => Some v
  | part :: parts' =>
      match v with
      | VDict items _ =>
          match items !! part with
          | Some v' => lookup_path parts' v'
          | None => None
          end
      | _ => None
      end
  end.

(** The path [p] is missing from the context [c]. *)
Definition path_missing (p : string) (c : context) : Prop :=
  lookup_path (Py.split "." p) (VDict c "") = None.

(** The path [p] is present in the context [c], with the value [None]. *)
Definition path_is_None (p : string) (c : context) : Prop :=
  lookup_path (Py.split "." p) (VDict c "") = Some VNone.

(** The outcome of substitution, without the context. *)
Definition substituted_text (s : string) (c : context) : outcome string :=
  fst (_substitute_variables s c).

(** The characters a reference is made of. *)
Definition is_reference_char (ch : ascii) : bool :=
  Py.is_word ch || Ascii.eqb ch "." || Ascii.eqb ch "{" || Ascii.eqb ch "}".

(** [t] is empty or starts with a character that no reference contains. *)
Definition breaks_reference (t : string) : bool := negb (head_is is_reference_char t).

(** [rest] is the body of a string literal opened by [q] and its closing
    quote: [q] occurs in it at the end only. *)
Fixpoint closes_quote (q : ascii) (rest : string) : bool :=
  match rest with
  | EmptyString => false
  | String ch EmptyString => Ascii.eqb ch q
  | String ch rest' => negb (Ascii.eqb ch q) && closes_quote q rest'
  end.

(** The text of a quoted string literal. *)
Definition is_literal_text (a : string) : bool :=
  match a with
  | String q rest => is_quote q && closes_quote q rest
  | EmptyString => false
  end.

(** The text of a bareword. *)
Definition is_word_text (a : string) : bool :=
  negb (Py.is_empty a) && Py.all_chars is_word_char a.

(** The text of an atom of the grammar that is not parenthesised: a string
    literal, or a bareword other than the keywords. *)
Definition is_atom_text (a : string) : bool :=
  is_literal_text a
  || (is_word_text a && negb (Py.in_tuple a ["and"; "or"; "not"])).

(** [p] is an expression that evaluation accepts in the context [c], with
    the value [b]: its references resolve, and the text they leave
    tokenizes and parses. *)
Definition valid_subexpression (p : string) (c : context) (b : bool) : Prop :=
  exists s ts,
    substituted_text p c = Return s
    /\ _tokenize (Py.strip s) = Return ts
    /\ _Parser.parse ts = Return b.

(** The text that closes a parenthesis and compares with ['true']. *)
Definition close_eq_true : string := ") == 'true'".

(** The first element of [l] is at least every element of [l], in the
    order of strings. *)
Definition head_is_max (l : list string) : Prop :=
  match l with
  | [] => True
  | h :: _ => forall y, In y l -> String.leb y h = true
  end.

(** The character [ch], before the text [rest], starts no token: it is not
    white space, a quote, a parenthesis, an angle bracket or a word
    character, and does not open a two-character operator. *)
Definition unrecognized (ch : ascii) (rest : string) : bool :=
  negb (Py.isspace ch) && negb (is_quote ch) && negb (is_paren ch)
  && negb (is_angle ch) && negb (is_word_char ch)
  && negb (Py.in_tuple (String ch (substring 0 1 rest)) TWO_CHAR_OPS).

(** The result [r] of an evaluation in the context [c] is the syntax
    error with the message [msg]. *)
Definition raises_syntax_error (r : outcome bool * context) (msg : message)
    (c : context) : Prop :=
  r = (Raise (ExpressionError msg), c)
  /\ is_syntax_error (ExpressionError msg) = true.

(** ** The operand of a comparison, as the specification reads it *)

(** [s] without its last character. *)
Fixpoint without_last (s : string) : string :=
  match s with
  | EmptyString => EmptyString
  | String _ EmptyString => EmptyString
  | String ch s' => String ch (without_last s')
  end.

(** The text of an operand once unquoted: an operand that is a quoted
    string literal, that is a text that opens with a quote character and
    closes with the same one, stands for the text between the two
    quotes; any other operand stands for itself.  This definition follows
    the words of the specification and uses none of the code of
    [strip_quotes]. *)
Definition unquoted (a : string) : string :=
  match a with
  | String q rest =>
      if is_quote q && last_is (Ascii.eqb q) a then without_last rest else a
  | EmptyString => EmptyString
  end.

(** The text [s] between double quotes. *)
Definition double_quoted (s : string) : string :=
  String double_quote (s +:+ String double_quote "").

(** ** The grammar of expressions *)

(** The expressions of the grammar the parser is written for:
    an or-expression is and-expressions joined by [or], an and-expression
    is not-expressions joined by [and], a not-expression is a comparison
    under any number of [not], a comparison is an atom or two atoms about
    an operator, and an atom is a value token or an or-expression in
    parentheses. *)
Inductive expr : Type :=
| Atom (token : string)
| Paren (inner : expr)
| Compare (l : expr) (o : operator) (r : expr)
| Not (operand : expr)
| And (l r : expr)
| Or (l r : expr).

(** The tokens an expression is written with. *)
Fixpoint tokens_of (e : expr) : list string :=
  match e with
  | Atom token => [token]
  | Paren inner => "(" :: tokens_of inner ++ [")"]
  | Compare l o r => tokens_of l ++ operator_text o :: tokens_of r
  | Not operand => "not" :: tokens_of operand
  | And l r => tokens_of l ++ "and" :: tokens_of r
  | Or l r => tokens_of l ++ "or" :: tokens_of r
  end.

(** [fits level e]: the rule of the grammar at [level] derives [e], where
    the levels are 0 for or-expressions, 1 for and-expressions, 2 for
    not-expressions, 3 for comparisons and 4 for atoms.  The operators
    associate to the left. *)
Fixpoint fits (level : nat) (e : expr) : bool :=
  match e with
  | Atom token => is_value_token token
  | Paren inner => fits 0 inner
  | Compare l _ r => (level <=? 3) && fits 4 l && fits 4 r
  | Not operand => (level <=? 2) && fits 2 operand
  | And l r => (level <=? 1) && fits 1 l && fits 2 r
  | Or l r => (level <=? 0) && fits 0 l && fits 1 r
  end.

(** The value of an expression, and the text an atom hands to a
    comparison. *)
Fixpoint value_of (e : expr) : bool :=
  match e with
  | Atom token => _is_truthy (strip_quotes token)
  | Paren inner => value_of inner
  | Compare l o r => comparison_value o (operand_text l) (operand_text r)
  | Not operand => negb (value_of operand)
  | And l r => value_of l && value_of r
  | Or l r => value_of l || value_of r
  end

with operand_text (e : expr) : string :=
  match e with
  | Atom token => token
  | Paren inner => bool_text (value_of inner)
  | _ => EmptyString
  end.

(** The tokens [ts] stand in [tokens] from the position [pos] on. *)
Definition occurs_at (ts tokens : list string) (pos : nat) : Prop :=
  forall i t, ts !! i = Some t -> tokens !! (pos + i) = Some t.

(** With fuel enough, the method returns [a] and the position [stop]. *)
Definition returns_at {A} (method : nat -> nat -> outcome (A * nat))
    (pos stop : nat) (a : A) : Prop :=
  exists n, forall fuel, n <= fuel -> method fuel pos = Return (a, stop).

(** With fuel enough, the method does from [pos] what its loop does from
    [stop] with the value [v] in hand. *)
Definition continues_at (method : nat -> nat -> outcome (bool * nat))
    (loop : nat -> bool -> nat -> outcome (bool * nat))
    (pos stop : nat) (v : bool) : Prop :=
  forall g, has_fuel (loop g v stop) ->
    exists fuel, method fuel pos = loop g v stop.

(** The texts [_tokenize] appends as tokens: a parenthesis or an operator,
    a quoted literal with its quotes, or a run of word characters. *)
Definition is_token_text (t : string) : bool :=
  Py.in_tuple t ["("; ")"; "=="; "!="; ">="; "<="; "<"; ">"]
  || is_literal_text t
  || is_word_text t.

(** The atoms of an expression are texts the tokenizer reads as one
    token. *)
Fixpoint atoms_are_texts (e : expr) : bool :=
  match e with
  | Atom token => is_atom_text token
  | Paren inner => atoms_are_texts inner
  | Compare l _ r => atoms_are_texts l && atoms_are_texts r
  | Not operand => atoms_are_texts operand
  | And l r => atoms_are_texts l && atoms_are_texts r
  | Or l r => atoms_are_texts l && atoms_are_texts r
  end.

(** The value of the path [p] in the context [c], if every part of the
    path is a key of the dictionary reached so far. *)
Definition context_lookup (p : string) (c : context) : option value :=
  lookup_path (Py.split "." p) (VDict c "").

(** The text [replace_var] puts in for a value that is not [None]. *)
Definition value_text (v : value) : option string :=
  match v with
  | VNone => None
  | VStr s => Some ("'" +:+ s +:+ "'")
  | VBool b => Some (bool_text b)
  | VInt n => Some (Py.str_int n)
  | VDict _ text => Some text
  | VOther text => Some text
  end.

Definition is_dict (v : value) : bool :=
  match v with VDict _ _ => true | _ => false end.

(** The characters of a path and the closing brace. *)
Definition is_path_or_close (ch : ascii) : bool :=
  Py.is_word ch || Ascii.eqb ch "." || Ascii.eqb ch "}".

(** The comparison of two integers. *)
Definition compare_ints (o : operator) (a b : Z) : bool :=
  match o with
  | OpEq => (a =? b)%Z
  | OpNe => negb (a =? b)%Z
  | OpLt => (a <? b)%Z
  | OpGt => (b <? a)%Z
  | OpGe => (b <=? a)%Z
  | OpLe => (a <=? b)%Z
  end.

(** The float [x] is the integer [z]. *)
Definition float_is (x : PyFloat.float) (z : Z) : Prop :=
  match x with
  | PyFloat.Finite q => Qeq q (inject_Z z)
  | _ => False
  end.

(** The operand [a] is read as a number, and as the number that is not
    one. *)
Definition is_numeric (a : string) : bool :=
  match _try_numeric (strip_quotes a) with Some _ => true | None => false end.

Definition reads_as_nan (a : string) : bool :=
  match _try_numeric (strip_quotes a) with Some PyFloat.Nan => true | _ => false end.

(** The comparison of [a] and [b] is one of numbers of which one is not a
    number. *)
Definition unordered (a b : string) : bool :=
  is_numeric a && is_numeric b && (reads_as_nan a || reads_as_nan b).

(** Exactly one of three booleans is true. *)
Definition one_of_three (x y z : bool) : bool :=
  match x, y, z with
  | true, false, false | false, true, false | false, false, true => true
  | _, _, _ => false
  end.

(** The list is in descending order of strings. *)
Fixpoint is_descending (l : list string) : bool :=
  match l with
  | x :: (y :: _) as rest => String.leb y x && is_descending rest
  | _ => true
  end.

(** The test of the loop of [resolve_model_pattern] that looks for the
    provider, without the alternative that cannot hold. *)
Definition provider_matches (provider_name name : string) : bool :=
  String.eqb provider_name name
  || String.eqb provider_name (ModelResolver.remove_occurrences "provider-" name 0).

(** * Properties *)

(** ** Strings *)

Lemma get_None_iff (s : string) (i : nat) :
  get i s = None <-> String.length s <= i.
Proof.
  revert i. induction s as [|ch s IH]; intros i; simpl.
  - split; [lia | reflexivity].
  - destruct i as [|i]; simpl.
    + split; [discriminate | lia].
    + rewrite IH. lia.
Qed.

Lemma get_Some_lt (s : string) (i : nat) (ch : ascii) :
  get i s = Some ch -> i < String.length s.
Proof.
  intros H. destruct (Nat.lt_ge_cases i (String.length s)) as [|Hge]; [assumption|].
  apply get_None_iff in Hge. congruence.
Qed.

(** ** The tokenizer never runs out of fuel *)

Lemma find_quote_ge (e : string) (q : ascii) (count j : nat) :
  j <= find_quote e q count j.
Proof.
  revert j. induction count as [|count IH]; intros j; simpl; [lia|].
  destruct (get j e) as [ch|]; [|lia].
  destruct (Ascii.eqb ch q); [lia|]. specialize (IH (S j)). lia.
Qed.

Lemma find_word_end_ge (e : string) (count j : nat) :
  j <= find_word_end e count j.
Proof.
  revert j. induction count as [|count IH]; intros j; simpl; [lia|].
  destruct (get j e) as [ch|]; [|lia].
  destruct (is_word_char ch); [|lia]. specialize (IH (S j)). lia.
Qed.

Lemma tokenize_step_advances (e : string) (i i' : nat) (ch : ascii) (app : list string) :
  get i e = Some ch -> tokenize_step e i ch = Next i' app -> i < i'.
Proof.
  intros Hget. unfold tokenize_step.
  destruct (Py.isspace ch); [intros [= <- _]; lia|].
  destruct (is_quote ch).
  { destruct (_ <=? _); [discriminate|]. intros [= <- _].
    pose proof (find_quote_ge e ch (String.length e - (i + 1)) (i + 1)). lia. }
  destruct (is_paren ch); [intros [= <- _]; lia|].
  destruct (_ && _); [intros [= <- _]; lia|].
  destruct (is_angle ch); [intros [= <- _]; lia|].
  destruct (is_word_char ch) eqn:Hw; [|discriminate].
  intros [= <- _].
  pose proof (get_Some_lt _ _ _ Hget) as Hlt.
  destruct (String.length e - i) as [|count] eqn:Hc; [lia|].
  simpl. rewrite Hget, Hw.
  pose proof (find_word_end_ge e count (S i)). lia.
Qed.

Lemma tokenize_loop_fuel (fuel : nat) (e : string) (i : nat) (tokens : list string) :
  String.length e - i <= fuel -> tokenize_loop fuel e i tokens <> OutOfFuel.
Proof.
  revert i tokens. induction fuel as [|fuel IH]; intros i tokens Hfuel; simpl.
  - destruct (get i e) as [ch|] eqn:Hget; [|discriminate].
    apply get_Some_lt in Hget. lia.
  - destruct (get i e) as [ch|] eqn:Hget; [|discriminate].
    destruct (tokenize_step e i ch) as [i' app|msg] eqn:Hstep; [|discriminate].
    apply IH. pose proof (tokenize_step_advances _ _ _ _ _ Hget Hstep). lia.
Qed.

Theorem tokenize_terminates (e : string) : _tokenize e <> OutOfFuel.
Proof. apply tokenize_loop_fuel. lia. Qed.

Import _Parser.

Lemma within_bind {A B} (n pos : nat) (m : outcome (A * nat)) (k : A * nat -> outcome (B * nat)) :
  within n pos m ->
  (forall a p, pos <= p <= n -> within n p (k (a, p))) ->
  within n pos (out_bind m k).
Proof.
  intros Hm Hk. destruct m as [[a p]| |]; simpl in *; try exact I.
  specialize (Hk a p Hm). destruct (k (a, p)) as [[b p']| |]; simpl in *; try exact I. lia.
Qed.

Lemma within_consume (tokens : list string) (pos : nat) :
  within (length tokens) pos (_consume tokens pos).
Proof.
  unfold _consume. destruct (tokens !! pos) eqn:E; simpl; [|exact I].
  apply lookup_lt_Some in E. lia.
Qed.

Lemma within_Return {A} (n pos p : nat) (a : A) :
  pos <= p <= n -> within n pos (Return (a, p)).
Proof. intros H. exact H. Qed.

Lemma parser_within (tokens : list string) (fuel : nat) :
  (forall pos, pos <= length tokens -> within (length tokens) pos (_parse_or tokens fuel pos))
  /\ (forall l pos, pos <= length tokens -> within (length tokens) pos (_parse_or_loop tokens fuel l pos))
  /\ (forall pos, pos <= length tokens -> within (length tokens) pos (_parse_and tokens fuel pos))
  /\ (forall l pos, pos <= length tokens -> within (length tokens) pos (_parse_and_loop tokens fuel l pos))
  /\ (forall pos, pos <= length tokens -> within (length tokens) pos (_parse_not tokens fuel pos))
  /\ (forall pos, pos <= length tokens -> within (length tokens) pos (_parse_comparison tokens fuel pos))
  /\ (forall pos, pos <= length tokens -> within (length tokens) pos (_parse_atom tokens fuel pos)).
Proof.
  induction fuel as [|fuel (IHor & IHorl & IHand & IHandl & IHnot & IHcmp & IHatom)].
  { repeat split; intros; exact I. }
  repeat split; intros; simpl;
    repeat first
      [ exact I
      | apply within_Return; lia
      | solve [ simpl; lia ]
      | solve [ first [apply IHor | apply IHorl | apply IHand | apply IHandl
                      | apply IHnot | apply IHcmp | apply IHatom ]; lia ]
      | apply within_bind;
        [ solve [ first [apply within_consume | apply IHor | apply IHorl | apply IHand
                        | apply IHandl | apply IHnot | apply IHcmp | apply IHatom ]; lia ]
        | intros ? ? ?; simpl ]
      | match goal with
        | |- within _ _ (if ?b then _ else _) => destruct b
        | |- within _ _ (match ?x with _ => _ end) => destruct x
        end ].
Qed.

Lemma has_fuel_bind {A B} (n pos : nat) (m : outcome (A * nat)) (k : A * nat -> outcome B) :
  within n pos m -> has_fuel m ->
  (forall a p, pos <= p <= n -> has_fuel (k (a, p))) ->
  has_fuel (out_bind m k).
Proof.
  intros Hw Hm Hk. destruct m as [[a p]| |]; simpl in *; [auto | discriminate | contradiction].
Qed.

Lemma has_fuel_Return {A} (a : A) : has_fuel (Return a).
Proof. discriminate. Qed.

Lemma has_fuel_Raise {A} (e : exception) : has_fuel (@Raise A e).
Proof. discriminate. Qed.

Lemma parser_has_fuel (tokens : list string) (fuel : nat) :
  let n := length tokens in
  (forall pos, pos <= n -> 5 * (n - pos) + 5 <= fuel -> has_fuel (_parse_or tokens fuel pos))
  /\ (forall l pos, pos <= n -> 5 * (n - pos) + 1 <= fuel -> has_fuel (_parse_or_loop tokens fuel l pos))
  /\ (forall pos, pos <= n -> 5 * (n - pos) + 4 <= fuel -> has_fuel (_parse_and tokens fuel pos))
  /\ (forall l pos, pos <= n -> 5 * (n - pos) + 1 <= fuel -> has_fuel (_parse_and_loop tokens fuel l pos))
  /\ (forall pos, pos <= n -> 5 * (n - pos) + 3 <= fuel -> has_fuel (_parse_not tokens fuel pos))
  /\ (forall pos, pos <= n -> 5 * (n - pos) + 2 <= fuel -> has_fuel (_parse_comparison tokens fuel pos))
  /\ (forall pos, pos <= n -> 5 * (n - pos) + 1 <= fuel -> has_fuel (_parse_atom tokens fuel pos)).
Proof.
  intros n. subst n.
  induction fuel as [|fuel (IHor & IHorl & IHand & IHandl & IHnot & IHcmp & IHatom)].
  { repeat split; intros; lia. }
  pose proof (parser_within tokens fuel) as (Wor & Worl & Wand & Wandl & Wnot & Wcmp & Watom).
  repeat split; intros; simpl;
    unfold peek_is, peek_in, _peek, _consume;
    repeat first
      [ apply has_fuel_Return
      | apply has_fuel_Raise
      | solve [ first [apply IHor | apply IHorl | apply IHand | apply IHandl
                      | apply IHnot | apply IHcmp | apply IHatom ]; lia ]
      | match goal with
        | |- has_fuel (out_bind (Return _) _) => simpl
        | |- has_fuel (out_bind (Raise _) _) => simpl
        | |- has_fuel (out_bind _ _) =>
            eapply has_fuel_bind;
            [ solve [ first [apply Wor | apply Worl | apply Wand | apply Wandl
                            | apply Wnot | apply Wcmp | apply Watom ]; lia ]
            | solve [ first [apply IHor | apply IHorl | apply IHand | apply IHandl
                            | apply IHnot | apply IHcmp | apply IHatom ]; lia ]
            | intros ? ? ?; simpl ]
        | |- context [ tokens !! ?p ] =>
            let E := fresh "E" in
            destruct (tokens !! p) eqn:E; [ apply lookup_lt_Some in E | ]
        | |- has_fuel (if ?b then _ else _) => destruct b
        | |- has_fuel (match ?x with _ => _ end) => destruct x
        end ].
Qed.

Theorem parse_terminates (tokens : list string) : has_fuel (parse tokens).
Proof.
  unfold parse, enough_fuel.
  pose proof (parser_has_fuel tokens (5 * length tokens + 5)) as [Hor _].
  pose proof (parser_within tokens (5 * length tokens + 5)) as [Wor _].
  eapply has_fuel_bind; [apply Wor; lia | apply Hor; lia |].
  intros b p Hp. destruct (p <? length tokens); [|apply has_fuel_Return].
  destruct (tokens !! p); discriminate.
Qed.

(** ** More on strings *)

Lemma append_nil_l (s : string) : "" +:+ s = s.
Proof. reflexivity. Qed.

Lemma append_cons (ch : ascii) (a b : string) :
  String ch a +:+ b = String ch (a +:+ b).
Proof. reflexivity. Qed.

Lemma append_nil_r (s : string) : s +:+ "" = s.
Proof.
  induction s as [|ch s IH]; [reflexivity|]. now rewrite append_cons, IH.
Qed.

Lemma append_assoc (a b c : string) : (a +:+ b) +:+ c = a +:+ (b +:+ c).
Proof.
  induction a as [|ch a IH]; [reflexivity|]. now rewrite !append_cons, IH.
Qed.

Lemma append_snoc (p : string) (ch : ascii) (s : string) :
  p +:+ String ch s = (p +:+ String ch "") +:+ s.
Proof. now rewrite append_assoc, append_cons, append_nil_l. Qed.

Lemma length_append (a b : string) :
  String.length (a +:+ b) = String.length a + String.length b.
Proof.
  induction a as [|ch a IH]; [reflexivity|]. rewrite append_cons. simpl. now rewrite IH.
Qed.

Lemma length_snoc (p : string) (ch : ascii) :
  String.length (p +:+ String ch "") = S (String.length p).
Proof. rewrite length_append. simpl. lia. Qed.

Lemma get_append_r (p s : string) (k : nat) :
  get (String.length p + k) (p +:+ s) = get k s.
Proof.
  induction p as [|ch p IH]; [reflexivity|]. rewrite append_cons. simpl. exact IH.
Qed.

Lemma get_append_here (p s : string) : get (String.length p) (p +:+ s) = get 0 s.
Proof. rewrite <- (Nat.add_0_r (String.length p)). apply get_append_r. Qed.

Lemma substring_append_r (p s : string) (m : nat) :
  substring (String.length p) m (p +:+ s) = substring 0 m s.
Proof.
  induction p as [|ch p IH]; [reflexivity|]. rewrite append_cons. simpl. exact IH.
Qed.

Lemma substring_0_append (w s : string) :
  substring 0 (String.length w) (w +:+ s) = w.
Proof.
  induction w as [|ch w IH].
  - rewrite append_nil_l. destruct s; reflexivity.
  - rewrite append_cons. simpl. now rewrite IH.
Qed.

Lemma slice_token (p w s : string) :
  Py.slice (p +:+ w +:+ s) (String.length p) (String.length p + String.length w) = w.
Proof.
  unfold Py.slice. replace (String.length p + String.length w - String.length p)
    with (String.length w) by lia.
  rewrite substring_append_r. apply substring_0_append.
Qed.

(** ** The tokenizer loop, one turn at a time *)

Lemma tokenize_loop_fuel_irrelevant (f1 f2 : nat) (e : string) (i : nat) (acc : list string) :
  String.length e - i <= f1 -> String.length e - i <= f2 ->
  tokenize_loop f1 e i acc = tokenize_loop f2 e i acc.
Proof.
  revert f2 i acc. induction f1 as [|f1 IH]; intros f2 i acc H1 H2.
  - destruct f2; simpl; destruct (get i e) eqn:Hget; try reflexivity;
      apply get_Some_lt in Hget; lia.
  - destruct f2 as [|f2]; simpl; destruct (get i e) as [ch|] eqn:Hget; try reflexivity.
    + apply get_Some_lt in Hget; lia.
    + destruct (tokenize_step e i ch) as [i' app|msg] eqn:Hstep; [|reflexivity].
      pose proof (tokenize_step_advances _ _ _ _ _ Hget Hstep).
      apply IH; lia.
Qed.

Lemma tokenize_from_eq (e : string) (i : nat) (acc : list string) :
  tokenize_from e i acc =
  match get i e with
  | None => Return acc
  | Some ch =>
      match tokenize_step e i ch with
      | Next i' app => tokenize_from e i' (acc ++ app)
      | Stop msg => Raise (ExpressionError msg)
      end
  end.
Proof.
  unfold tokenize_from. destruct (get i e) as [ch|] eqn:Hget.
  - pose proof (get_Some_lt _ _ _ Hget) as Hlt.
    destruct (String.length e - i) as [|f] eqn:Hf; [lia|].
    simpl. rewrite Hget.
    destruct (tokenize_step e i ch) as [i' app|msg] eqn:Hstep; [|reflexivity].
    pose proof (tokenize_step_advances _ _ _ _ _ Hget Hstep).
    apply tokenize_loop_fuel_irrelevant; lia.
  - destruct (String.length e - i); simpl; now rewrite Hget.
Qed.

Lemma tokenize_from_start (e : string) : _tokenize e = tokenize_from e 0 [].
Proof. unfold _tokenize, tokenize_from. now rewrite Nat.sub_0_r. Qed.

(** ** The inner loops *)

Lemma find_quote_found (q : ascii) (body : string) :
  Py.contains_char q body = false ->
  forall (p s : string) (count : nat),
    String.length body < count ->
    find_quote (p +:+ body +:+ String q s) q count (String.length p)
    = String.length p + String.length body.
Proof.
  induction body as [|ch body IH]; intros Hno p s count Hcount.
  - destruct count as [|count]; [simpl in Hcount; lia|].
    rewrite append_nil_l. cbn [find_quote].
    rewrite get_append_here. cbn [get]. rewrite Ascii.eqb_refl. simpl. lia.
  - simpl in Hno. apply orb_false_iff in Hno as [Hne Hno].
    destruct count as [|count]; [simpl in Hcount; lia|].
    rewrite append_cons. cbn [find_quote]. rewrite get_append_here. cbn [get].
    rewrite eqb_sym, Hne.
    rewrite append_snoc, <- length_snoc with (ch := ch).
    rewrite IH; [|assumption|simpl in Hcount; lia].
    rewrite length_snoc. simpl String.length. lia.
Qed.

Lemma find_quote_missing (q : ascii) (r : string) :
  Py.contains_char q r = false ->
  forall (p : string) (count : nat),
    String.length r <= count ->
    find_quote (p +:+ r) q count (String.length p) = String.length p + String.length r.
Proof.
  induction r as [|ch r IH]; intros Hno p count Hcount.
  - rewrite append_nil_r. simpl. destruct count as [|count]; simpl; [lia|].
    assert (get (String.length p) p = None) as -> by (apply get_None_iff; lia). lia.
  - simpl in Hno. apply orb_false_iff in Hno as [Hne Hno].
    destruct count as [|count]; [simpl in Hcount; lia|].
    cbn [find_quote]. rewrite get_append_here. cbn [get].
    rewrite eqb_sym, Hne.
    rewrite append_snoc, <- length_snoc with (ch := ch).
    rewrite IH; [|assumption|simpl in Hcount; lia].
    rewrite length_snoc. simpl String.length. lia.
Qed.

Lemma find_word_end_spec (w : string) :
  Py.all_chars is_word_char w = true ->
  forall (p s : string) (count : nat),
    head_is is_word_char s = false ->
    String.length w <= count ->
    find_word_end (p +:+ w +:+ s) count (String.length p)
    = String.length p + String.length w.
Proof.
  induction w as [|ch w IH]; intros Hall p s count Hs Hcount.
  - rewrite append_nil_l. simpl. destruct count as [|count]; simpl; [lia|].
    rewrite get_append_here. destruct s as [|c s]; simpl; [lia|].
    simpl in Hs. rewrite Hs. lia.
  - simpl in Hall. apply andb_true_iff in Hall as [Hch Hall].
    destruct count as [|count]; [simpl in Hcount; lia|].
    rewrite append_cons. cbn [find_word_end]. rewrite get_append_here. cbn [get].
    rewrite Hch.
    rewrite append_snoc, <- length_snoc with (ch := ch).
    rewrite IH; [|assumption|assumption|simpl in Hcount; lia].
    rewrite length_snoc. simpl String.length. lia.
Qed.

(** ** Character classes of the tokenizer are disjoint *)

Lemma is_quote_inv (q : ascii) : is_quote q = true -> q = "'"%char \/ q = double_quote.
Proof.
  unfold is_quote. intros H. apply orb_true_iff in H as [H|H];
    apply Ascii.eqb_eq in H; auto.
Qed.

Lemma is_paren_inv (ch : ascii) : is_paren ch = true -> ch = "("%char \/ ch = ")"%char.
Proof.
  unfold is_paren. intros H. apply orb_true_iff in H as [H|H];
    apply Ascii.eqb_eq in H; auto.
Qed.

Lemma is_angle_inv (ch : ascii) : is_angle ch = true -> ch = "<"%char \/ ch = ">"%char.
Proof.
  unfold is_angle. intros H. apply orb_true_iff in H as [H|H];
    apply Ascii.eqb_eq in H; auto.
Qed.

Lemma word_char_class (ch : ascii) :
  is_word_char ch = true ->
  Py.isspace ch = false /\ is_quote ch = false /\ is_paren ch = false
  /\ op_start ch = false.
Proof.
  destruct ch as [[] [] [] [] [] [] [] []]; vm_compute; intros H;
    first [discriminate H | repeat split].
Qed.

Lemma two_char_op_inv (op : string) :
  Py.in_tuple op TWO_CHAR_OPS = true ->
  op = "==" \/ op = "!=" \/ op = ">=" \/ op = "<=".
Proof.
  unfold Py.in_tuple, TWO_CHAR_OPS. simpl. intros H.
  repeat (apply orb_true_iff in H as [H|H]; [apply String.eqb_eq in H; auto|]).
  discriminate.
Qed.

Lemma two_char_op_head (ch : ascii) (rest : string) :
  Py.in_tuple (String ch rest) TWO_CHAR_OPS = true ->
  op_start ch = true /\ head_is (Ascii.eqb "=") rest = true.
Proof.
  intros H. apply two_char_op_inv in H as [H|[H|[H|H]]]; inversion H; subst;
    split; reflexivity.
Qed.

Lemma substring_0_2 (ch : ascii) (rest : string) :
  substring 0 2 (String ch rest) = String ch (substring 0 1 rest).
Proof. reflexivity. Qed.

Lemma head_is_substring (p : ascii -> bool) (rest : string) :
  head_is p (substring 0 1 rest) = head_is p rest.
Proof. destruct rest as [|c [|c' rest]]; reflexivity. Qed.

(** ** One turn of the loop, by the kind of character it meets *)

Section Steps.

Variables (p : string) (ch : ascii) (rest : string).
Let e := p +:+ String ch rest.
Let i := String.length p.

Lemma step_get : get i e = Some ch.
Proof. subst e i. rewrite get_append_here. reflexivity. Qed.

Lemma step_length : String.length e = i + S (String.length rest).
Proof. subst e i. rewrite length_append. reflexivity. Qed.

Lemma step_slice2 : Py.slice e i (i + 2) = String ch (substring 0 1 rest).
Proof.
  subst e i. unfold Py.slice.
  replace (String.length p + 2 - String.length p) with 2 by lia.
  rewrite substring_append_r. apply substring_0_2.
Qed.

Lemma step_no_op2 :
  op_start ch = false \/ head_is (Ascii.eqb "=") rest = false ->
  (i + 1 <? String.length e) && Py.in_tuple (Py.slice e i (i + 2)) TWO_CHAR_OPS = false.
Proof.
  intros H. rewrite step_slice2.
  destruct (Py.in_tuple _ TWO_CHAR_OPS) eqn:E; [|apply andb_false_r].
  apply two_char_op_head in E as [E1 E2]. rewrite head_is_substring in E2.
  destruct H; congruence.
Qed.

Lemma step_space :
  Py.isspace ch = true -> tokenize_step e i ch = Next (i + 1) [].
Proof. intros H. unfold tokenize_step. now rewrite H. Qed.

Lemma step_paren :
  is_paren ch = true -> tokenize_step e i ch = Next (i + 1) [String ch ""].
Proof.
  intros H. unfold tokenize_step.
  apply is_paren_inv in H as [-> | ->]; reflexivity.
Qed.

Lemma step_angle :
  is_angle ch = true -> head_is (Ascii.eqb "=") rest = false ->
  tokenize_step e i ch = Next (i + 1) [String ch ""].
Proof.
  intros H Hrest. unfold tokenize_step.
  rewrite step_no_op2 by auto.
  apply is_angle_inv in H as [-> | ->]; reflexivity.
Qed.

Lemma step_unexpected :
  Py.isspace ch = false -> is_quote ch = false -> is_paren ch = false ->
  is_angle ch = false -> is_word_char ch = false ->
  Py.in_tuple (String ch (substring 0 1 rest)) TWO_CHAR_OPS = false ->
  tokenize_step e i ch = Stop (UnexpectedCharacter ch i).
Proof.
  intros H1 H2 H3 H4 H5 H6. unfold tokenize_step.
  rewrite H1, H2, H3, H4, H5, step_slice2, H6, andb_false_r. reflexivity.
Qed.

End Steps.

Lemma step_quote (p : string) (q : ascii) (body s : string) :
  is_quote q = true -> Py.contains_char q body = false ->
  tokenize_step (p +:+ String q (body +:+ String q s)) (String.length p) q
  = Next (String.length p + String.length body + 2) [String q (body +:+ String q "")].
Proof.
  intros Hq Hbody. unfold tokenize_step.
  assert (Py.isspace q = false) as -> by (apply is_quote_inv in Hq as [-> | ->]; reflexivity).
  rewrite Hq.
  set (e := p +:+ String q (body +:+ String q s)).
  assert (String.length e = String.length p + String.length body + 2 + String.length s) as Hlen.
  { subst e. rewrite length_append. simpl. rewrite length_append. simpl. lia. }
  assert (find_quote e q (String.length e - (String.length p + 1)) (String.length p + 1)
          = String.length p + 1 + String.length body) as ->.
  { rewrite Hlen. subst e. rewrite append_snoc.
    rewrite Nat.add_1_r, <- (length_snoc p q).
    apply find_quote_found; [assumption|]. rewrite length_snoc. lia. }
  assert ((String.length e <=? String.length p + 1 + String.length body) = false) as ->
    by (apply Nat.leb_gt; lia).
  f_equal; [lia|]. f_equal. subst e.
  replace (String q (body +:+ String q s))
    with (String q (body +:+ String q "") +:+ s)
    by (now rewrite append_cons, append_assoc).
  replace (String.length p + 1 + String.length body + 1)
    with (String.length p + String.length (String q (body +:+ String q "")))
    by (simpl; rewrite length_append; simpl; lia).
  apply slice_token.
Qed.

Lemma step_op2 (p op s : string) :
  Py.in_tuple op TWO_CHAR_OPS = true ->
  exists ch, get (String.length p) (p +:+ op +:+ s) = Some ch
    /\ tokenize_step (p +:+ op +:+ s) (String.length p) ch
       = Next (String.length p + 2) [op].
Proof.
  intros Hop.
  assert (exists c1 c2, op = String c1 (String c2 "")
          /\ Py.isspace c1 = false /\ is_quote c1 = false /\ is_paren c1 = false)
    as (c1 & c2 & -> & Hs & Hq & Hp).
  { apply two_char_op_inv in Hop as [-> | [-> | [-> | ->]]];
      eexists _, _; repeat split; reflexivity. }
  exists c1. rewrite !append_cons, append_nil_l. split; [apply step_get|].
  unfold tokenize_step. rewrite Hs, Hq, Hp, step_slice2. simpl substring.
  destruct s; simpl substring; rewrite Hop, andb_true_r;
    rewrite step_length; simpl String.length;
    (replace (String.length p + 1 <? _) with true by (symmetry; apply Nat.ltb_lt; lia));
    reflexivity.
Qed.

Lemma step_word (p : string) (ch : ascii) (w s : string) :
  Py.all_chars is_word_char (String ch w) = true ->
  head_is is_word_char s = false ->
  tokenize_step (p +:+ String ch w +:+ s) (String.length p) ch
  = Next (String.length p + String.length (String ch w)) [String ch w].
Proof.
  intros Hall Hs.
  pose proof Hall as Hall'. simpl in Hall'. apply andb_true_iff in Hall' as [Hch _].
  destruct (word_char_class ch Hch) as (H1 & H2 & H3 & H4).
  unfold tokenize_step. rewrite H1, H2, H3.
  rewrite append_cons at 1 2. rewrite step_no_op2 by auto.
  assert (is_angle ch = false) as ->.
  { unfold op_start in H4. now apply orb_false_iff in H4 as [_ ?]. }
  rewrite Hch.
  rewrite find_word_end_spec; [|assumption|assumption|].
  2:{ rewrite !length_append. lia. }
  now rewrite slice_token.
Qed.

(** ** From a scan to the run of the loop *)

Lemma Scan_run (k : string) (ts : list string) (r : string) :
  Scan k ts r ->
  forall (p : string) (acc : list string),
    tokenize_from (p +:+ k +:+ r) (String.length p) acc
    = tokenize_from (p +:+ k +:+ r) (String.length p + String.length k) (acc ++ ts).
Proof.
  induction 1 as [r | ch k ts r Hch _ IH | q body k ts r Hq Hbody _ IH
                 | ch k ts r Hch _ IH | op k ts r Hop _ IH
                 | ch k ts r Hch Hnext _ IH | w k ts r Hne Hw Hnext _ IH];
    intros p acc.
  - simpl. now rewrite Nat.add_0_r, app_nil_r.
  - rewrite tokenize_from_eq, append_cons, step_get, step_space by assumption.
    rewrite (append_snoc p), Nat.add_1_r, <- (length_snoc p ch), IH.
    rewrite length_snoc, app_nil_r. simpl. f_equal. lia.
  - rewrite tokenize_from_eq, !append_cons, step_get.
    rewrite append_assoc, append_cons, step_quote by assumption.
    set (tok := String q (body +:+ String q "")).
    replace (p +:+ String q (body +:+ String q (k +:+ r)))
      with ((p +:+ tok) +:+ k +:+ r).
    2:{ subst tok. now rewrite !append_assoc, !append_cons, append_assoc, append_cons. }
    replace (String.length p + String.length body + 2) with (String.length (p +:+ tok))
      by (subst tok; rewrite length_append; simpl; rewrite length_append; simpl; lia).
    rewrite IH, <- app_assoc. f_equal.
    subst tok. rewrite !length_append. simpl. rewrite !length_append. simpl. lia.
  - rewrite tokenize_from_eq, append_cons, step_get, step_paren by assumption.
    rewrite (append_snoc p), Nat.add_1_r, <- (length_snoc p ch), IH.
    rewrite length_snoc, <- app_assoc. simpl. f_equal. lia.
  - rewrite tokenize_from_eq, append_assoc.
    destruct (step_op2 p op (k +:+ r) Hop) as (ch & -> & ->).
    rewrite <- append_assoc.
    replace (p +:+ (op +:+ k) +:+ r) with ((p +:+ op) +:+ k +:+ r)
      by now rewrite !append_assoc.
    assert (String.length op = 2) as Hlen
      by (apply two_char_op_inv in Hop as [-> | [-> | [-> | ->]]]; reflexivity).
    replace (String.length p + 2) with (String.length (p +:+ op))
      by (rewrite length_append; lia).
    rewrite IH, <- app_assoc, !length_append. f_equal. lia.
  - rewrite tokenize_from_eq, append_cons, step_get, step_angle by assumption.
    rewrite (append_snoc p), Nat.add_1_r, <- (length_snoc p ch), IH.
    rewrite length_snoc, <- app_assoc. simpl. f_equal. lia.
  - destruct w as [|ch w]; [congruence|].
    rewrite tokenize_from_eq, append_assoc, append_cons, step_get.
    rewrite <- append_cons, step_word by assumption.
    rewrite <- append_assoc.
    replace (p +:+ (String ch w +:+ k) +:+ r) with ((p +:+ String ch w) +:+ k +:+ r)
      by now rewrite !append_assoc.
    rewrite <- length_append, IH, <- app_assoc, !length_append. f_equal. lia.
Qed.

Lemma tokenize_from_end (e : string) (acc : list string) :
  tokenize_from e (String.length e) acc = Return acc.
Proof.
  rewrite tokenize_from_eq.
  assert (get (String.length e) e = None) as -> by (apply get_None_iff; lia).
  reflexivity.
Qed.

(** A scan of the whole text is what [_tokenize] returns. *)
Theorem Scan_tokenize (e : string) (ts : list string) :
  Scan e ts "" -> _tokenize e = Return ts.
Proof.
  intros H. rewrite tokenize_from_start.
  pose proof (Scan_run _ _ _ H "" []) as Hrun.
  rewrite append_nil_l, append_nil_r in Hrun. simpl in Hrun.
  rewrite Hrun. apply tokenize_from_end.
Qed.

(** ** From the run of the loop to a scan *)

Lemma split_at_char (q : ascii) (r : string) :
  Py.contains_char q r = false
  \/ exists body s, r = body +:+ String q s /\ Py.contains_char q body = false.
Proof.
  induction r as [|ch r IH]; [now left|].
  simpl. destruct (Ascii.eqb_spec q ch) as [<-|Hne].
  - right. exists "", r. now split.
  - destruct IH as [IH|(body & s & -> & Hbody)]; [now left|].
    right. exists (String ch body), s. split; [reflexivity|].
    simpl. apply Ascii.eqb_neq in Hne. now rewrite Hne.
Qed.

Lemma span_word_chars (r : string) :
  exists w s, r = w +:+ s /\ Py.all_chars is_word_char w = true
              /\ head_is is_word_char s = false.
Proof.
  induction r as [|ch r (w & s & -> & Hw & Hs)].
  - exists "", "". now repeat split.
  - destruct (is_word_char ch) eqn:Hch.
    + exists (String ch w), s. repeat split; [|assumption]. simpl. now rewrite Hch.
    + exists "", (String ch (w +:+ s)). now repeat split.
Qed.

Lemma step_unterminated (p : string) (q : ascii) (rest : string) :
  is_quote q = true -> Py.contains_char q rest = false ->
  tokenize_step (p +:+ String q rest) (String.length p) q
  = Stop (UnterminatedString (String.length p)).
Proof.
  intros Hq Hrest. unfold tokenize_step.
  assert (Py.isspace q = false) as -> by (apply is_quote_inv in Hq as [-> | ->]; reflexivity).
  rewrite Hq, step_length.
  rewrite append_snoc, Nat.add_1_r, <- (length_snoc p q).
  rewrite find_quote_missing; [|assumption|rewrite length_snoc; lia].
  rewrite length_snoc.
  now replace (_ <=? _) with true by (symmetry; apply Nat.leb_le; lia).
Qed.

Lemma tokenize_from_sound (n : nat) :
  forall (rest p : string) (acc out : list string),
    String.length rest <= n ->
    tokenize_from (p +:+ rest) (String.length p) acc = Return out ->
    exists ts, out = (acc ++ ts)%list /\ Scan rest ts "".
Proof.
  induction n as [|n IH]; intros rest p acc out Hlen Hrun.
  { destruct rest; [|simpl in Hlen; lia].
    rewrite append_nil_r, tokenize_from_end in Hrun. injection Hrun as <-.
    exists []. split; [now rewrite app_nil_r | constructor]. }
  destruct rest as [|ch rest].
  { rewrite append_nil_r, tokenize_from_end in Hrun. injection Hrun as <-.
    exists []. split; [now rewrite app_nil_r | constructor]. }
  simpl in Hlen. rewrite tokenize_from_eq, step_get in Hrun.
  destruct (Py.isspace ch) eqn:Hspace.
  { rewrite step_space in Hrun by assumption.
    rewrite append_snoc, Nat.add_1_r, <- (length_snoc p ch) in Hrun.
    apply IH in Hrun as (ts & -> & Hts); [|lia].
    exists ts. split; [now rewrite app_nil_r | now constructor]. }
  destruct (is_quote ch) eqn:Hquote.
  { destruct (split_at_char ch rest) as [Hno|(body & s & -> & Hbody)].
    - rewrite step_unterminated in Hrun by assumption. discriminate.
    - rewrite step_quote in Hrun by assumption.
      set (tok := String ch (body +:+ String ch "")) in *.
      replace (p +:+ String ch (body +:+ String ch s)) with ((p +:+ tok) +:+ s) in Hrun.
      2:{ subst tok. now rewrite !append_assoc, !append_cons, append_assoc, append_cons. }
      replace (String.length p + String.length body + 2)
        with (String.length (p +:+ tok)) in Hrun
        by (subst tok; rewrite length_append; simpl; rewrite length_append; simpl; lia).
      apply IH in Hrun as (ts & -> & Hts).
      2:{ rewrite length_append in Hlen. simpl in Hlen. lia. }
      exists (tok :: ts). split; [now rewrite <- app_assoc | now constructor]. }
  destruct (is_paren ch) eqn:Hparen.
  { rewrite step_paren in Hrun by assumption.
    rewrite append_snoc, Nat.add_1_r, <- (length_snoc p ch) in Hrun.
    apply IH in Hrun as (ts & -> & Hts); [|lia].
    exists (String ch "" :: ts). split; [now rewrite <- app_assoc | now constructor]. }
  destruct (Py.in_tuple (String ch (substring 0 1 rest)) TWO_CHAR_OPS) eqn:Hop2.
  { destruct rest as [|c2 rest]; [apply two_char_op_inv in Hop2; simpl in Hop2;
      destruct Hop2 as [?|[?|[?|?]]]; discriminate|].
    assert (substring 0 1 (String c2 rest) = String c2 "") as Hsub
      by (simpl; now destruct rest).
    rewrite Hsub in Hop2.
    destruct (step_op2 p _ rest Hop2) as (ch' & Hget & Hstep).
    rewrite !append_cons, append_nil_l in Hget, Hstep.
    rewrite step_get in Hget. injection Hget as <-.
    rewrite Hstep in Hrun.
    replace (p +:+ String ch (String c2 rest))
      with ((p +:+ String ch (String c2 "")) +:+ rest) in Hrun
      by now rewrite append_assoc.
    replace (String.length p + 2)
      with (String.length (p +:+ String ch (String c2 ""))) in Hrun
      by (rewrite length_append; simpl; lia).
    apply IH in Hrun as (ts & -> & Hts); [|simpl in Hlen; lia].
    exists (String ch (String c2 "") :: ts). split; [now rewrite <- app_assoc|].
    change (String ch (String c2 rest)) with (String ch (String c2 "") +:+ rest).
    now constructor. }
  destruct (is_angle ch) eqn:Hangle.
  { assert (head_is (Ascii.eqb "=") rest = false) as Hnext.
    { destruct rest as [|c2 rest]; [reflexivity|]. cbn [head_is].
      destruct (Ascii.eqb "=" c2) eqn:E; [|reflexivity].
      apply Ascii.eqb_eq in E as <-.
      assert (substring 0 1 (String "=" rest) = "=") as Hsub by (simpl; now destruct rest).
      rewrite Hsub in Hop2.
      apply is_angle_inv in Hangle as [-> | ->]; discriminate. }
    rewrite step_angle in Hrun by assumption.
    rewrite append_snoc, Nat.add_1_r, <- (length_snoc p ch) in Hrun.
    apply IH in Hrun as (ts & -> & Hts); [|lia].
    exists (String ch "" :: ts). split; [now rewrite <- app_assoc|].
    constructor; [assumption | now rewrite append_nil_r | assumption]. }
  destruct (is_word_char ch) eqn:Hword.
  { destruct (span_word_chars rest) as (w & s & -> & Hw & Hs).
    rewrite <- append_cons, step_word in Hrun by (simpl; now rewrite ?Hword, ?Hw).
    rewrite <- append_assoc, <- length_append in Hrun.
    apply IH in Hrun as (ts & -> & Hts).
    2:{ rewrite length_append in Hlen. lia. }
    exists (String ch w :: ts). split; [now rewrite <- app_assoc|].
    rewrite <- append_cons. apply Scan_word; try assumption.
    - discriminate.
    - simpl. now rewrite Hword, Hw.
    - now rewrite append_nil_r. }
  rewrite step_unexpected in Hrun by assumption. discriminate.
Qed.

(** What [_tokenize] returns is a scan of the whole text. *)
Theorem tokenize_Scan (e : string) (ts : list string) :
  _tokenize e = Return ts -> Scan e ts "".
Proof.
  rewrite tokenize_from_start. intros H.
  apply (tokenize_from_sound (String.length e) e "" [] ts) in H as (ts' & -> & H);
    [assumption | lia].
Qed.

(** ** Composing scans *)

Lemma Scan_spaces (l r : string) :
  Py.all_chars Py.isspace l = true -> Scan l [] r.
Proof.
  induction l as [|ch l IH]; intros H; [constructor|].
  simpl in H. apply andb_true_iff in H as [Hch Hl].
  apply Scan_space; auto.
Qed.

Lemma Scan_trans (k1 : string) (ts1 : list string) (k2 : string) (ts2 : list string)
    (r r1 : string) :
  Scan k1 ts1 r1 -> r1 = k2 +:+ r -> Scan k2 ts2 r ->
  Scan (k1 +:+ k2) (ts1 ++ ts2) r.
Proof.
  intros H1 -> H2.
  remember (k2 +:+ r) as r1 eqn:Hr1.
  induction H1 as [r1 | ch k ts r1 Hch _ IH | q body k ts r1 Hq Hbody _ IH
                  | ch k ts r1 Hch _ IH | op k ts r1 Hop _ IH
                  | ch k ts r1 Hch Hnext _ IH | w k ts r1 Hne Hw Hnext _ IH];
    subst r1; specialize (IH eq_refl) || idtac.
  - exact H2.
  - rewrite append_cons. now apply Scan_space.
  - rewrite append_cons, append_assoc, append_cons. now apply Scan_quote.
  - rewrite append_cons. now apply Scan_paren.
  - rewrite append_assoc. now apply Scan_op2.
  - rewrite append_cons. apply Scan_angle; try assumption. now rewrite append_assoc.
  - rewrite append_assoc. apply Scan_word; try assumption. now rewrite append_assoc.
Qed.

Lemma head_is_append (p : ascii -> bool) (k r : string) :
  head_is p (k +:+ "") = false -> head_is p r = false -> head_is p (k +:+ r) = false.
Proof. destruct k; [auto|]. rewrite !append_cons. auto. Qed.

(** A scan of a whole text is a scan of the same characters before any
    text that starts with neither a word character nor an equals sign. *)
Lemma Scan_extend (k : string) (ts : list string) (r : string) :
  Scan k ts "" ->
  head_is is_word_char r = false -> head_is (Ascii.eqb "=") r = false ->
  Scan k ts r.
Proof.
  intros H Hw He. remember "" as r0 eqn:Hr0.
  induction H as [r0 | ch k ts r0 Hch _ IH | q body k ts r0 Hq Hbody _ IH
                 | ch k ts r0 Hch _ IH | op k ts r0 Hop _ IH
                 | ch k ts r0 Hch Hnext _ IH | w k ts r0 Hne Hwd Hnext _ IH];
    subst r0; specialize (IH eq_refl) || idtac.
  - constructor.
  - now apply Scan_space.
  - now apply Scan_quote.
  - now apply Scan_paren.
  - now apply Scan_op2.
  - apply Scan_angle; try assumption. now apply head_is_append.
  - apply Scan_word; try assumption. now apply head_is_append.
Qed.

(** ** [strip] *)

Lemma lstrip_split (s : string) :
  exists lead, s = lead +:+ Py.lstrip s /\ Py.all_chars Py.isspace lead = true.
Proof.
  induction s as [|ch s (lead & Hs & Hlead)]; [now exists ""|].
  simpl. destruct (Py.isspace ch) eqn:Hch.
  - exists (String ch lead). rewrite append_cons, <- Hs. simpl. now rewrite Hch.
  - now exists "".
Qed.

Lemma rstrip_split (s : string) :
  exists trail, s = Py.rstrip s +:+ trail /\ Py.all_chars Py.isspace trail = true.
Proof.
  induction s as [|ch s (trail & Hs & Htrail)]; [now exists ""|].
  simpl. destruct (Py.rstrip s) as [|c r] eqn:Hr.
  - rewrite append_nil_l in Hs. subst trail. destruct (Py.isspace ch) eqn:Hch.
    + exists (String ch s). split; [reflexivity|]. simpl. now rewrite Hch.
    + now exists s.
  - exists trail. now rewrite append_cons, <- Hs.
Qed.

Lemma space_not_word (ch : ascii) :
  Py.isspace ch = true -> is_word_char ch = false /\ Ascii.eqb "=" ch = false.
Proof.
  destruct ch as [[] [] [] [] [] [] [] []]; vm_compute; intros H;
    first [discriminate H | split; reflexivity].
Qed.

Lemma spaces_head (p : ascii -> bool) (l : string) :
  (forall ch, Py.isspace ch = true -> p ch = false) ->
  Py.all_chars Py.isspace l = true -> head_is p l = false.
Proof.
  intros Hp. destruct l as [|ch l]; [reflexivity|]. simpl.
  intros H. apply andb_true_iff in H as [H _]. auto.
Qed.

(** The tokens of the stripped text are the tokens of the text. *)
Lemma Scan_strip (s : string) (ts : list string) :
  Scan (Py.strip s) ts "" -> Scan s ts "".
Proof.
  unfold Py.strip. intros H.
  destruct (lstrip_split s) as (lead & Hs & Hlead).
  destruct (rstrip_split (Py.lstrip s)) as (trail & Hl & Htrail).
  rewrite Hs, Hl.
  replace ts with ([] ++ ts ++ [])%list by now rewrite app_nil_r.
  eapply Scan_trans; [apply Scan_spaces; eassumption | reflexivity |].
  eapply Scan_trans; [|symmetry; apply append_nil_r | now apply Scan_spaces].
  apply Scan_extend; [assumption | |].
  - apply spaces_head; [|assumption]. intros ch Hch. now apply space_not_word.
  - apply spaces_head; [|assumption]. intros ch Hch. now apply space_not_word.
Qed.

Lemma lstrip_spaces (w s : string) :
  Py.all_chars Py.isspace w = true -> Py.lstrip (w +:+ s) = Py.lstrip s.
Proof.
  induction w as [|ch w IH]; intros H; [reflexivity|].
  simpl in H. apply andb_true_iff in H as [Hch Hw].
  rewrite append_cons. simpl. rewrite Hch. auto.
Qed.

Lemma lstrip_head (s : string) : head_is not_space s = true -> Py.lstrip s = s.
Proof.
  destruct s as [|ch s]; [discriminate|]. unfold not_space. simpl.
  now destruct (Py.isspace ch).
Qed.

Lemma rstrip_spaces (w : string) :
  Py.all_chars Py.isspace w = true -> Py.rstrip w = "".
Proof.
  induction w as [|ch w IH]; intros H; [reflexivity|].
  simpl in H. apply andb_true_iff in H as [Hch Hw].
  simpl. now rewrite IH, Hch.
Qed.

Lemma rstrip_last (s w : string) :
  last_is not_space s = true -> Py.all_chars Py.isspace w = true ->
  Py.rstrip (s +:+ w) = s.
Proof.
  intros Hs Hw. induction s as [|ch s IH]; [discriminate|].
  rewrite append_cons. simpl. destruct s as [|c s].
  - rewrite append_nil_l, rstrip_spaces by assumption.
    unfold not_space in Hs. simpl in Hs. now destruct (Py.isspace ch).
  - rewrite IH by exact Hs. reflexivity.
Qed.

(** Stripping a text that is white space around a core that starts and
    ends with other characters leaves the core. *)
Lemma strip_core (w0 core w3 : string) :
  Py.all_chars Py.isspace w0 = true -> Py.all_chars Py.isspace w3 = true ->
  head_is not_space core = true -> last_is not_space core = true ->
  Py.strip (w0 +:+ core +:+ w3) = core.
Proof.
  intros H0 H3 Hh Hl. unfold Py.strip.
  rewrite lstrip_spaces by assumption.
  rewrite lstrip_head by (destruct core; [discriminate | exact Hh]).
  now apply rstrip_last.
Qed.

Lemma strip_blank (s : string) :
  Py.all_chars Py.isspace s = true -> Py.strip s = "".
Proof.
  intros H. unfold Py.strip.
  rewrite <- (append_nil_r s), lstrip_spaces by assumption. reflexivity.
Qed.

(** ** Errors of the tokenizer *)

Lemma Scan_then_step (k : string) (ts : list string) (ch : ascii) (rest : string) :
  Scan k ts (String ch rest) ->
  _tokenize (k +:+ String ch rest)
  = match tokenize_step (k +:+ String ch rest) (String.length k) ch with
    | Next i' app => tokenize_from (k +:+ String ch rest) i' (ts ++ app)
    | Stop msg => Raise (ExpressionError msg)
    end.
Proof.
  intros H. rewrite tokenize_from_start.
  pose proof (Scan_run _ _ _ H "" []) as Hrun.
  rewrite append_nil_l in Hrun. simpl in Hrun. rewrite Hrun.
  rewrite tokenize_from_eq, step_get. reflexivity.
Qed.

Lemma tokenize_unterminated (k : string) (ts : list string) (q : ascii) (rest : string) :
  Scan k ts (String q rest) ->
  is_quote q = true -> Py.contains_char q rest = false ->
  _tokenize (k +:+ String q rest)
  = Raise (ExpressionError (UnterminatedString (String.length k))).
Proof.
  intros H Hq Hrest. rewrite (Scan_then_step _ _ _ _ H).
  now rewrite step_unterminated.
Qed.

Lemma tokenize_unexpected (k : string) (ts : list string) (ch : ascii) (rest : string) :
  Scan k ts (String ch rest) ->
  Py.isspace ch = false -> is_quote ch = false -> is_paren ch = false ->
  is_angle ch = false -> is_word_char ch = false ->
  Py.in_tuple (String ch (substring 0 1 rest)) TWO_CHAR_OPS = false ->
  _tokenize (k +:+ String ch rest)
  = Raise (ExpressionError (UnexpectedCharacter ch (String.length k))).
Proof.
  intros H H1 H2 H3 H4 H5 H6. rewrite (Scan_then_step _ _ _ _ H).
  now rewrite step_unexpected.
Qed.

(** ** More fuel does not change what the parser does *)

Lemma fuel_le_refl {A} (o : outcome A) : fuel_le o o.
Proof. intros _. reflexivity. Qed.

Lemma fuel_le_bind {A B} (m m' : outcome A) (k k' : A -> outcome B) :
  fuel_le m m' -> (forall a, fuel_le (k a) (k' a)) ->
  fuel_le (out_bind m k) (out_bind m' k').
Proof.
  intros Hm Hk. destruct m as [a| |]; simpl.
  - rewrite Hm by discriminate. simpl. apply Hk.
  - rewrite Hm by discriminate. intros _. reflexivity.
  - intros H. contradiction.
Qed.

Lemma fuel_le_out {A} (o' : outcome A) : fuel_le OutOfFuel o'.
Proof. intros H. contradiction. Qed.

Lemma parser_fuel_le (tokens : list string) (f : nat) :
  forall f', f <= f' ->
  (forall pos, fuel_le (_parse_or tokens f pos) (_parse_or tokens f' pos))
  /\ (forall l pos, fuel_le (_parse_or_loop tokens f l pos) (_parse_or_loop tokens f' l pos))
  /\ (forall pos, fuel_le (_parse_and tokens f pos) (_parse_and tokens f' pos))
  /\ (forall l pos, fuel_le (_parse_and_loop tokens f l pos) (_parse_and_loop tokens f' l pos))
  /\ (forall pos, fuel_le (_parse_not tokens f pos) (_parse_not tokens f' pos))
  /\ (forall pos, fuel_le (_parse_comparison tokens f pos) (_parse_comparison tokens f' pos))
  /\ (forall pos, fuel_le (_parse_atom tokens f pos) (_parse_atom tokens f' pos)).
Proof.
  induction f as [|f IH]; intros f' Hle.
  { repeat split; intros; apply fuel_le_out. }
  destruct f' as [|f']; [lia|].
  destruct (IH f' ltac:(lia)) as (IHor & IHorl & IHand & IHandl & IHnot & IHcmp & IHatom).
  repeat split; intros; simpl;
    repeat first
      [ apply fuel_le_refl
      | solve [ first [apply IHor | apply IHorl | apply IHand | apply IHandl
                      | apply IHnot | apply IHcmp | apply IHatom ] ]
      | apply fuel_le_bind; [ | intros [? ?]; simpl ]
      | match goal with
        | |- fuel_le (if ?b then _ else _) (if ?b then _ else _) => destruct b
        | |- fuel_le (match ?x with _ => _ end) (match ?x with _ => _ end) => destruct x
        end ].
Qed.

Lemma parse_or_more_fuel (tokens : list string) (f f' pos : nat) (r : bool * nat) :
  f <= f' -> _parse_or tokens f pos = Return r -> _parse_or tokens f' pos = Return r.
Proof.
  intros Hle H. destruct (parser_fuel_le tokens f f' Hle) as [Hor _].
  rewrite (Hor pos); [assumption | rewrite H; discriminate].
Qed.

(** ** Parsing inside a longer list of tokens *)

Lemma in_tuple_cons (x a : string) (l : list string) :
  Py.in_tuple x (a :: l) = String.eqb x a || Py.in_tuple x l.
Proof. reflexivity. Qed.

Section Embedding.

Variables (pre ts post : list string).
Hypothesis post_inert : inert post = true.

Let big := (pre ++ ts ++ post)%list.
Let k := length pre.

Lemma big_lookup (pos : nat) (t : string) :
  ts !! pos = Some t -> big !! (k + pos) = Some t.
Proof.
  intros H. subst big k. rewrite lookup_app_r by lia.
  replace (length pre + pos - length pre) with pos by lia.
  now apply lookup_app_l_Some.
Qed.

Lemma big_lookup_end (pos : nat) :
  pos <= length ts -> ts !! pos = None -> big !! (k + pos) = post !! 0.
Proof.
  intros Hle H. apply lookup_ge_None in H. assert (pos = length ts) as -> by lia.
  subst big k. rewrite lookup_app_r by lia.
  replace (length pre + length ts - length pre) with (length ts) by lia.
  rewrite lookup_app_r by lia. now rewrite Nat.sub_diag.
Qed.

Lemma peek_is_embed (pos : nat) (w : string) :
  pos <= length ts ->
  Py.in_tuple w ("or" :: "and" :: "not" :: COMPARISON_OPS) = true ->
  peek_is big (k + pos) w = peek_is ts pos w.
Proof.
  intros Hle Hw. unfold peek_is, _peek.
  destruct (ts !! pos) as [t|] eqn:E.
  - now rewrite (big_lookup _ _ E).
  - rewrite (big_lookup_end _ Hle E).
    destruct post as [|h post']; [reflexivity|]. simpl.
    destruct (String.eqb_spec h w) as [->|]; [|reflexivity].
    unfold inert in post_inert. rewrite Hw in post_inert. discriminate.
Qed.

Lemma peek_in_embed (pos : nat) :
  pos <= length ts ->
  peek_in big (k + pos) COMPARISON_OPS = peek_in ts pos COMPARISON_OPS.
Proof.
  intros Hle. unfold peek_in, _peek.
  destruct (ts !! pos) as [t|] eqn:E.
  - now rewrite (big_lookup _ _ E).
  - rewrite (big_lookup_end _ Hle E).
    destruct post as [|h post']; [reflexivity|]. simpl lookup.
    destruct (Py.in_tuple h COMPARISON_OPS) eqn:Hh; [|reflexivity].
    unfold inert in post_inert. apply negb_true_iff in post_inert.
    rewrite !in_tuple_cons, Hh, !orb_true_r in post_inert. discriminate.
Qed.

Lemma peek_is_embed_true (pos : nat) (w : string) :
  peek_is ts pos w = true -> peek_is big (k + pos) w = true.
Proof.
  unfold peek_is, _peek. destruct (ts !! pos) as [t|] eqn:E; [|discriminate].
  now rewrite (big_lookup _ _ E).
Qed.

Lemma embeds_bind {A B} (pos : nat) (m m' : outcome (A * nat))
    (kont kont' : A * nat -> outcome (B * nat)) :
  embeds k m m' -> within (length ts) pos m ->
  (forall a p, pos <= p <= length ts -> embeds k (kont (a, p)) (kont' (a, k + p))) ->
  embeds k (out_bind m kont) (out_bind m' kont').
Proof.
  intros Hm Hw Hk b q. destruct m as [[a p]| |]; simpl; try discriminate.
  rewrite (Hm a p eq_refl). simpl. apply Hk. exact Hw.
Qed.

Lemma embeds_consume (pos : nat) :
  embeds k (_consume ts pos) (_consume big (k + pos)).
Proof.
  intros t p. unfold _consume. destruct (ts !! pos) as [t'|] eqn:E; [|discriminate].
  intros [= <- <-]. rewrite (big_lookup _ _ E). f_equal. f_equal. lia.
Qed.

Lemma embeds_Return {A} (a : A) (p : nat) :
  embeds k (Return (a, p)) (Return (a, k + p)).
Proof. intros a' p' [= <- <-]. reflexivity. Qed.

Lemma embeds_Raise {A} (e : exception) (o' : outcome (A * nat)) :
  embeds k (Raise e) o'.
Proof. intros a p H. discriminate. Qed.

Lemma embeds_OutOfFuel {A} (o' : outcome (A * nat)) : embeds k OutOfFuel o'.
Proof. intros a p H. discriminate. Qed.

Lemma parser_embeds (fuel : nat) :
  (forall pos, pos <= length ts ->
     embeds k (_parse_or ts fuel pos) (_parse_or big fuel (k + pos)))
  /\ (forall l pos, pos <= length ts ->
     embeds k (_parse_or_loop ts fuel l pos) (_parse_or_loop big fuel l (k + pos)))
  /\ (forall pos, pos <= length ts ->
     embeds k (_parse_and ts fuel pos) (_parse_and big fuel (k + pos)))
  /\ (forall l pos, pos <= length ts ->
     embeds k (_parse_and_loop ts fuel l pos) (_parse_and_loop big fuel l (k + pos)))
  /\ (forall pos, pos <= length ts ->
     embeds k (_parse_not ts fuel pos) (_parse_not big fuel (k + pos)))
  /\ (forall pos, pos <= length ts ->
     embeds k (_parse_comparison ts fuel pos) (_parse_comparison big fuel (k + pos)))
  /\ (forall pos, pos <= length ts ->
     embeds k (_parse_atom ts fuel pos) (_parse_atom big fuel (k + pos))).
Proof.
  induction fuel as [|fuel (IHor & IHorl & IHand & IHandl & IHnot & IHcmp & IHatom)].
  { repeat split; intros; apply embeds_OutOfFuel. }
  pose proof (parser_within ts fuel) as (Wor & Worl & Wand & Wandl & Wnot & Wcmp & Watom).
  assert (forall pos, within (length ts) pos (_consume ts pos)) as Wcons
    by apply within_consume.
  repeat split; intros pos' **; simpl.
  all: rewrite ?peek_is_embed, ?peek_in_embed by (lia || reflexivity).
  all: unfold _peek.
  all: repeat first
    [ apply embeds_Return
    | apply embeds_Raise
    | apply embeds_consume
    | solve [ first [apply IHor | apply IHorl | apply IHand | apply IHandl
                    | apply IHnot | apply IHcmp | apply IHatom ]; lia ]
    | eapply embeds_bind;
      [ | solve [ first [apply Wcons | apply Wor | apply Worl | apply Wand | apply Wandl
                        | apply Wnot | apply Wcmp | apply Watom ]; lia ]
        | intros ? ? ?; simpl;
          rewrite ?peek_is_embed, ?peek_in_embed by (lia || reflexivity) ]
    | match goal with
      | |- embeds _ (match ts !! ?p with _ => _ end) _ =>
          let E := fresh "E" in
          destruct (ts !! p) eqn:E;
          [ rewrite (big_lookup _ _ E) | apply embeds_Raise ]
      | |- embeds _ (if negb (peek_is ts ?p ?w) then _ else _) _ =>
          let E := fresh "E" in
          destruct (peek_is ts p w) eqn:E;
          [ rewrite (peek_is_embed_true _ _ E); simpl | apply embeds_Raise ]
      | |- embeds _ (if ?b then _ else _) (if ?b then _ else _) => destruct b
      | |- embeds _ (match ?x with _ => _ end) (match ?x with _ => _ end) => destruct x
      end ].
Qed.

(** A parse of the whole of [ts], seen from inside [big]. *)
Lemma parse_or_embedded (fuel fuel' : nat) (b : bool) :
  _parse_or ts fuel 0 = Return (b, length ts) -> fuel <= fuel' ->
  _parse_or big fuel' k = Return (b, k + length ts).
Proof.
  intros H Hle. apply parse_or_more_fuel with (f' := fuel') in H; [|assumption].
  destruct (parser_embeds fuel') as [Hor _].
  specialize (Hor 0 ltac:(lia) _ _ H). now rewrite Nat.add_0_r in Hor.
Qed.

End Embedding.

(** ** What the parser does on atoms and comparisons *)

Lemma parse_or_any_fuel (tokens : list string) (f : nat) (r : bool * nat) :
  _parse_or tokens f 0 = Return r ->
  _parse_or tokens (enough_fuel (length tokens)) 0 = Return r.
Proof.
  intros H. unfold enough_fuel.
  destruct (Nat.le_gt_cases f (5 * length tokens + 5)) as [Hle|Hgt].
  - now apply parse_or_more_fuel with (f := f).
  - destruct (parser_has_fuel tokens (5 * length tokens + 5)) as [Hfuel _].
    specialize (Hfuel 0 ltac:(lia) ltac:(lia)).
    destruct (parser_fuel_le tokens (5 * length tokens + 5) f ltac:(lia)) as [Hmono _].
    rewrite <- (Hmono 0 Hfuel). exact H.
Qed.

Lemma parse_intro (tokens : list string) (f : nat) (b : bool) :
  _parse_or tokens f 0 = Return (b, length tokens) -> parse tokens = Return b.
Proof.
  intros H. unfold parse. rewrite (parse_or_any_fuel _ _ _ H). simpl.
  now rewrite Nat.ltb_irrefl.
Qed.

Lemma parse_Return_inv (tokens : list string) (b : bool) :
  parse tokens = Return b ->
  _parse_or tokens (enough_fuel (length tokens)) 0 = Return (b, length tokens).
Proof.
  unfold parse. intros H.
  destruct (parser_within tokens (enough_fuel (length tokens))) as [W _].
  specialize (W 0 ltac:(lia)).
  destruct (_parse_or tokens _ 0) as [[b' p]| |]; simpl in *; try discriminate.
  destruct (p <? length tokens) eqn:Hp.
  - destruct (tokens !! p); discriminate.
  - apply Nat.ltb_ge in Hp. injection H as ->. f_equal. f_equal. lia.
Qed.

Lemma value_token_not_keyword (a w : string) :
  is_value_token a = true -> Py.in_tuple w ["and"; "or"; "not"] = true -> a <> w.
Proof.
  intros Ha Hw ->. unfold is_value_token in Ha.
  apply andb_true_iff in Ha as [_ Ha]. rewrite Hw in Ha. simpl in Ha.
  rewrite orb_false_r in Ha.
  unfold Py.in_tuple in Hw. simpl in Hw.
  repeat (apply orb_true_iff in Hw as [Hw|Hw];
          [apply String.eqb_eq in Hw; subst; discriminate|]).
  discriminate.
Qed.

Lemma atom_value (tokens : list string) (f pos : nat) (a : string) :
  tokens !! pos = Some a -> is_value_token a = true ->
  _parse_atom tokens (S f) pos = Return (a, pos + 1).
Proof.
  intros Hget Ha. simpl. unfold _peek, _consume. rewrite Hget.
  unfold is_value_token in Ha. apply andb_true_iff in Ha as [H1 H2].
  apply negb_true_iff in H1. rewrite H1.
  destruct (is_string_literal a); [reflexivity|]. simpl in H2.
  apply andb_true_iff in H2 as [H2 H3].
  apply negb_true_iff in H2, H3.
  change (Py.in_tuple a ["and"; "or"; "not"] = false) in H2.
  unfold Py.in_tuple in H2, H3. simpl in H2, H3. now rewrite H2, H3.
Qed.

Lemma atom_paren (pre ts post : list string) (f : nat) (b : bool) :
  parse ts = Return b -> enough_fuel (length ts) <= f ->
  _parse_atom (pre ++ "(" :: ts ++ ")" :: post) (S f) (length pre)
  = Return (bool_text b, length pre + length ts + 2).
Proof.
  intros Hparse Hf. apply parse_Return_inv in Hparse.
  set (tokens := (pre ++ "(" :: ts ++ ")" :: post)%list).
  assert (tokens = ((pre ++ ["("]) ++ ts ++ (")" :: post))%list) as Htok
    by (subst tokens; now rewrite <- app_assoc).
  pose proof (parse_or_embedded (pre ++ ["("]) ts (")" :: post) eq_refl _ f b Hparse Hf)
    as Hor.
  rewrite <- Htok, length_app in Hor. simpl in Hor.
  assert (tokens !! length pre = Some "(") as H0.
  { subst tokens. rewrite lookup_app_r by lia. now rewrite Nat.sub_diag. }
  assert (tokens !! (length pre + 1 + length ts) = Some ")") as H1.
  { rewrite Htok. rewrite lookup_app_r by (rewrite length_app; simpl; lia).
    rewrite lookup_app_r by (rewrite length_app; simpl; lia).
    rewrite length_app. simpl.
    now replace (length pre + 1 + length ts - (length pre + 1) - length ts) with 0 by lia. }
  simpl. unfold _peek, _consume, peek_is, _peek. rewrite H0. simpl.
  rewrite Hor. simpl. rewrite H1. simpl.
  f_equal. f_equal. lia.
Qed.

Lemma operator_text_in_ops (o : operator) :
  Py.in_tuple (operator_text o) COMPARISON_OPS = true.
Proof. destruct o; reflexivity. Qed.

Lemma compare_numbers_operator (o : operator) (x y : PyFloat.float) :
  compare_numbers (operator_text o) x y = Some (compare_floats o x y).
Proof. destruct o; reflexivity. Qed.

Lemma compare_strings_operator (o : operator) (l r : string) :
  compare_strings (operator_text o) l r = Some (compare_texts o l r).
Proof. destruct o; reflexivity. Qed.

Lemma comparison_binary (tokens : list string) (f pos p1 p2 : nat)
    (lv rv : string) (o : operator) :
  _parse_atom tokens f pos = Return (lv, p1) ->
  tokens !! p1 = Some (operator_text o) ->
  _parse_atom tokens f (p1 + 1) = Return (rv, p2) ->
  _parse_comparison tokens (S f) pos = Return (comparison_value o lv rv, p2).
Proof.
  intros Hl Hop Hr. simpl. rewrite Hl. simpl.
  unfold peek_in, _peek, _consume. rewrite Hop, operator_text_in_ops. simpl.
  rewrite Hr. simpl. unfold comparison_value, _try_numeric.
  destruct (PyFloat.of_string (strip_quotes lv)) as [x|];
    [destruct (PyFloat.of_string (strip_quotes rv)) as [y|]|].
  - now rewrite compare_numbers_operator.
  - now rewrite compare_strings_operator.
  - now rewrite compare_strings_operator.
Qed.

Lemma comparison_bare (tokens : list string) (f pos p1 : nat) (lv : string) :
  _parse_atom tokens f pos = Return (lv, p1) ->
  peek_in tokens p1 COMPARISON_OPS = false ->
  _parse_comparison tokens (S f) pos = Return (_is_truthy (strip_quotes lv), p1).
Proof. intros Hl Hop. simpl. rewrite Hl. simpl. now rewrite Hop. Qed.

(** A comparison that is not under [not] and that neither [and] nor [or]
    follows is the value of the expression. *)
Lemma parse_or_comparison (tokens : list string) (f pos p' : nat) (b : bool) :
  _parse_comparison tokens f pos = Return (b, p') ->
  peek_is tokens pos "not" = false ->
  peek_is tokens p' "and" = false ->
  peek_is tokens p' "or" = false ->
  _parse_or tokens (S (S (S f))) pos = Return (b, p').
Proof.
  intros Hc Hnot Hand Hor.
  cbn [_parse_or _parse_and _parse_not].
  rewrite Hnot, Hc. cbn [out_bind _parse_and_loop].
  rewrite Hand. cbn [out_bind _parse_or_loop]. now rewrite Hor.
Qed.

Lemma peek_is_end (tokens : list string) (w : string) :
  peek_is tokens (length tokens) w = false.
Proof.
  unfold peek_is, _peek.
  assert (tokens !! length tokens = None) as -> by (apply lookup_ge_None; lia).
  reflexivity.
Qed.

Lemma peek_in_end (tokens : list string) (items : list string) :
  peek_in tokens (length tokens) items = false.
Proof.
  unfold peek_in, _peek.
  assert (tokens !! length tokens = None) as -> by (apply lookup_ge_None; lia).
  reflexivity.
Qed.

(** ** The parser on the token lists of the claims *)

Theorem parse_bare_atom (a : string) :
  is_value_token a = true ->
  parse [a] = Return (_is_truthy (strip_quotes a)).
Proof.
  intros Ha. apply parse_intro with (f := 5).
  apply parse_or_comparison.
  - eapply comparison_bare; [now apply atom_value | apply (peek_in_end [a])].
  - unfold peek_is, _peek. simpl.
    apply String.eqb_neq. now apply value_token_not_keyword.
  - apply (peek_is_end [a]).
  - apply (peek_is_end [a]).
Qed.

Theorem parse_binary_comparison (a b : string) (o : operator) :
  is_value_token a = true -> is_value_token b = true ->
  parse [a; operator_text o; b] = Return (comparison_value o a b).
Proof.
  intros Ha Hb. apply parse_intro with (f := 5).
  apply parse_or_comparison.
  - eapply comparison_binary.
    + now apply atom_value.
    + reflexivity.
    + now apply atom_value.
  - unfold peek_is, _peek. simpl.
    apply String.eqb_neq. now apply value_token_not_keyword.
  - apply (peek_is_end [a; operator_text o; b]).
  - apply (peek_is_end [a; operator_text o; b]).
Qed.

(** A comparison of two value tokens, and a value token that no
    comparison operator follows, anywhere in the tokens. *)
Lemma comparison_of_values (tokens : list string) (f pos : nat) (a b : string)
    (o : operator) :
  tokens !! pos = Some a -> tokens !! (pos + 1) = Some (operator_text o) ->
  tokens !! (pos + 1 + 1) = Some b ->
  is_value_token a = true -> is_value_token b = true ->
  _parse_comparison tokens (S (S f)) pos
  = Return (comparison_value o a b, pos + 1 + 1 + 1).
Proof.
  intros Ha Ho Hb Hva Hvb.
  apply comparison_binary with (p1 := pos + 1); [|assumption|]; now apply atom_value.
Qed.

Lemma truthiness_of_value (tokens : list string) (f pos : nat) (a : string) :
  tokens !! pos = Some a -> is_value_token a = true ->
  peek_in tokens (pos + 1) COMPARISON_OPS = false ->
  _parse_comparison tokens (S (S f)) pos
  = Return (_is_truthy (strip_quotes a), pos + 1).
Proof.
  intros Ha Hva Hop. apply comparison_bare; [now apply atom_value | assumption].
Qed.

Lemma comparison_value_bool_texts (o : operator) (b1 b2 : bool) :
  comparison_value o (bool_text b1) (bool_text b2)
  = compare_texts o (bool_text b1) (bool_text b2).
Proof. destruct b1, b2; reflexivity. Qed.

Lemma comparison_value_eq_true (b : bool) :
  comparison_value OpEq (bool_text b) "'true'" = b.
Proof. destruct b; reflexivity. Qed.

(** [(p) == 'true'] on tokens *)
Theorem parse_paren_eq_true (ts : list string) (b : bool) :
  parse ts = Return b ->
  parse ("(" :: ts ++ [")"; "=="; "'true'"]) = Return b.
Proof.
  intros Hp.
  set (tokens := ("(" :: ts ++ [")"; "=="; "'true'"])%list).
  assert (length tokens = length ts + 4) as Hlen
    by (subst tokens; simpl; rewrite length_app; simpl; lia).
  assert (tokens !! (length ts + 2) = Some "==") as Hop.
  { subst tokens. rewrite app_comm_cons, lookup_app_r by (simpl; lia).
    simpl. now replace (length ts + 2 - S (length ts)) with 1 by lia. }
  assert (tokens !! (length ts + 2 + 1) = Some "'true'") as Hrv.
  { subst tokens. rewrite app_comm_cons, lookup_app_r by (simpl; lia).
    simpl. now replace (length ts + 2 + 1 - S (length ts)) with 2 by lia. }
  apply parse_intro with (f := S (S (S (S (S (enough_fuel (length ts))))))).
  rewrite Hlen. rewrite <- (comparison_value_eq_true b) at 1.
  apply parse_or_comparison.
  - eapply comparison_binary with (p1 := length ts + 2) (o := OpEq).
    + apply (atom_paren [] ts ["=="; "'true'"] _ b Hp). lia.
    + exact Hop.
    + replace (length ts + 4) with (length ts + 2 + 1 + 1) by lia.
      now apply atom_value.
  - reflexivity.
  - rewrite <- Hlen. apply peek_is_end.
  - rewrite <- Hlen. apply peek_is_end.
Qed.

(** [(p) op (q)] on tokens *)
Theorem parse_paren_compare (tp tq : list string) (bp bq : bool) (o : operator) :
  parse tp = Return bp -> parse tq = Return bq ->
  parse ("(" :: tp ++ ")" :: operator_text o :: "(" :: tq ++ [")"])
  = Return (compare_texts o (bool_text bp) (bool_text bq)).
Proof.
  intros Hp Hq.
  set (tokens := ("(" :: tp ++ ")" :: operator_text o :: "(" :: tq ++ [")"])%list).
  assert (length tokens = length tp + length tq + 5) as Hlen
    by (subst tokens; simpl; rewrite length_app; simpl; rewrite length_app; simpl; lia).
  assert (tokens !! (length tp + 2) = Some (operator_text o)) as Hop.
  { subst tokens. rewrite app_comm_cons, lookup_app_r by (simpl; lia).
    simpl. now replace (length tp + 2 - S (length tp)) with 1 by lia. }
  assert (tokens = (("(" :: tp ++ [")"; operator_text o]) ++ "(" :: tq ++ [")"])%list)
    as Htok.
  { subst tokens. simpl. f_equal. now rewrite <- app_assoc. }
  apply parse_intro
    with (f := S (S (S (S (S (enough_fuel (length tp) + enough_fuel (length tq))))))).
  rewrite Hlen, <- comparison_value_bool_texts.
  apply parse_or_comparison.
  - eapply comparison_binary with (p1 := length tp + 2).
    + apply (atom_paren [] tp (operator_text o :: "(" :: tq ++ [")"]) _ bp Hp). lia.
    + exact Hop.
    + rewrite Htok.
      pose proof (atom_paren ("(" :: tp ++ [")"; operator_text o]) tq []
                    (enough_fuel (length tp) + enough_fuel (length tq)) bq Hq ltac:(lia))
        as Hatom.
      simpl length in Hatom. rewrite length_app in Hatom. simpl length in Hatom.
      replace (length tp + 2 + 1) with (S (length tp + 2)) by lia.
      rewrite Hatom. f_equal. f_equal. lia.
  - reflexivity.
  - rewrite <- Hlen. apply peek_is_end.
  - rewrite <- Hlen. apply peek_is_end.
Qed.

(** A token that continues nothing, after a complete expression *)
Theorem parse_trailing_token (ts : list string) (b : bool) (t : string) :
  parse ts = Return b -> inert [t] = true ->
  parse (ts ++ [t]) = Raise (ExpressionError (UnexpectedToken t (length ts))).
Proof.
  intros Hp Ht. apply parse_Return_inv in Hp.
  pose proof (parse_or_embedded [] ts [t] Ht _ (enough_fuel (length (ts ++ [t]))) b Hp)
    as Hor.
  simpl in Hor. unfold parse. rewrite Hor.
  2:{ unfold enough_fuel. rewrite length_app. lia. }
  simpl. rewrite length_app. simpl.
  replace (length ts <? length ts + 1) with true by (symmetry; apply Nat.ltb_lt; lia).
  rewrite lookup_app_r by lia. now rewrite Nat.sub_diag.
Qed.

(** ** The pattern of variable references *)

Lemma path_rest_append (s : string) :
  forall p r, path_rest s = (p, r) -> s = p +:+ r.
Proof.
  induction s as [|ch s IH]; intros p r; simpl.
  - now intros [= <- <-].
  - destruct (Py.is_word ch).
    + destruct (path_rest s) as [p' r'] eqn:E. intros [= <- <-].
      rewrite append_cons. f_equal. now apply IH.
    + destruct (Ascii.eqb ch "."); [|now intros [= <- <-]].
      destruct s as [|ch' s']; [now intros [= <- <-]|].
      destruct (Py.is_word ch'); [|now intros [= <- <-]].
      destruct (path_rest (String ch' s')) as [p' r'] eqn:E. intros [= <- <-].
      rewrite append_cons. f_equal. now apply IH.
Qed.

Lemma match_reference_shape (s path after : string) :
  match_reference s = Some (path, after) ->
  s = "{{" +:+ path +:+ "}}" +:+ after.
Proof.
  unfold match_reference.
  destruct s as [|c1 [|c2 [|ch s1]]]; try discriminate.
  - destruct c1 as [[] [] [] [] [] [] [] []]; discriminate.
  - destruct c1 as [[] [] [] [] [] [] [] []]; try discriminate;
      destruct c2 as [[] [] [] [] [] [] [] []]; discriminate.
  - destruct (Ascii.eqb_spec c1 "{") as [->|Hne].
    2:{ destruct c1 as [[] [] [] [] [] [] [] []]; try discriminate. congruence. }
    destruct (Ascii.eqb_spec c2 "{") as [->|Hne].
    2:{ destruct c2 as [[] [] [] [] [] [] [] []]; try discriminate. congruence. }
    destruct (Py.is_word ch); [|discriminate].
    destruct (path_rest (String ch s1)) as [p r] eqn:E.
    apply path_rest_append in E.
    destruct r as [|r1 [|r2 r]]; try discriminate.
    + destruct r1 as [[] [] [] [] [] [] [] []]; discriminate.
    + destruct (Ascii.eqb_spec r1 "}") as [->|Hne].
      2:{ destruct r1 as [[] [] [] [] [] [] [] []]; try discriminate. congruence. }
      destruct (Ascii.eqb_spec r2 "}") as [->|Hne].
      2:{ destruct r2 as [[] [] [] [] [] [] [] []]; try discriminate. congruence. }
      intros [= <- <-]. rewrite E. reflexivity.
Qed.

Lemma match_reference_shorter (s path after : string) :
  match_reference s = Some (path, after) -> String.length after < String.length s.
Proof.
  intros H. apply match_reference_shape in H as ->.
  rewrite !length_append. simpl. lia.
Qed.

(** ** Substitution, one reference at a time *)

Lemma ctx_bind_ext {A B} (m : Ctx A) (k k' : A -> Ctx B) (c : context) :
  (forall a c', k a c' = k' a c') -> ctx_bind m k c = ctx_bind m k' c.
Proof.
  intros H. unfold ctx_bind. destruct (m c) as [[a| |] c']; auto.
Qed.

Lemma sub_replace_var_fuel (f1 : nat) :
  forall (f2 : nat) (s : string) (c : context),
    String.length s <= f1 -> String.length s <= f2 ->
    sub_replace_var f1 s c = sub_replace_var f2 s c.
Proof.
  induction f1 as [|f1 IH]; intros f2 s c H1 H2.
  - destruct s; [|simpl in H1; lia]. now destruct f2.
  - destruct s as [|ch rest]; [now destruct f2|].
    destruct f2 as [|f2]; [simpl in H2; lia|].
    simpl in H1, H2. cbn [sub_replace_var].
    destruct (match_reference (String ch rest)) as [[path after]|] eqn:E.
    + apply match_reference_shorter in E. simpl in E.
      apply ctx_bind_ext. intros text c'. unfold ctx_bind.
      rewrite (IH f2 after c') by lia. reflexivity.
    + unfold ctx_bind. rewrite (IH f2 rest c) by lia. reflexivity.
Qed.

Lemma substitute_eq (s : string) (c : context) :
  _substitute_variables s c =
  match s with
  | EmptyString => ctx_ret EmptyString c
  | String ch rest =>
      match match_reference s with
      | Some (var_path, after) =>
          (text <- replace_var var_path ;;
           out <- _substitute_variables after ;;
           ctx_ret (text +:+ out)) c
      | None =>
          (out <- _substitute_variables rest ;;
           ctx_ret (String ch out)) c
      end
  end.
Proof.
  unfold _substitute_variables. destruct s as [|ch rest]; [reflexivity|].
  cbn [String.length sub_replace_var].
  destruct (match_reference (String ch rest)) as [[path after]|] eqn:E.
  - apply match_reference_shorter in E. simpl in E.
    apply ctx_bind_ext. intros text c'. unfold ctx_bind.
    rewrite (sub_replace_var_fuel _ (String.length after)) by lia. reflexivity.
  - reflexivity.
Qed.

(** ** The context is only read *)

Lemma replace_var_context (var_path : string) (c : context) :
  snd (replace_var var_path c) = c.
Proof.
  unfold replace_var, ctx_bind, _resolve_variable.
  destruct (resolve_parts _ _); reflexivity.
Qed.

Lemma sub_replace_var_context (fuel : nat) :
  forall (s : string) (c : context), snd (sub_replace_var fuel s c) = c.
Proof.
  induction fuel as [|fuel IH]; intros s c.
  - destruct s; reflexivity.
  - destruct s as [|ch rest]; [reflexivity|]. cbn [sub_replace_var].
    destruct (match_reference (String ch rest)) as [[path after]|].
    + unfold ctx_bind at 1. pose proof (replace_var_context path c) as Hc.
      destruct (replace_var path c) as [[text| |] c']; simpl in Hc; subst c'; try reflexivity.
      unfold ctx_bind. pose proof (IH after c) as Hc.
      destruct (sub_replace_var fuel after c) as [[out| |] c']; simpl in Hc; subst c';
        reflexivity.
    + unfold ctx_bind. pose proof (IH rest c) as Hc.
      destruct (sub_replace_var fuel rest c) as [[out| |] c']; simpl in Hc; subst c';
        reflexivity.
Qed.

Lemma substitute_context (s : string) (c : context) :
  snd (_substitute_variables s c) = c.
Proof. apply sub_replace_var_context. Qed.

Lemma evaluate_condition_context (e : string) (c : context) :
  snd (evaluate_condition e c) = c.
Proof.
  unfold evaluate_condition. destruct (_ || _); [reflexivity|].
  unfold ctx_bind. pose proof (substitute_context e c) as Hc.
  destruct (_substitute_variables e c) as [[s| |] c']; simpl in Hc; subst c'; reflexivity.
Qed.

(** ** Substitution terminates, and fails only on an undefined variable *)

Lemma replace_var_outcome (var_path : string) (c : context) :
  (exists text, replace_var var_path c = (Return text, c))
  \/ replace_var var_path c = (Raise (ExpressionError (UndefinedVariable var_path)), c).
Proof.
  unfold replace_var, ctx_bind, _resolve_variable.
  destruct (resolve_parts _ _); simpl; eauto.
Qed.

Lemma substitute_outcome (n : nat) :
  forall (s : string) (c : context),
    String.length s <= n ->
    (exists text, _substitute_variables s c = (Return text, c))
    \/ (exists var_path,
          _substitute_variables s c
          = (Raise (ExpressionError (UndefinedVariable var_path)), c)).
Proof.
  induction n as [|n IH]; intros s c Hlen.
  { destruct s; [|simpl in Hlen; lia]. left. now exists "". }
  rewrite substitute_eq. destruct s as [|ch rest]; [left; now exists ""|].
  simpl in Hlen.
  destruct (match_reference (String ch rest)) as [[path after]|] eqn:E.
  - apply match_reference_shorter in E. simpl in E. unfold ctx_bind.
    destruct (replace_var_outcome path c) as [[text Hr]|Hr]; rewrite Hr;
      [|right; eexists; reflexivity].
    destruct (IH after c ltac:(lia)) as [[out Hs]|[q Hs]]; rewrite Hs; [left|right];
      eexists; reflexivity.
  - unfold ctx_bind.
    destruct (IH rest c ltac:(lia)) as [[out Hs]|[q Hs]]; rewrite Hs; [left|right];
      eexists; reflexivity.
Qed.

(** ** References are found wherever they occur *)

Lemma path_rest_dotted (p : string) :
  forall r, dotted_tail p = true ->
    head_is (fun ch => Py.is_word ch || Ascii.eqb ch ".") r = false ->
    path_rest (p +:+ r) = (p, r).
Proof.
  induction p as [|ch p IH]; intros r Hp Hr.
  - rewrite append_nil_l. destruct r as [|c r]; [reflexivity|].
    simpl in Hr. apply orb_false_iff in Hr as [H1 H2]. simpl. now rewrite H1, H2.
  - rewrite append_cons. simpl in Hp. cbn [path_rest].
    destruct (Py.is_word ch).
    + now rewrite IH.
    + destruct (Ascii.eqb ch "."); [|discriminate].
      destruct p as [|ch' p]; [discriminate|].
      apply andb_true_iff in Hp as [Hch' Hp].
      rewrite append_cons, Hch', <- append_cons. now rewrite IH.
Qed.

Lemma match_reference_complete (p post : string) :
  is_dotted_path p = true ->
  match_reference (reference p +:+ post) = Some (p, post).
Proof.
  unfold is_dotted_path, reference. intros H. apply andb_true_iff in H as [Hh Ht].
  destruct p as [|ch p]; [discriminate|]. simpl in Hh.
  rewrite !append_assoc. change ("{{" +:+ ?x) with (String "{" (String "{" x)).
  rewrite append_cons. cbn [match_reference]. rewrite Hh.
  rewrite <- append_cons.
  change ("}}" +:+ post) with (String "}" (String "}" post)).
  rewrite path_rest_dotted; [reflexivity | assumption | reflexivity].
Qed.

Lemma path_rest_stops (a b : string) :
  forall path r, path_rest (a +:+ String "{" b) = (path, r) ->
    exists a', a = path +:+ a' /\ r = a' +:+ String "{" b.
Proof.
  induction a as [|ch a IH]; intros path r.
  - rewrite append_nil_l. simpl. intros [= <- <-]. now exists "".
  - rewrite append_cons. cbn [path_rest]. destruct (Py.is_word ch).
    + destruct (path_rest (a +:+ String "{" b)) as [p' r'] eqn:E. intros [= <- <-].
      destruct (IH _ _ eq_refl) as (a' & -> & ->). now exists a'.
    + destruct (Ascii.eqb ch ".").
      * destruct a as [|ch' a].
        { rewrite append_nil_l. simpl. intros [= <- <-]. now exists (String ch ""). }
        rewrite append_cons. destruct (Py.is_word ch').
        -- rewrite <- append_cons.
           destruct (path_rest (String ch' a +:+ String "{" b)) as [p' r'] eqn:E.
           intros [= <- <-].
           destruct (IH _ _ eq_refl) as (a' & -> & ->). now exists a'.
        -- intros [= <- <-]. now exists (String ch (String ch' a)).
      * intros [= <- <-]. now exists (String ch a).
Qed.

(** A match that starts before an occurrence of a reference ends before
    it. *)
Lemma match_before_reference (pre x : string) (path after : string) :
  pre <> "" ->
  match_reference (pre +:+ "{{" +:+ x) = Some (path, after) ->
  exists pre', after = pre' +:+ "{{" +:+ x /\ String.length pre' < String.length pre.
Proof.
  intros Hpre. change ("{{" +:+ x) with (String "{" (String "{" x)).
  destruct pre as [|c1 [|c2 [|ch pre]]]; [congruence| | |].
  - rewrite append_cons, append_nil_l. unfold match_reference.
    destruct c1 as [[] [] [] [] [] [] [] []]; discriminate.
  - rewrite !append_cons, append_nil_l. unfold match_reference.
    destruct c1 as [[] [] [] [] [] [] [] []]; try discriminate;
      destruct c2 as [[] [] [] [] [] [] [] []]; discriminate.
  - rewrite !append_cons. unfold match_reference.
    destruct (Ascii.eqb_spec c1 "{") as [->|Hne].
    2:{ destruct c1 as [[] [] [] [] [] [] [] []]; try discriminate. congruence. }
    destruct (Ascii.eqb_spec c2 "{") as [->|Hne].
    2:{ destruct c2 as [[] [] [] [] [] [] [] []]; try discriminate. congruence. }
    destruct (Py.is_word ch); [|discriminate].
    rewrite <- append_cons.
    destruct (path_rest (String ch pre +:+ String "{" (String "{" x))) as [p r] eqn:E.
    apply path_rest_stops in E as (a' & Ha & ->).
    destruct a' as [|r1 [|r2 a']].
    + rewrite append_nil_l. discriminate.
    + rewrite append_cons, append_nil_l.
      destruct r1 as [[] [] [] [] [] [] [] []]; discriminate.
    + rewrite !append_cons.
      destruct (Ascii.eqb_spec r1 "}") as [->|Hne].
      2:{ destruct r1 as [[] [] [] [] [] [] [] []]; try discriminate. congruence. }
      destruct (Ascii.eqb_spec r2 "}") as [->|Hne].
      2:{ destruct r2 as [[] [] [] [] [] [] [] []]; try discriminate. congruence. }
      intros [= <- <-]. exists a'. split; [reflexivity|].
      apply (f_equal String.length) in Ha. rewrite length_append in Ha.
      simpl in *. lia.
Qed.

(** ** An undefined reference makes substitution fail *)

Lemma resolve_parts_lookup (parts : list string) (v : value) :
  resolve_parts parts v
  = match lookup_path parts v with Some v' => v' | None => VNone end.
Proof.
  revert v. induction parts as [|part parts IH]; intros v; [reflexivity|].
  simpl. destruct v; try reflexivity. destruct (items !! part); [apply IH | reflexivity].
Qed.

Lemma replace_var_undefined (p : string) (c : context) :
  path_missing p c \/ path_is_None p c ->
  replace_var p c = (Raise (ExpressionError (UndefinedVariable p)), c).
Proof.
  unfold path_missing, path_is_None, replace_var, ctx_bind, _resolve_variable.
  rewrite resolve_parts_lookup. now intros [-> | ->].
Qed.

Lemma replace_var_raise_inv (q : string) (c : context) :
  replace_var q c = (Raise (ExpressionError (UndefinedVariable q)), c) ->
  path_missing q c \/ path_is_None q c.
Proof.
  unfold path_missing, path_is_None, replace_var, ctx_bind, _resolve_variable.
  rewrite resolve_parts_lookup.
  destruct (lookup_path _ _) as [[]|]; try discriminate; auto.
Qed.

Lemma substitute_undefined (n : nat) (p post : string) (c : context) :
  is_dotted_path p = true ->
  path_missing p c \/ path_is_None p c ->
  forall pre, String.length pre <= n ->
    exists q,
      (path_missing q c \/ path_is_None q c)
      /\ _substitute_variables (pre +:+ reference p +:+ post) c
         = (Raise (ExpressionError (UndefinedVariable q)), c).
Proof.
  intros Hp Hc. induction n as [|n IH]; intros pre Hlen.
  - destruct pre; [|simpl in Hlen; lia]. rewrite append_nil_l.
    exists p. split; [assumption|]. rewrite substitute_eq.
    assert (exists ch rest, reference p +:+ post = String ch rest) as (ch & rest & E)
      by (unfold reference; rewrite !append_assoc; now eexists _, _).
    rewrite E, <- E, match_reference_complete by assumption.
    unfold ctx_bind. now rewrite replace_var_undefined.
  - destruct pre as [|ch pre].
    { apply (IH ""). simpl. lia. }
    simpl in Hlen. rewrite substitute_eq, append_cons.
    destruct (match_reference _) as [[path after]|] eqn:E.
    + rewrite <- append_cons in E. unfold reference in E.
      rewrite !append_assoc in E.
      apply match_before_reference in E as (pre' & -> & Hshort); [|discriminate].
      unfold ctx_bind at 1.
      destruct (replace_var_outcome path c) as [[text Hr]|Hr].
      2:{ exists path. split; [now apply replace_var_raise_inv|]. now rewrite Hr. }
      rewrite Hr.
      destruct (IH pre' ltac:(simpl in Hshort; lia)) as (q & Hq1 & Hq).
      unfold reference in Hq. rewrite !append_assoc in Hq.
      unfold ctx_bind. rewrite Hq. exists q. now split.
    + destruct (IH pre ltac:(lia)) as (q & Hq1 & Hq).
      unfold ctx_bind. rewrite Hq. exists q. now split.
Qed.

(** ** Texts that are not blank *)

Lemma all_chars_append (p : ascii -> bool) (a b : string) :
  Py.all_chars p (a +:+ b) = Py.all_chars p a && Py.all_chars p b.
Proof.
  induction a as [|ch a IH]; [reflexivity|].
  rewrite append_cons. simpl. now rewrite IH, andb_assoc.
Qed.

Lemma strip_empty_blank (s : string) :
  Py.strip s = "" -> Py.all_chars Py.isspace s = true.
Proof.
  unfold Py.strip. intros H.
  destruct (lstrip_split s) as (lead & Hs & Hlead).
  destruct (rstrip_split (Py.lstrip s)) as (trail & Hl & Htrail).
  rewrite H, append_nil_l in Hl. rewrite Hs, Hl, all_chars_append, Hlead, Htrail.
  reflexivity.
Qed.

Lemma not_blank (s : string) :
  Py.all_chars Py.isspace s = false ->
  Py.is_empty s || Py.is_empty (Py.strip s) = false.
Proof.
  intros H. destruct s as [|ch s]; [discriminate|]. simpl.
  destruct (Py.strip (String ch s)) eqn:E; [|reflexivity].
  apply strip_empty_blank in E. congruence.
Qed.

Lemma evaluate_condition_not_blank (e : string) (c : context) :
  Py.all_chars Py.isspace e = false ->
  evaluate_condition e c
  = (substituted <- _substitute_variables e ;;
     ctx_lift (_evaluate_expression (Py.strip substituted))) c.
Proof. intros H. unfold evaluate_condition. now rewrite not_blank. Qed.

Lemma reference_not_blank (pre p post : string) :
  Py.all_chars Py.isspace (pre +:+ reference p +:+ post) = false.
Proof.
  unfold reference. rewrite !all_chars_append. simpl. apply andb_false_r.
Qed.

(** An expression with an undefined reference raises the
    undefined-variable error of a reference of the expression. *)
Theorem evaluate_condition_undefined (pre p post : string) (c : context) :
  is_dotted_path p = true ->
  path_missing p c \/ path_is_None p c ->
  exists q,
    (path_missing q c \/ path_is_None q c)
    /\ evaluate_condition (pre +:+ reference p +:+ post) c
       = (Raise (ExpressionError (UndefinedVariable q)), c).
Proof.
  intros Hp Hc.
  destruct (substitute_undefined (String.length pre) p post c Hp Hc pre (le_n _))
    as (q & Hq1 & Hq).
  exists q. split; [assumption|].
  rewrite evaluate_condition_not_blank by apply reference_not_blank.
  unfold ctx_bind. now rewrite Hq.
Qed.

(** When the reference opens the expression, the error names it. *)
Theorem evaluate_condition_undefined_first (p post : string) (c : context) :
  is_dotted_path p = true ->
  path_missing p c \/ path_is_None p c ->
  evaluate_condition (reference p +:+ post) c
  = (Raise (ExpressionError (UndefinedVariable p)), c).
Proof.
  intros Hp Hc.
  rewrite <- (append_nil_l (reference p +:+ post)).
  rewrite evaluate_condition_not_blank by apply reference_not_blank.
  unfold ctx_bind at 1. rewrite append_nil_l, substitute_eq.
  assert (exists ch rest, reference p +:+ post = String ch rest) as (ch & rest & E)
    by (unfold reference; rewrite !append_assoc; now eexists _, _).
  rewrite E, <- E, match_reference_complete by assumption.
  unfold ctx_bind. now rewrite replace_var_undefined.
Qed.

(** ** Substitution of a text made of two parts *)

Lemma substitute_text (s : string) (c : context) :
  _substitute_variables s c = (substituted_text s c, c).
Proof.
  unfold substituted_text. pose proof (substitute_context s c) as H.
  destruct (_substitute_variables s c) as [o c']. simpl in *. now subst c'.
Qed.

Lemma replace_var_text (p : string) (c : context) :
  replace_var p c = (fst (replace_var p c), c).
Proof.
  pose proof (replace_var_context p c) as H.
  destruct (replace_var p c) as [o c']. simpl in *. now subst c'.
Qed.

Lemma substituted_text_eq (s : string) (c : context) :
  substituted_text s c =
  match s with
  | EmptyString => Return EmptyString
  | String ch rest =>
      match match_reference s with
      | Some (var_path, after) =>
          let* text := fst (replace_var var_path c) in
          let* out := substituted_text after c in
          Return (text +:+ out)
      | None =>
          let* out := substituted_text rest c in
          Return (String ch out)
      end
  end.
Proof.
  unfold substituted_text at 1. rewrite substitute_eq.
  destruct s as [|ch rest]; [reflexivity|].
  destruct (match_reference (String ch rest)) as [[path after]|].
  - unfold ctx_bind. rewrite (replace_var_text path c).
    destruct (fst (replace_var path c)) as [text| |]; try reflexivity.
    rewrite substitute_text. simpl.
    destruct (substituted_text after c); reflexivity.
  - unfold ctx_bind. rewrite substitute_text.
    destruct (substituted_text rest c); reflexivity.
Qed.

Lemma string_app_eq_app (a : string) :
  forall b c d, a +:+ b = c +:+ d ->
    (exists x, a = c +:+ x /\ d = x +:+ b)
    \/ (exists y, y <> "" /\ c = a +:+ y /\ b = y +:+ d).
Proof.
  induction a as [|ch a IH]; intros b c d H.
  - rewrite append_nil_l in H. destruct c as [|ch' c].
    + left. exists "". now rewrite append_nil_l in *.
    + right. exists (String ch' c). repeat split; [discriminate | assumption].
  - destruct c as [|ch' c].
    + left. exists (String ch a). now rewrite append_nil_l in *.
    + rewrite !append_cons in H. injection H as <- H.
      destruct (IH _ _ _ H) as [(x & -> & ->)|(y & Hy & -> & ->)].
      * left. now exists x.
      * right. now exists y.
Qed.

Lemma path_rest_tail (s : string) :
  forall p r, path_rest s = (p, r) -> dotted_tail p = true.
Proof.
  induction s as [|ch s IH]; intros p r; simpl.
  - now intros [= <- <-].
  - destruct (Py.is_word ch) eqn:Hch.
    + destruct (path_rest s) as [p' r'] eqn:E. intros [= <- <-].
      simpl. rewrite Hch. now apply (IH p' r').
    + destruct (Ascii.eqb ch ".") eqn:Hdot; [|now intros [= <- <-]].
      destruct s as [|ch' s']; [now intros [= <- <-]|].
      destruct (Py.is_word ch') eqn:Hch'; [|now intros [= <- <-]].
      destruct (path_rest (String ch' s')) as [p' r'] eqn:E. intros [= <- <-].
      specialize (IH p' r' eq_refl).
      simpl in E. rewrite Hch' in E. destruct (path_rest s') as [p'' r''].
      injection E as <- <-.
      simpl. rewrite Hch, Hdot, Hch'. simpl in IH. now rewrite Hch' in IH.
Qed.

Lemma match_reference_dotted (s path after : string) :
  match_reference s = Some (path, after) -> is_dotted_path path = true.
Proof.
  unfold match_reference.
  destruct s as [|c1 [|c2 [|ch s1]]]; try discriminate.
  - destruct c1 as [[] [] [] [] [] [] [] []]; discriminate.
  - destruct c1 as [[] [] [] [] [] [] [] []]; try discriminate;
      destruct c2 as [[] [] [] [] [] [] [] []]; discriminate.
  - destruct (Ascii.eqb_spec c1 "{") as [->|Hne].
    2:{ destruct c1 as [[] [] [] [] [] [] [] []]; try discriminate. congruence. }
    destruct (Ascii.eqb_spec c2 "{") as [->|Hne].
    2:{ destruct c2 as [[] [] [] [] [] [] [] []]; try discriminate. congruence. }
    destruct (Py.is_word ch) eqn:Hch; [|discriminate].
    destruct (path_rest (String ch s1)) as [p r] eqn:E.
    pose proof (path_rest_tail _ _ _ E) as Htail.
    simpl in E. rewrite Hch in E. destruct (path_rest s1) as [p' r'].
    injection E as <- <-.
    destruct r' as [|r1 [|r2 r]]; try discriminate.
    + destruct r1 as [[] [] [] [] [] [] [] []]; discriminate.
    + destruct (Ascii.eqb_spec r1 "}") as [->|Hne].
      2:{ destruct r1 as [[] [] [] [] [] [] [] []]; try discriminate. congruence. }
      destruct (Ascii.eqb_spec r2 "}") as [->|Hne].
      2:{ destruct r2 as [[] [] [] [] [] [] [] []]; try discriminate. congruence. }
      intros [= <- <-]. unfold is_dotted_path. simpl head_is. now rewrite Hch, Htail.
Qed.

Lemma dotted_tail_chars (p : string) :
  dotted_tail p = true -> Py.all_chars is_reference_char p = true.
Proof.
  induction p as [|ch p IH]; [reflexivity|]. simpl. unfold is_reference_char at 1.
  destruct (Py.is_word ch); [intros H; now rewrite IH|].
  destruct (Ascii.eqb ch "."); [|discriminate].
  destruct p as [|ch' p]; [discriminate|].
  intros H. apply andb_true_iff in H as [_ H]. now rewrite IH.
Qed.

Lemma reference_chars (p : string) :
  is_dotted_path p = true -> Py.all_chars is_reference_char (reference p) = true.
Proof.
  unfold is_dotted_path, reference. intros H. apply andb_true_iff in H as [_ H].
  rewrite !all_chars_append, (dotted_tail_chars _ H). reflexivity.
Qed.

Lemma all_chars_head (p : ascii -> bool) (s : string) :
  s <> "" -> Py.all_chars p s = true -> head_is p s = true.
Proof.
  destruct s as [|ch s]; [congruence|]. simpl. intros _ H.
  now apply andb_true_iff in H as [H _].
Qed.

Lemma match_reference_app (s t : string) :
  breaks_reference t = true ->
  match_reference (s +:+ t)
  = match match_reference s with
    | Some (path, after) => Some (path, after +:+ t)
    | None => None
    end.
Proof.
  intros Ht. destruct (match_reference s) as [[path after]|] eqn:E.
  - pose proof (match_reference_dotted _ _ _ E) as Hp.
    apply match_reference_shape in E as ->.
    replace ("{{" +:+ path +:+ "}}" +:+ after) with (reference path +:+ after)
      by (unfold reference; now rewrite !append_assoc).
    rewrite append_assoc. now apply match_reference_complete.
  - destruct (match_reference (s +:+ t)) as [[path after]|] eqn:E'; [|reflexivity].
    pose proof (match_reference_dotted _ _ _ E') as Hp.
    apply match_reference_shape in E'.
    replace ("{{" +:+ path +:+ "}}" +:+ after) with (reference path +:+ after) in E'
      by (unfold reference; now rewrite !append_assoc).
    apply string_app_eq_app in E' as [(x & -> & ->)|(y & Hy & Href & ->)].
    + rewrite match_reference_complete in E by assumption. discriminate.
    + pose proof (reference_chars _ Hp) as Hchars.
      rewrite Href, all_chars_append in Hchars.
      apply andb_true_iff in Hchars as [_ Hy'].
      apply all_chars_head in Hy'; [|assumption].
      unfold breaks_reference in Ht. apply negb_true_iff in Ht.
      destruct y as [|ch y]; [congruence|]. rewrite append_cons in Ht.
      simpl in Ht, Hy'. congruence.
Qed.

(** Substitution works on the two parts of a text apart when the second
    part cannot continue a reference. *)
Theorem substituted_text_app (t : string) (c : context) :
  breaks_reference t = true ->
  forall s,
    substituted_text (s +:+ t) c
    = let* a := substituted_text s c in
      let* b := substituted_text t c in
      Return (a +:+ b).
Proof.
  intros Ht s. remember (String.length s) as n eqn:Hn.
  revert s Hn. induction n as [n IH] using lt_wf_ind. intros s ->.
  destruct s as [|ch rest].
  - rewrite append_nil_l, (substituted_text_eq ""). simpl.
    now destruct (substituted_text t c).
  - rewrite (substituted_text_eq (String ch rest +:+ t)).
    rewrite (substituted_text_eq (String ch rest)).
    rewrite match_reference_app by assumption. rewrite append_cons.
    destruct (match_reference (String ch rest)) as [[path after]|] eqn:E.
    + apply match_reference_shorter in E.
      destruct (fst (replace_var path c)) as [text| |]; try reflexivity. simpl.
      rewrite (IH _ E after eq_refl).
      destruct (substituted_text after c) as [a| |]; try reflexivity. simpl.
      destruct (substituted_text t c) as [b| |]; try reflexivity. simpl.
      now rewrite append_assoc.
    + rewrite (IH (String.length rest) ltac:(simpl; lia) rest eq_refl).
      destruct (substituted_text rest c) as [a| |]; try reflexivity. simpl.
      destruct (substituted_text t c) as [b| |]; reflexivity.
Qed.

(** A text without an opening brace is left as it is. *)
Lemma substituted_text_plain (s : string) (c : context) :
  Py.contains_char "{" s = false -> substituted_text s c = Return s.
Proof.
  induction s as [|ch s IH]; intros H; [reflexivity|].
  rewrite substituted_text_eq. simpl in H. apply orb_false_iff in H as [Hch Hs].
  destruct (match_reference (String ch s)) as [[path after]|] eqn:E.
  - apply match_reference_shape in E. injection E as -> _. discriminate.
  - now rewrite IH.
Qed.

(** ** The texts of atoms *)

Lemma closes_quote_split (q : ascii) (rest : string) :
  closes_quote q rest = true ->
  exists body, rest = body +:+ String q "" /\ Py.contains_char q body = false.
Proof.
  induction rest as [|ch rest IH]; [discriminate|].
  destruct rest as [|ch' rest].
  - simpl. intros H. apply Ascii.eqb_eq in H as ->. now exists "".
  - intros H. cbn [closes_quote] in H. apply andb_true_iff in H as [Hne H].
    destruct (IH H) as (body & Hbody & Hno). rewrite Hbody.
    exists (String ch body). split; [reflexivity|].
    simpl. apply negb_true_iff in Hne. now rewrite eqb_sym, Hne.
Qed.

Lemma literal_text_split (a : string) :
  is_literal_text a = true ->
  exists q body, a = String q (body +:+ String q "")
                 /\ is_quote q = true /\ Py.contains_char q body = false.
Proof.
  destruct a as [|q rest]; [discriminate|]. simpl. intros H.
  apply andb_true_iff in H as [Hq H].
  destruct (closes_quote_split _ _ H) as (body & -> & Hno). now exists q, body.
Qed.

Lemma Scan_literal (a r : string) :
  is_literal_text a = true -> Scan a [a] r.
Proof.
  intros H. destruct (literal_text_split _ H) as (q & body & -> & Hq & Hno).
  apply (Scan_quote q body "" [] r Hq Hno). constructor.
Qed.

Lemma Scan_word_text (a r : string) :
  is_word_text a = true -> head_is is_word_char r = false -> Scan a [a] r.
Proof.
  unfold is_word_text. intros H Hr. apply andb_true_iff in H as [Hne Hall].
  rewrite <- (append_nil_r a) at 1. apply Scan_word; try assumption.
  - now destruct a.
  - constructor.
Qed.

Lemma last_is_append (p : ascii -> bool) (x y : string) :
  y <> "" -> last_is p (x +:+ y) = last_is p y.
Proof.
  intros Hy. induction x as [|ch x IH]; [reflexivity|].
  rewrite append_cons. cbn [last_is]. rewrite IH.
  destruct (x +:+ y) eqn:E; [|reflexivity].
  destruct x; [rewrite append_nil_l in E; congruence | discriminate].
Qed.

Lemma all_chars_last (p : ascii -> bool) (s : string) :
  s <> "" -> Py.all_chars p s = true -> last_is p s = true.
Proof.
  induction s as [|ch s IH]; [congruence|]. intros _ H. simpl in H.
  apply andb_true_iff in H as [Hch Hs]. destruct s as [|ch' s]; [exact Hch|].
  cbn [last_is]. apply IH; [discriminate | assumption].
Qed.

Lemma all_chars_impl (p q : ascii -> bool) (s : string) :
  (forall ch, p ch = true -> q ch = true) ->
  Py.all_chars p s = true -> Py.all_chars q s = true.
Proof.
  intros Hpq. induction s as [|ch s IH]; [reflexivity|]. simpl. intros H.
  apply andb_true_iff in H as [Hch Hs]. now rewrite (Hpq _ Hch), IH.
Qed.

Lemma word_char_not_space (ch : ascii) : is_word_char ch = true -> not_space ch = true.
Proof.
  intros H. unfold not_space. now destruct (word_char_class ch H) as [-> _].
Qed.

Lemma quote_not_space (q : ascii) : is_quote q = true -> not_space q = true.
Proof. intros H. apply is_quote_inv in H as [-> | ->]; reflexivity. Qed.

(** An atom starts with a quote or a word character, and ends with one:
    no white space at either end, and no equals sign at the start. *)
Lemma atom_text_ends (a : string) :
  is_atom_text a = true ->
  head_is not_space a = true /\ last_is not_space a = true
  /\ head_is (Ascii.eqb "=") a = false /\ a <> "".
Proof.
  unfold is_atom_text. intros H. apply orb_true_iff in H as [H|H].
  - destruct (literal_text_split _ H) as (q & body & -> & Hq & _).
    repeat split.
    + simpl. now apply quote_not_space.
    + change (String q (body +:+ String q "")) with (String q body +:+ String q "").
      rewrite last_is_append by discriminate. simpl. now apply quote_not_space.
    + simpl. apply is_quote_inv in Hq as [-> | ->]; reflexivity.
    + discriminate.
  - apply andb_true_iff in H as [H _]. unfold is_word_text in H.
    apply andb_true_iff in H as [Hne Hall].
    assert (a <> "") as Ha by now destruct a.
    repeat split; try assumption.
    + apply all_chars_head; [assumption|].
      eapply all_chars_impl; [apply word_char_not_space | assumption].
    + apply all_chars_last; [assumption|].
      eapply all_chars_impl; [apply word_char_not_space | assumption].
    + destruct a as [|ch a]; [congruence|]. cbn [head_is]. cbn [Py.all_chars] in Hall.
      apply andb_true_iff in Hall as [Hch _].
      destruct (word_char_class ch Hch) as (_ & _ & _ & Hop).
      unfold op_start in Hop. apply orb_false_iff in Hop as [Hop _].
      apply orb_false_iff in Hop as [Hop _]. now rewrite eqb_sym.
Qed.

Lemma Scan_atom (a r : string) :
  is_atom_text a = true -> head_is is_word_char r = false -> Scan a [a] r.
Proof.
  unfold is_atom_text. intros H Hr. apply orb_true_iff in H as [H|H].
  - now apply Scan_literal.
  - apply andb_true_iff in H as [H _]. now apply Scan_word_text.
Qed.

Lemma startswith_cons (ch : ascii) (s : string) (q : ascii) :
  Py.startswith (String ch s) (String q "") = Ascii.eqb q ch.
Proof.
  unfold Py.startswith. simpl. destruct (ascii_dec q ch) as [->|Hne].
  - rewrite Ascii.eqb_refl. now destruct s.
  - apply Ascii.eqb_neq in Hne. now rewrite Hne.
Qed.

Lemma endswith_snoc (x : string) (q : ascii) :
  Py.endswith (x +:+ String q "") (String q "") = true.
Proof.
  unfold Py.endswith, Py.slice. rewrite length_append. simpl.
  replace (String.length x + 1 - 1) with (String.length x) by lia.
  replace (String.length x + 1 - String.length x) with 1 by lia.
  rewrite substring_append_r.
  change (substring 0 1 (String q "")) with (String q ""). rewrite String.eqb_refl.
  now rewrite Nat.add_1_r.
Qed.

Lemma literal_is_string_literal (a : string) :
  is_literal_text a = true -> _Parser.is_string_literal a = true.
Proof.
  intros H. destruct (literal_text_split _ H) as (q & body & -> & Hq & _).
  unfold _Parser.is_string_literal.
  change (String q (body +:+ String q "")) with (String q body +:+ String q "").
  apply is_quote_inv in Hq as [-> | ->].
  - rewrite endswith_snoc. rewrite append_cons, startswith_cons. reflexivity.
  - rewrite endswith_snoc. rewrite append_cons, !startswith_cons. reflexivity.
Qed.

Lemma word_text_not_in (a : string) (items : list string) :
  Py.all_chars is_word_char a = true ->
  forallb (fun item => negb (Py.all_chars is_word_char item)) items = true ->
  Py.in_tuple a items = false.
Proof.
  intros Ha. induction items as [|item items IH]; [reflexivity|].
  simpl. intros H. apply andb_true_iff in H as [Hitem Hitems].
  rewrite (IH Hitems), orb_false_r. apply String.eqb_neq. intros ->.
  rewrite Ha in Hitem. discriminate.
Qed.

Lemma atom_text_value_token (a : string) :
  is_atom_text a = true -> is_value_token a = true.
Proof.
  unfold is_atom_text, is_value_token. intros H. apply orb_true_iff in H as [H|H].
  - rewrite (literal_is_string_literal _ H). simpl. rewrite andb_true_r.
    destruct (literal_text_split _ H) as (q & body & -> & Hq & _).
    apply negb_true_iff, String.eqb_neq. intros E. injection E as -> _.
    discriminate.
  - apply andb_true_iff in H as [Hw Hk]. unfold is_word_text in Hw.
    apply andb_true_iff in Hw as [_ Hall]. rewrite Hk.
    rewrite (word_text_not_in a [")"; "=="; "!="; "<"; ">"; ">="; "<="] Hall eq_refl).
    cbn [negb andb]. rewrite orb_true_r, andb_true_r.
    apply negb_true_iff, String.eqb_neq. intros ->. discriminate.
Qed.

Lemma head_is_spaces_append (p : ascii -> bool) (w x : string) :
  (forall ch, Py.isspace ch = true -> p ch = false) ->
  Py.all_chars Py.isspace w = true -> head_is p x = false ->
  head_is p (w +:+ x) = false.
Proof.
  intros Hp Hw Hx. destruct w as [|ch w]; [exact Hx|].
  rewrite append_cons. simpl in *. apply andb_true_iff in Hw as [Hch _]. auto.
Qed.

Lemma space_not_word_char (ch : ascii) : Py.isspace ch = true -> is_word_char ch = false.
Proof. intros H. now apply space_not_word in H as [? _]. Qed.

Lemma space_not_equals (ch : ascii) : Py.isspace ch = true -> Ascii.eqb "=" ch = false.
Proof. intros H. now apply space_not_word in H as [_ ?]. Qed.

Lemma Scan_operator (o : operator) (r : string) :
  head_is (Ascii.eqb "=") r = false -> Scan (operator_text o) [operator_text o] r.
Proof.
  intros Hr. destruct o; cbn [operator_text];
    match goal with
    | |- Scan ?t _ _ =>
        first [ apply (Scan_op2 t "" [] r); [reflexivity | constructor]
              | apply Scan_angle; [reflexivity | exact Hr | constructor] ]
    end.
Qed.

Lemma operator_not_word (o : operator) (x : string) :
  head_is is_word_char (operator_text o +:+ x) = false.
Proof. destruct o; reflexivity. Qed.

(** ** Evaluation of a text that is one atom, or one comparison of atoms *)

Theorem evaluate_expression_atom (w0 a w3 : string) :
  Py.all_chars Py.isspace w0 = true -> Py.all_chars Py.isspace w3 = true ->
  is_atom_text a = true ->
  _evaluate_expression (w0 +:+ a +:+ w3) = Return (_is_truthy (strip_quotes a)).
Proof.
  intros H0 H3 Ha. destruct (atom_text_ends _ Ha) as (Hh & Hl & _ & Hne).
  unfold _evaluate_expression. rewrite strip_core by assumption.
  destruct a as [|ch a]; [congruence|]. cbn [Py.is_empty].
  rewrite (Scan_tokenize _ [String ch a]) by (apply Scan_atom; [assumption | reflexivity]).
  simpl. apply parse_bare_atom. now apply atom_text_value_token.
Qed.

Theorem evaluate_expression_comparison (w0 a w1 : string) (o : operator)
    (w2 b w3 : string) :
  Py.all_chars Py.isspace w0 = true -> Py.all_chars Py.isspace w1 = true ->
  Py.all_chars Py.isspace w2 = true -> Py.all_chars Py.isspace w3 = true ->
  is_atom_text a = true -> is_atom_text b = true ->
  _evaluate_expression (w0 +:+ (a +:+ w1 +:+ operator_text o +:+ w2 +:+ b) +:+ w3)
  = Return (comparison_value o a b).
Proof.
  intros H0 H1 H2 H3 Ha Hb.
  destruct (atom_text_ends _ Ha) as (Hah & _ & _ & Hane).
  destruct (atom_text_ends _ Hb) as (_ & Hbl & Hbe & Hbne).
  set (core := a +:+ w1 +:+ operator_text o +:+ w2 +:+ b).
  assert (head_is not_space core = true) as Hh.
  { subst core. destruct a as [|ch a]; [congruence|]. exact Hah. }
  assert (last_is not_space core = true) as Hl.
  { subst core. rewrite <- !append_assoc. now rewrite last_is_append. }
  assert (Scan core [a; operator_text o; b] "") as Hscan.
  { subst core.
    set (r3 := w2 +:+ b). set (r2 := operator_text o +:+ r3). set (r1 := w1 +:+ r2).
    apply (Scan_trans a [a] r1 [operator_text o; b] "" r1);
      [|symmetry; apply append_nil_r|].
    { apply Scan_atom; [assumption|].
      apply head_is_spaces_append;
        [apply space_not_word_char | assumption | apply operator_not_word]. }
    apply (Scan_trans w1 [] r2 [operator_text o; b] "" r2);
      [now apply Scan_spaces | symmetry; apply append_nil_r |].
    apply (Scan_trans (operator_text o) [operator_text o] r3 [b] "" r3);
      [|symmetry; apply append_nil_r|].
    { apply Scan_operator.
      apply head_is_spaces_append; [apply space_not_equals | assumption | assumption]. }
    apply (Scan_trans w2 [] b [b] "" b);
      [now apply Scan_spaces | symmetry; apply append_nil_r |].
    apply Scan_atom; [assumption | reflexivity]. }
  unfold _evaluate_expression. rewrite strip_core by assumption.
  assert (Py.is_empty core = false) as ->.
  { subst core. destruct a; [congruence | reflexivity]. }
  rewrite (Scan_tokenize _ _ Hscan). simpl.
  apply parse_binary_comparison; now apply atom_text_value_token.
Qed.

(** ** Parenthesised operands, on the text *)

Lemma match_reference_head (ch : ascii) (s : string) :
  ch <> "{"%char -> match_reference (String ch s) = None.
Proof.
  intros Hne. destruct (match_reference (String ch s)) as [[path after]|] eqn:E;
    [|reflexivity].
  apply match_reference_shape in E. injection E as -> _. congruence.
Qed.

Lemma substituted_text_prefix (x y : string) (c : context) :
  Py.contains_char "{" x = false ->
  substituted_text (x +:+ y) c
  = let* b := substituted_text y c in Return (x +:+ b).
Proof.
  induction x as [|ch x IH]; intros H.
  - rewrite append_nil_l. now destruct (substituted_text y c).
  - simpl in H. apply orb_false_iff in H as [Hch Hx].
    rewrite append_cons, substituted_text_eq, match_reference_head.
    2:{ intros ->. discriminate. }
    rewrite (IH Hx). now destruct (substituted_text y c).
Qed.

Lemma evaluate_condition_text (e s : string) (c : context) :
  Py.all_chars Py.isspace e = false ->
  substituted_text e c = Return s ->
  evaluate_condition e c = (_evaluate_expression (Py.strip s), c).
Proof.
  intros He Hs. rewrite evaluate_condition_not_blank by assumption.
  unfold ctx_bind. now rewrite substitute_text, Hs.
Qed.

Lemma evaluate_expression_tokens (s : string) (ts : list string) :
  head_is not_space s = true -> last_is not_space s = true ->
  Scan s ts "" ->
  _evaluate_expression (Py.strip s) = _Parser.parse ts.
Proof.
  intros Hh Hl Hscan.
  assert (Py.strip s = s) as Hstrip.
  { rewrite <- (append_nil_r s) at 1. rewrite <- (append_nil_l (s +:+ "")).
    now apply strip_core. }
  unfold _evaluate_expression. rewrite !Hstrip.
  destruct s as [|ch s]; [discriminate|]. cbn [Py.is_empty].
  now rewrite (Scan_tokenize _ _ Hscan).
Qed.

Lemma valid_subexpression_Scan (p : string) (c : context) (b : bool) :
  valid_subexpression p c b ->
  exists s ts, substituted_text p c = Return s /\ Scan s ts ""
               /\ _Parser.parse ts = Return b.
Proof.
  intros (s & ts & Hs & Htok & Hparse). exists s, ts. repeat split; try assumption.
  now apply Scan_strip, tokenize_Scan.
Qed.

Lemma blank_has_no_brace (p : string) :
  Py.all_chars Py.isspace p = true -> Py.contains_char "{" p = false.
Proof.
  induction p as [|ch p IH]; [reflexivity|]. cbn [Py.all_chars Py.contains_char].
  intros H. apply andb_true_iff in H as [Hch Hp]. rewrite (IH Hp), orb_false_r.
  destruct (Ascii.eqb "{" ch) eqn:E; [|reflexivity].
  apply Ascii.eqb_eq in E as <-. discriminate.
Qed.

Lemma lstrip_head_not_space (s : string) :
  Py.lstrip s <> "" -> head_is not_space (Py.lstrip s) = true.
Proof.
  induction s as [|ch s IH]; [simpl; congruence|]. simpl.
  destruct (Py.isspace ch) eqn:E; [exact IH|]. intros _.
  unfold not_space. simpl. now rewrite E.
Qed.

Lemma rstrip_head (p : ascii -> bool) (t : string) :
  Py.rstrip t <> "" -> head_is p (Py.rstrip t) = head_is p t.
Proof.
  destruct t as [|ch t]; [reflexivity|]. simpl.
  destruct (Py.rstrip t); [|reflexivity].
  destruct (Py.isspace ch); [congruence | reflexivity].
Qed.

Lemma rstrip_last_not_space (t : string) :
  Py.rstrip t <> "" -> last_is not_space (Py.rstrip t) = true.
Proof.
  induction t as [|ch t IH]; [simpl; congruence|]. simpl.
  destruct (Py.rstrip t) as [|c2 r] eqn:Er.
  - destruct (Py.isspace ch) eqn:E; [congruence|]. intros _.
    unfold not_space. simpl. now rewrite E.
  - intros _. cbn [last_is]. apply IH. discriminate.
Qed.

Lemma strip_idempotent (s : string) : Py.strip (Py.strip s) = Py.strip s.
Proof.
  destruct (Py.strip s) as [|ch x] eqn:E; [reflexivity|]. rewrite <- E.
  assert (Py.strip s <> "") as Hne by (rewrite E; discriminate).
  rewrite <- (append_nil_r (Py.strip s)) at 1.
  rewrite <- (append_nil_l (Py.strip s +:+ "")).
  unfold Py.strip in *. apply strip_core; try reflexivity.
  - rewrite rstrip_head by assumption. apply lstrip_head_not_space.
    intros El. rewrite El in Hne. now apply Hne.
  - now apply rstrip_last_not_space.
Qed.

(** A valid sub-expression evaluates to its value. *)
Theorem valid_subexpression_evaluates (p : string) (c : context) (b : bool) :
  valid_subexpression p c b -> evaluate_condition p c = (Return b, c).
Proof.
  intros (s & ts & Hs & Htok & Hparse).
  assert (Py.strip s <> "") as Hne.
  { intros E. rewrite E in Htok. injection Htok as <-. discriminate. }
  assert (Py.all_chars Py.isspace p = false) as Hp.
  { destruct (Py.all_chars Py.isspace p) eqn:E; [|reflexivity].
    rewrite (substituted_text_plain _ _ (blank_has_no_brace _ E)) in Hs.
    injection Hs as <-. now rewrite (strip_blank _ E) in Hne. }
  rewrite (evaluate_condition_text _ _ _ Hp Hs).
  unfold _evaluate_expression. rewrite strip_idempotent, Htok.
  destruct (Py.strip s) as [|ch x]; [congruence|]. simpl. now rewrite Hparse.
Qed.

Lemma Scan_close_eq_true : Scan close_eq_true [")"; "=="; "'true'"] "".
Proof.
  unfold close_eq_true.
  apply (Scan_paren ")" _ _ "" eq_refl).
  apply (Scan_space " " _ _ "" eq_refl).
  apply (Scan_op2 "==" " 'true'" ["'true'"] "" eq_refl).
  apply (Scan_space " " _ _ "" eq_refl).
  apply (Scan_quote "'" "true" "" [] "" eq_refl eq_refl).
  constructor.
Qed.

(** [(p) == 'true'] evaluates to what [p] evaluates to. *)
Theorem evaluate_paren_eq_true (p : string) (c : context) (b : bool) :
  valid_subexpression p c b ->
  evaluate_condition ("(" +:+ p +:+ ") == 'true'") c = (Return b, c).
Proof.
  intros Hv. destruct (valid_subexpression_Scan _ _ _ Hv) as (s & ts & Hs & Hscan & Hparse).
  fold close_eq_true.
  rewrite (evaluate_condition_text _ ("(" +:+ s +:+ close_eq_true)).
  - rewrite (evaluate_expression_tokens _ ("(" :: ts ++ [")"; "=="; "'true'"])).
    + f_equal. now apply parse_paren_eq_true.
    + reflexivity.
    + rewrite <- append_assoc. now rewrite last_is_append.
    + apply (Scan_paren "(" _ _ "" eq_refl).
      apply (Scan_trans s ts close_eq_true _ "" close_eq_true);
        [|symmetry; apply append_nil_r | apply Scan_close_eq_true].
      now apply Scan_extend.
  - reflexivity.
  - rewrite (substituted_text_prefix "(") by reflexivity.
    rewrite substituted_text_app by reflexivity.
    rewrite Hs, (substituted_text_plain close_eq_true) by reflexivity. reflexivity.
Qed.

Lemma operator_has_no_brace (o : operator) :
  Py.contains_char "{" (operator_text o) = false.
Proof. destruct o; reflexivity. Qed.

Lemma contains_char_append (ch : ascii) (a b : string) :
  Py.contains_char ch (a +:+ b) = Py.contains_char ch a || Py.contains_char ch b.
Proof.
  induction a as [|c a IH]; [reflexivity|].
  rewrite append_cons. cbn [Py.contains_char]. now rewrite IH, orb_assoc.
Qed.

(** [(p) op (q)] compares the texts of the two values. *)
Theorem evaluate_paren_compare (p q : string) (o : operator) (c : context)
    (bp bq : bool) :
  valid_subexpression p c bp -> valid_subexpression q c bq ->
  evaluate_condition ("(" +:+ p +:+ ") " +:+ operator_text o +:+ " (" +:+ q +:+ ")") c
  = (Return (compare_texts o (bool_text bp) (bool_text bq)), c).
Proof.
  intros Hp Hq.
  destruct (valid_subexpression_Scan _ _ _ Hp) as (sp & tp & Hsp & Hscanp & Hparsep).
  destruct (valid_subexpression_Scan _ _ _ Hq) as (sq & tq & Hsq & Hscanq & Hparseq).
  set (mid := ") " +:+ operator_text o +:+ " (").
  assert (Py.contains_char "{" mid = false) as Hmid.
  { subst mid. rewrite !contains_char_append, operator_has_no_brace. reflexivity. }
  replace ("(" +:+ p +:+ ") " +:+ operator_text o +:+ " (" +:+ q +:+ ")")
    with ("(" +:+ p +:+ mid +:+ q +:+ ")")
    by (subst mid; now rewrite !append_assoc).
  rewrite (evaluate_condition_text _ ("(" +:+ sp +:+ mid +:+ sq +:+ ")")).
  - rewrite (evaluate_expression_tokens _
               ("(" :: tp ++ ")" :: operator_text o :: "(" :: tq ++ [")"])).
    + f_equal. now apply parse_paren_compare.
    + reflexivity.
    + rewrite <- !append_assoc. now rewrite last_is_append.
    + apply (Scan_paren "(" _ _ "" eq_refl).
      set (r1 := mid +:+ sq +:+ ")").
      apply (Scan_trans sp tp r1 _ "" r1); [|symmetry; apply append_nil_r|].
      { apply Scan_extend; [assumption | reflexivity | reflexivity]. }
      subst r1 mid. rewrite !append_assoc.
      apply (Scan_paren ")" _ _ "" eq_refl).
      apply (Scan_space " " _ _ "" eq_refl).
      set (r2 := " (" +:+ sq +:+ ")").
      apply (Scan_trans (operator_text o) [operator_text o] r2 _ "" r2);
        [|symmetry; apply append_nil_r|].
      { now apply Scan_operator. }
      subst r2.
      apply (Scan_space " " _ _ "" eq_refl).
      apply (Scan_paren "(" _ _ "" eq_refl).
      apply (Scan_trans sq tq ")" [")"] "" ")"); [|reflexivity|].
      { apply Scan_extend; [assumption | reflexivity | reflexivity]. }
      apply (Scan_paren ")" _ _ "" eq_refl). constructor.
  - reflexivity.
  - rewrite (substituted_text_prefix "(") by reflexivity.
    rewrite substituted_text_app by reflexivity. rewrite Hsp. cbn [out_bind].
    rewrite (substituted_text_prefix mid) by assumption.
    rewrite substituted_text_app by reflexivity. rewrite Hsq. cbn [out_bind].
    rewrite (substituted_text_plain ")") by reflexivity. reflexivity.
Qed.

Import ModelResolver.

(** ** The order of strings *)

Lemma leb_refl (s : string) : String.leb s s = true.
Proof.
  apply Is_true_true. change (String.le s s). reflexivity.
Qed.

Lemma leb_trans (a b c : string) :
  String.leb a b = true -> String.leb b c = true -> String.leb a c = true.
Proof.
  intros H1 H2. apply Is_true_true. change (String.le a c).
  transitivity b; [change (Is_true (String.leb a b)) | change (Is_true (String.leb b c))];
    now apply Is_true_true.
Qed.

Lemma leb_false_flip (a b : string) :
  String.leb a b = false -> String.leb b a = true.
Proof.
  intros H. destruct (String.leb_total a b) as [H'|H']; [congruence | assumption].
Qed.

(** ** Sorting in reverse *)

Lemma insert_descending_In (x y : string) (l : list string) :
  In y (insert_descending x l) <-> y = x \/ In y l.
Proof.
  induction l as [|h l IH]; simpl.
  - intuition.
  - destruct (String.leb h x); simpl; [intuition|]. rewrite IH. intuition.
Qed.

Lemma sort_reverse_In (y : string) (l : list string) :
  In y (sort_reverse l) <-> In y l.
Proof.
  induction l as [|x l IH]; simpl; [reflexivity|].
  rewrite insert_descending_In, IH. intuition.
Qed.

Lemma insert_descending_max (x : string) (l : list string) :
  head_is_max l -> head_is_max (insert_descending x l).
Proof.
  destruct l as [|h l]; simpl.
  - intros _ y [->|[]]. apply leb_refl.
  - intros Hmax. destruct (String.leb h x) eqn:E; simpl.
    + intros y [->|Hy]; [apply leb_refl|].
      apply leb_trans with h; [now apply Hmax | assumption].
    + intros y [->|Hy]; [apply leb_refl|].
      apply insert_descending_In in Hy as [->|Hy].
      * now apply leb_false_flip.
      * apply Hmax. now right.
Qed.

Lemma sort_reverse_max (l : list string) : head_is_max (sort_reverse l).
Proof.
  induction l as [|x l IH]; [exact I|]. simpl. now apply insert_descending_max.
Qed.

Lemma sort_reverse_head (l : list string) (h : string) (t : list string) :
  sort_reverse l = h :: t ->
  In h l /\ forall m, In m l -> String.leb m h = true.
Proof.
  intros E. split.
  - apply sort_reverse_In. rewrite E. now left.
  - intros m Hm. pose proof (sort_reverse_max l) as Hmax. rewrite E in Hmax.
    apply Hmax. rewrite <- E. now apply sort_reverse_In.
Qed.

Lemma sort_reverse_nil (l : list string) : sort_reverse l = [] -> l = [].
Proof.
  destruct l as [|x l]; [reflexivity|]. intros E.
  assert (In x (sort_reverse (x :: l))) as H by (apply sort_reverse_In; now left).
  rewrite E in H. destruct H.
Qed.

(** ** [resolve_model_pattern] *)

Section ResolveFacts.

Variable fnmatch : string -> string -> bool.
Variables (model_hint : string) (coord : coordinator).

Lemma resolve_not_a_pattern (provider_name : option string) :
  is_glob_pattern model_hint = false ->
  resolved_model (resolve_model_pattern fnmatch model_hint provider_name coord)
  = model_hint.
Proof. intros H. unfold resolve_model_pattern. now rewrite H. Qed.

Lemma resolve_no_provider (provider_name : option string) :
  provider_name = None \/ provider_name = Some "" ->
  resolved_model (resolve_model_pattern fnmatch model_hint provider_name coord)
  = model_hint.
Proof.
  intros [-> | ->]; unfold resolve_model_pattern;
    destruct (negb (is_glob_pattern model_hint)); reflexivity.
Qed.

Lemma resolve_no_models (name : string) :
  query_available_models name coord = [] ->
  resolved_model (resolve_model_pattern fnmatch model_hint (Some name) coord)
  = model_hint.
Proof.
  intros H. unfold resolve_model_pattern.
  destruct (negb (is_glob_pattern model_hint)); [reflexivity|].
  destruct name; [reflexivity|]. now rewrite H.
Qed.

Lemma resolve_no_match (name : string) :
  fnmatch_filter fnmatch (query_available_models name coord) model_hint = [] ->
  resolved_model (resolve_model_pattern fnmatch model_hint (Some name) coord)
  = model_hint.
Proof.
  intros H. unfold resolve_model_pattern.
  destruct (negb (is_glob_pattern model_hint)); [reflexivity|].
  destruct name; [reflexivity|].
  destruct (query_available_models _ coord); [reflexivity|]. now rewrite H.
Qed.

Lemma resolve_last_match (name : string) :
  is_glob_pattern model_hint = true -> name <> "" ->
  let matched := fnmatch_filter fnmatch (query_available_models name coord) model_hint in
  matched <> [] ->
  let resolved :=
    resolved_model (resolve_model_pattern fnmatch model_hint (Some name) coord) in
  In resolved matched /\ forall m, In m matched -> String.leb m resolved = true.
Proof.
  intros Hglob Hname. cbv zeta. intros Hne.
  unfold resolve_model_pattern. rewrite Hglob. simpl negb. cbv iota.
  destruct name as [|ch name]; [congruence|].
  destruct (query_available_models (String ch name) coord) as [|a l] eqn:Ea.
  { now contradiction Hne. }
  destruct (fnmatch_filter fnmatch (a :: l) model_hint) as [|m0 ms] eqn:Em;
    [congruence|].
  destruct (sort_reverse (m0 :: ms)) as [|h t] eqn:Es.
  { apply sort_reverse_nil in Es. discriminate. }
  simpl. now apply sort_reverse_head in Es.
Qed.

End ResolveFacts.

(** ** Evaluation always ends with a result *)

Lemma evaluate_expression_terminates (s : string) : has_fuel (_evaluate_expression s).
Proof.
  unfold _evaluate_expression. destruct (Py.is_empty _); [discriminate|].
  pose proof (tokenize_terminates (Py.strip s)) as Ht.
  destruct (_tokenize (Py.strip s)) as [ts| |]; simpl;
    [apply parse_terminates | discriminate | contradiction].
Qed.

Theorem evaluate_condition_terminates (e : string) (c : context) :
  has_fuel (fst (evaluate_condition e c)).
Proof.
  unfold evaluate_condition. destruct (_ || _); [discriminate|].
  unfold ctx_bind.
  destruct (substitute_outcome (String.length e) e c (le_n _)) as [[s Hs]|[q Hq]].
  - rewrite Hs. simpl. apply evaluate_expression_terminates.
  - rewrite Hq. discriminate.
Qed.

(** ** Evaluation, from the substituted text *)

Lemma evaluate_expression_strip (s : string) :
  _evaluate_expression (Py.strip s) = _evaluate_expression s.
Proof. unfold _evaluate_expression. now rewrite strip_idempotent. Qed.

Lemma evaluate_condition_substituted (e s : string) (c : context) :
  substituted_text e c = Return s ->
  Py.all_chars Py.isspace s = false ->
  evaluate_condition e c = (_evaluate_expression s, c).
Proof.
  intros Hs Hblank. rewrite <- evaluate_expression_strip.
  apply evaluate_condition_text; [|assumption].
  destruct (Py.all_chars Py.isspace e) eqn:E; [|reflexivity].
  rewrite (substituted_text_plain _ _ (blank_has_no_brace _ E)) in Hs.
  injection Hs as <-. congruence.
Qed.

Lemma head_not_space_not_blank (s : string) :
  head_is not_space s = true -> Py.all_chars Py.isspace s = false.
Proof.
  destruct s as [|ch s]; [discriminate|]. unfold not_space. simpl.
  now destruct (Py.isspace ch).
Qed.

Lemma spaces_core_not_blank (w0 core w3 : string) :
  head_is not_space core = true ->
  Py.all_chars Py.isspace (w0 +:+ core +:+ w3) = false.
Proof.
  intros H. rewrite !all_chars_append, (head_not_space_not_blank _ H).
  now rewrite andb_false_r.
Qed.

(** ** What stripping the quotes of an atom leaves *)

Lemma slice_1_m1_literal (q : ascii) (body : string) :
  Py.slice_1_m1 (String q (body +:+ String q "")) = body.
Proof.
  unfold Py.slice_1_m1, Py.slice. simpl String.length. rewrite length_append.
  simpl String.length.
  replace (S (String.length body + 1) - 1 - 1) with (String.length body) by lia.
  simpl substring. apply substring_0_append.
Qed.

Lemma strip_quotes_literal (a : string) :
  is_literal_text a = true ->
  exists q body, a = String q (body +:+ String q "") /\ strip_quotes a = body.
Proof.
  intros H. pose proof (literal_is_string_literal _ H) as Hlit.
  destruct (literal_text_split _ H) as (q & body & -> & Hq & _).
  exists q, body. split; [reflexivity|].
  unfold strip_quotes. unfold _Parser.is_string_literal in Hlit. rewrite Hlit.
  apply slice_1_m1_literal.
Qed.

Lemma strip_quotes_word (a : string) :
  is_word_text a = true -> strip_quotes a = a.
Proof.
  unfold is_word_text. intros H. apply andb_true_iff in H as [Hne Hall].
  destruct a as [|ch a]; [discriminate|]. cbn [Py.all_chars] in Hall.
  apply andb_true_iff in Hall as [Hch _].
  destruct (word_char_class ch Hch) as (_ & Hq & _).
  unfold strip_quotes. rewrite !startswith_cons.
  unfold is_quote in Hq. apply orb_false_iff in Hq as [H1 H2].
  now rewrite (eqb_sym "'" ch), (eqb_sym double_quote ch), H1, H2.
Qed.

(** ** The quotes the code strips are the quotes of the specification *)

Lemma without_last_snoc (body : string) (l : ascii) :
  without_last (body +:+ String l "") = body.
Proof.
  induction body as [|ch body IH]; [reflexivity|]. rewrite append_cons.
  cbn [without_last]. rewrite IH.
  destruct body; [rewrite append_nil_l | rewrite append_cons]; reflexivity.
Qed.

Lemma snoc_split (a : string) :
  a <> "" -> exists x l, a = x +:+ String l "".
Proof.
  induction a as [|ch a IH]; [congruence|]. intros _.
  destruct a as [|ch' a'].
  - now exists "", ch.
  - destruct (IH ltac:(discriminate)) as (x & l & ->).
    exists (String ch x), l. now rewrite append_cons.
Qed.

Lemma endswith_char (x : string) (l q : ascii) :
  Py.endswith (x +:+ String l "") (String q "") = Ascii.eqb l q.
Proof.
  unfold Py.endswith, Py.slice. rewrite length_append. simpl String.length.
  replace (1 <=? String.length x + 1) with true by (symmetry; apply Nat.leb_le; lia).
  replace (String.length x + 1 - 1) with (String.length x) by lia.
  replace (String.length x + 1 - String.length x) with 1 by lia.
  rewrite substring_append_r.
  change (substring 0 1 (String l "")) with (String l "").
  cbn [andb String.eqb]. now destruct (Ascii.eqb l q).
Qed.

Lemma slice_1_m1_snoc (c : ascii) (body : string) (l : ascii) :
  Py.slice_1_m1 (String c (body +:+ String l "")) = body.
Proof.
  unfold Py.slice_1_m1, Py.slice. simpl String.length. rewrite length_append.
  simpl String.length.
  replace (S (String.length body + 1) - 1 - 1) with (String.length body) by lia.
  simpl substring. apply substring_0_append.
Qed.

(** What [strip_quotes] returns is the unquoted text of the
    specification, on every text. *)
Lemma strip_quotes_unquoted (a : string) : strip_quotes a = unquoted a.
Proof.
  destruct a as [|c rest]; [reflexivity|].
  unfold strip_quotes, unquoted, is_quote. rewrite !startswith_cons.
  assert (forall q, Py.endswith (String c rest) (String q "")
                    = last_is (Ascii.eqb q) (String c rest)) as Hend.
  { intros q. destruct (snoc_split (String c rest) ltac:(discriminate)) as (x & l & ->).
    rewrite endswith_char, last_is_append by discriminate.
    cbn [last_is]. apply Ascii.eqb_sym. }
  assert (Py.slice_1_m1 (String c rest) = without_last rest) as Hslice.
  { destruct rest as [|ch rest']; [reflexivity|].
    destruct (snoc_split (String ch rest') ltac:(discriminate)) as (x & l & ->).
    now rewrite slice_1_m1_snoc, without_last_snoc. }
  rewrite !Hend, Hslice.
  destruct (Ascii.eqb_spec c "'") as [->|H1].
  - change (Ascii.eqb "'" "'") with true.
    change (Ascii.eqb double_quote "'") with false.
    change (Ascii.eqb "'" double_quote) with false.
    cbn [andb orb]. now rewrite orb_false_r.
  - rewrite (Ascii.eqb_sym "'" c). apply Ascii.eqb_neq in H1. rewrite H1.
    cbn [andb orb]. rewrite (Ascii.eqb_sym double_quote c).
    destruct (Ascii.eqb_spec c double_quote) as [->|H2]; reflexivity.
Qed.

(** ** Truthiness *)

Lemma is_truthy_false_iff (v : string) :
  _is_truthy v = false <-> In v ["false"; "False"; ""; "0"; "none"; "None"].
Proof.
  unfold _is_truthy, Py.in_tuple. rewrite negb_false_iff, existsb_exists. split.
  - intros (x & Hx & E). apply String.eqb_eq in E. now subst.
  - intros H. exists v. split; [assumption | apply String.eqb_refl].
Qed.

(** * The claims of the specification *)

(** C1.  A comparison [a OP b], once the variables are substituted, is
    evaluated on the unquoted operands ([unquoted]: a quoted string
    literal stands for the text between its quotes, any other operand for
    itself): numerically if both unquoted texts are floating-point
    numbers, else as texts, in the lexicographic order for the ordering
    operators.  This holds of the parser wherever the three tokens stand,
    and of [evaluate_condition] when they are the whole expression; [a]
    and [b] are atoms that are not parenthesised, [o] is one of the six
    operators, and any white space may surround them. *)
Theorem C1_comparison_numeric_first :
  (forall (tokens : list string) (fuel pos : nat) (a b : string) (o : operator),
     tokens !! pos = Some a -> tokens !! (pos + 1) = Some (operator_text o) ->
     tokens !! (pos + 1 + 1) = Some b ->
     is_value_token a = true -> is_value_token b = true ->
     _Parser._parse_comparison tokens (S (S fuel)) pos
     = Return
         (match PyFloat.of_string (unquoted a), PyFloat.of_string (unquoted b) with
          | Some x, Some y => compare_floats o x y
          | _, _ => compare_texts o (unquoted a) (unquoted b)
          end, pos + 1 + 1 + 1))
  /\ (forall (e : string) (c : context) (w0 a w1 : string) (o : operator)
         (w2 b w3 : string),
        Py.all_chars Py.isspace w0 = true -> Py.all_chars Py.isspace w1 = true ->
        Py.all_chars Py.isspace w2 = true -> Py.all_chars Py.isspace w3 = true ->
        is_atom_text a = true -> is_atom_text b = true ->
        substituted_text e c
        = Return (w0 +:+ (a +:+ w1 +:+ operator_text o +:+ w2 +:+ b) +:+ w3) ->
        evaluate_condition e c
        = (Return
             (match PyFloat.of_string (unquoted a), PyFloat.of_string (unquoted b) with
              | Some x, Some y => compare_floats o x y
              | _, _ => compare_texts o (unquoted a) (unquoted b)
              end), c)).
Proof.
  split.
  - intros tokens fuel pos a b o Ha Ho Hb Hva Hvb.
    rewrite <- !strip_quotes_unquoted. now apply comparison_of_values.
  - intros e c w0 a w1 o w2 b w3 H0 H1 H2 H3 Ha Hb Hs.
    rewrite <- !strip_quotes_unquoted.
    rewrite (evaluate_condition_substituted _ _ _ Hs).
    + now rewrite evaluate_expression_comparison.
    + apply spaces_core_not_blank.
      destruct (atom_text_ends _ Ha) as (Hh & _ & _ & Hne).
      destruct a; [congruence | exact Hh].
Qed.

(** [evaluate("{{a}} > {{b}}", {a: 10, b: 2})] is true.  So is ['10' > '9']
    with either kind of quotes, which is false of the texts with their
    quotes and of the texts [10] and [9]; and a string in single quotes
    equals the same string in double quotes. *)
Lemma C1_witness :
  evaluate_condition "{{a}} > {{b}}" (<["a" := VInt 10]> (<["b" := VInt 2]> ∅))
  = (Return true, <["a" := VInt 10]> (<["b" := VInt 2]> ∅))
  /\ evaluate_condition "'10' > '9'" ∅ = (Return true, ∅)
  /\ evaluate_condition (double_quoted "10" +:+ " > " +:+ double_quoted "9") ∅
     = (Return true, ∅)
  /\ evaluate_condition ("{{s}} == " +:+ double_quoted "abc") (<["s" := VStr "abc"]> ∅)
     = (Return true, <["s" := VStr "abc"]> ∅).
Proof.
  split; [|split; [|split]].
  - refine (eq_trans
              (proj2 C1_comparison_numeric_first
                 "{{a}} > {{b}}" _ "" "10" " " OpGt " " "2" ""
                 eq_refl eq_refl eq_refl eq_refl eq_refl eq_refl _) _).
    + vm_compute. reflexivity.
    + vm_compute. reflexivity.
  - refine (eq_trans
              (proj2 C1_comparison_numeric_first
                 "'10' > '9'" _ "" "'10'" " " OpGt " " "'9'" ""
                 eq_refl eq_refl eq_refl eq_refl eq_refl eq_refl _) _).
    + vm_compute. reflexivity.
    + vm_compute. reflexivity.
  - refine (eq_trans
              (proj2 C1_comparison_numeric_first
                 (double_quoted "10" +:+ " > " +:+ double_quoted "9") _
                 "" (double_quoted "10") " " OpGt " " (double_quoted "9") ""
                 eq_refl eq_refl eq_refl eq_refl eq_refl eq_refl _) _).
    + vm_compute. reflexivity.
    + vm_compute. reflexivity.
  - refine (eq_trans
              (proj2 C1_comparison_numeric_first
                 ("{{s}} == " +:+ double_quoted "abc") _
                 "" "'abc'" " " OpEq " " (double_quoted "abc") ""
                 eq_refl eq_refl eq_refl eq_refl eq_refl eq_refl _) _).
    + vm_compute. reflexivity.
    + vm_compute. reflexivity.
Defined.

(** C2.  An atom without a comparison operator after it is evaluated by
    the truthiness of its unquoted text ([unquoted]: a quoted string
    literal stands for the text between its quotes, any other atom for
    itself): false exactly for [false], [False], the empty text, [0],
    [none] and [None], true for every other text.  This holds of the
    parser wherever the atom stands, and of [evaluate_condition] when the
    atom is the whole expression. *)
Theorem C2_bare_atom_truthiness :
  (forall (tokens : list string) (fuel pos : nat) (a : string),
     tokens !! pos = Some a -> is_value_token a = true ->
     _Parser.peek_in tokens (pos + 1) _Parser.COMPARISON_OPS = false ->
     exists v : bool,
       _Parser._parse_comparison tokens (S (S fuel)) pos = Return (v, pos + 1)
       /\ (v = false
           <-> In (unquoted a) ["false"; "False"; ""; "0"; "none"; "None"]))
  /\ (forall (e : string) (c : context) (w0 a w3 : string),
        Py.all_chars Py.isspace w0 = true -> Py.all_chars Py.isspace w3 = true ->
        is_atom_text a = true ->
        substituted_text e c = Return (w0 +:+ a +:+ w3) ->
        exists v : bool,
          evaluate_condition e c = (Return v, c)
          /\ (v = false
              <-> In (unquoted a) ["false"; "False"; ""; "0"; "none"; "None"])).
Proof.
  split.
  - intros tokens fuel pos a Ha Hva Hop. exists (_is_truthy (strip_quotes a)).
    split; [now apply truthiness_of_value|].
    rewrite <- strip_quotes_unquoted. apply is_truthy_false_iff.
  - intros e c w0 a w3 H0 H3 Ha Hs. exists (_is_truthy (strip_quotes a)).
    split; [|rewrite <- strip_quotes_unquoted; apply is_truthy_false_iff].
    rewrite (evaluate_condition_substituted _ _ _ Hs).
    + now rewrite evaluate_expression_atom.
    + apply spaces_core_not_blank. now destruct (atom_text_ends _ Ha) as (Hh & _).
Qed.

(** [evaluate("{{x}}", {x: "0"})] is false and
    [evaluate("{{x}}", {x: "no"})] is true; the literal [0] between double
    quotes is false as well, and so is the empty literal. *)
Lemma C2_witness :
  evaluate_condition "{{x}}" (<["x" := VStr "0"]> ∅)
  = (Return false, <["x" := VStr "0"]> ∅)
  /\ evaluate_condition "{{x}}" (<["x" := VStr "no"]> ∅)
     = (Return true, <["x" := VStr "no"]> ∅)
  /\ evaluate_condition (double_quoted "0") ∅ = (Return false, ∅)
  /\ evaluate_condition "{{x}}" (<["x" := VStr ""]> ∅)
     = (Return false, <["x" := VStr ""]> ∅).
Proof.
  split; [|split; [|split]].
  - destruct (proj2 C2_bare_atom_truthiness "{{x}}" (<["x" := VStr "0"]> ∅) "" "'0'" "")
      as (v & Hv & Hiff); [vm_compute; reflexivity ..|].
    rewrite Hv. f_equal. f_equal. apply Hiff. vm_compute. auto.
  - destruct (proj2 C2_bare_atom_truthiness "{{x}}" (<["x" := VStr "no"]> ∅) "" "'no'" "")
      as (v & Hv & Hiff); [vm_compute; reflexivity ..|].
    rewrite Hv. f_equal. f_equal. destruct v; [reflexivity|].
    destruct (proj1 Hiff eq_refl) as [E|[E|[E|[E|[E|[E|[]]]]]]]; vm_compute in E;
      discriminate.
  - destruct (proj2 C2_bare_atom_truthiness (double_quoted "0") ∅
                "" (double_quoted "0") "")
      as (v & Hv & Hiff); [vm_compute; reflexivity ..|].
    rewrite Hv. f_equal. f_equal. apply Hiff. vm_compute. auto.
  - destruct (proj2 C2_bare_atom_truthiness "{{x}}" (<["x" := VStr ""]> ∅) "" "''" "")
      as (v & Hv & Hiff); [vm_compute; reflexivity ..|].
    rewrite Hv. f_equal. f_equal. apply Hiff. vm_compute. auto.
Defined.

(** C3.  An expression that contains a reference to a path that is missing
    from the context raises the undefined-variable error of one of its
    references that do not resolve, and returns no boolean; when the
    reference opens the expression, the error is its own. *)
Theorem C3_undefined_variable_raises (pre p post : string) (c : context) :
  is_dotted_path p = true -> path_missing p c ->
  (exists q,
     (path_missing q c \/ path_is_None q c)
     /\ evaluate_condition (pre +:+ reference p +:+ post) c
        = (Raise (ExpressionError (UndefinedVariable q)), c))
  /\ evaluate_condition (reference p +:+ post) c
     = (Raise (ExpressionError (UndefinedVariable p)), c).
Proof.
  intros Hp Hc. split.
  - apply evaluate_condition_undefined; auto.
  - apply evaluate_condition_undefined_first; auto.
Qed.

(** [evaluate("{{missing}} == 'a'", {})] raises. *)
Lemma C3_witness :
  evaluate_condition "{{missing}} == 'a'" ∅
  = (Raise (ExpressionError (UndefinedVariable "missing")), ∅).
Proof.
  exact (proj2 (C3_undefined_variable_raises "" "missing" " == 'a'" ∅ eq_refl eq_refl)).
Defined.

(** C4.  On the substituted text, a quote that no later character closes,
    a character that starts no token, and a token left after a complete
    parse each make evaluation raise a syntax error.  The text before the
    offending character is a run of complete tokens ([Scan]). *)
Theorem C4_syntax_errors (e : string) (c : context) (s : string) :
  substituted_text e c = Return s ->
  (forall k ts q rest,
     Py.strip s = k +:+ String q rest -> Scan k ts (String q rest) ->
     is_quote q = true -> Py.contains_char q rest = false ->
     raises_syntax_error (evaluate_condition e c)
       (UnterminatedString (String.length k)) c)
  /\ (forall k ts ch rest,
        Py.strip s = k +:+ String ch rest -> Scan k ts (String ch rest) ->
        unrecognized ch rest = true ->
        raises_syntax_error (evaluate_condition e c)
          (UnexpectedCharacter ch (String.length k)) c)
  /\ (forall ts b pos,
        _tokenize (Py.strip s) = Return ts ->
        _Parser._parse_or ts (_Parser.enough_fuel (length ts)) 0 = Return (b, pos) ->
        pos < length ts ->
        exists token,
          ts !! pos = Some token
          /\ raises_syntax_error (evaluate_condition e c) (UnexpectedToken token pos) c).
Proof.
  intros Hs.
  assert (Py.strip s <> "" -> evaluate_condition e c = (_evaluate_expression s, c)) as Hev.
  { intros Hne. apply evaluate_condition_substituted; [assumption|].
    destruct (Py.all_chars Py.isspace s) eqn:E; [|reflexivity].
    now rewrite (strip_blank _ E) in Hne. }
  split; [|split].
  - intros k ts q rest Hk Hscan Hq Hrest. split; [|reflexivity].
    rewrite Hev by (rewrite Hk; now destruct k).
    unfold _evaluate_expression. rewrite Hk.
    assert (Py.is_empty (k +:+ String q rest) = false) as -> by now destruct k.
    now rewrite (tokenize_unterminated _ _ _ _ Hscan).
  - intros k ts ch rest Hk Hscan Hch. split; [|reflexivity].
    rewrite Hev by (rewrite Hk; now destruct k).
    unfold _evaluate_expression. rewrite Hk.
    assert (Py.is_empty (k +:+ String ch rest) = false) as -> by now destruct k.
    unfold unrecognized in Hch.
    repeat (apply andb_true_iff in Hch as [Hch ?]).
    repeat match goal with Hn : negb _ = true |- _ => apply negb_true_iff in Hn end.
    now rewrite (tokenize_unexpected _ _ _ _ Hscan).
  - intros ts b pos Htok Hor Hpos.
    destruct (lookup_lt_is_Some_2 ts pos Hpos) as [token Htoken].
    exists token. split; [assumption|]. split; [|reflexivity].
    assert (Py.strip s <> "") as Hne.
    { intros E. rewrite E in Htok. injection Htok as <-. simpl in Hpos. lia. }
    rewrite Hev by assumption. unfold _evaluate_expression.
    destruct (Py.strip s) as [|ch x] eqn:E; [congruence|]. cbn [Py.is_empty].
    rewrite Htok. simpl. unfold _Parser.parse. rewrite Hor. simpl.
    apply Nat.ltb_lt in Hpos. rewrite Hpos. now rewrite Htoken.
Qed.

(** An unterminated literal, a lone equals sign, and two atoms in a row. *)
Lemma C4_witness :
  raises_syntax_error (evaluate_condition "x == 'abc" ∅) (UnterminatedString 5) ∅
  /\ raises_syntax_error (evaluate_condition "a = b" ∅) (UnexpectedCharacter "=" 2) ∅
  /\ (exists token,
        ["a"; "b"] !! 1 = Some token
        /\ raises_syntax_error (evaluate_condition "a b" ∅) (UnexpectedToken token 1) ∅).
Proof.
  split; [|split].
  - apply (proj1 (C4_syntax_errors "x == 'abc" ∅ "x == 'abc" eq_refl)
             "x == " ["x"; "=="] "'"%char "abc"); try reflexivity.
    apply (Scan_word "x" " == " ["=="] "'abc"); try reflexivity; [discriminate|].
    apply (Scan_space " " "== " ["=="] "'abc" eq_refl).
    apply (Scan_op2 "==" " " [] "'abc" eq_refl).
    apply (Scan_space " " "" [] "'abc" eq_refl).
    constructor.
  - apply (proj1 (proj2 (C4_syntax_errors "a = b" ∅ "a = b" eq_refl))
             "a " ["a"] "="%char " b"); try reflexivity.
    apply (Scan_word "a" " " [] "= b"); try reflexivity; [discriminate|].
    apply (Scan_space " " "" [] "= b" eq_refl).
    constructor.
  - apply (proj2 (proj2 (C4_syntax_errors "a b" ∅ "a b" eq_refl))
             ["a"; "b"] true 1); [reflexivity | reflexivity | simpl; lia].
Defined.

(** C5.  An expression that is empty or made of white space only is true
    in every context: it is returned at once, before any variable is
    looked up and before any token is read. *)
Theorem C5_blank_expression_is_true (e : string) (c : context) :
  Py.all_chars Py.isspace e = true ->
  evaluate_condition e c = (Return true, c).
Proof.
  intros H. unfold evaluate_condition.
  now rewrite (strip_blank _ H), orb_true_r.
Qed.

Lemma C5_witness :
  evaluate_condition "" ∅ = (Return true, ∅)
  /\ evaluate_condition "   " (<["x" := VNone]> ∅) = (Return true, <["x" := VNone]> ∅).
Proof.
  split; apply C5_blank_expression_is_true; reflexivity.
Defined.

(** C6.  [resolve_model_pattern] returns the hint itself when the hint has
    no glob character, when no provider is named, when the provider has
    no models to offer, and when the pattern matches none of them; when
    the pattern matches some, it returns a match that is last in the
    order of strings.  The matching itself is that of the [fnmatch]
    library, whatever it is. *)
Theorem C6_resolve_model_pattern (fnmatch : string -> string -> bool)
    (model_hint : string) (provider_name : option string) (coord : coordinator) :
  let result := resolve_model_pattern fnmatch model_hint provider_name coord in
  (is_glob_pattern model_hint = false -> resolved_model result = model_hint)
  /\ (provider_name = None \/ provider_name = Some "" ->
      resolved_model result = model_hint)
  /\ (forall name, provider_name = Some name ->
        query_available_models name coord = [] ->
        resolved_model result = model_hint)
  /\ (forall name, provider_name = Some name ->
        fnmatch_filter fnmatch (query_available_models name coord) model_hint = [] ->
        resolved_model result = model_hint)
  /\ (forall name, provider_name = Some name -> name <> "" ->
        is_glob_pattern model_hint = true ->
        let matched :=
          fnmatch_filter fnmatch (query_available_models name coord) model_hint in
        matched <> [] ->
        In (resolved_model result) matched
        /\ forall m, In m matched -> String.leb m (resolved_model result) = true).
Proof.
  cbv zeta. split; [|split; [|split; [|split]]].
  - apply resolve_not_a_pattern.
  - apply resolve_no_provider.
  - intros name -> H. now apply resolve_no_models.
  - intros name -> H. now apply resolve_no_match.
  - intros name -> Hname Hglob Hne. now apply resolve_last_match.
Qed.

(** The pattern [claude-sonnet-*] against three models of a provider
    mounted as [provider-anthropic]; the matcher is the one of this
    pattern. *)
Lemma C6_witness :
  let fnmatch := fun name (_ : string) => String.prefix "claude-sonnet-" name in
  let models := [ModelName "claude-sonnet-4-20250514"; ModelName "claude-opus-4-1";
                 ModelObject (Some "claude-sonnet-4-5-20250929") "Model(...)"] in
  let coord : coordinator :=
    Some [("provider-anthropic",
           {| truthy := true; list_models := Some (Some models) |})] in
  resolved_model (resolve_model_pattern fnmatch "claude-opus-4-1" (Some "anthropic") coord)
  = "claude-opus-4-1"
  /\ resolved_model (resolve_model_pattern fnmatch "claude-sonnet-*" None coord)
     = "claude-sonnet-*"
  /\ resolved_model (resolve_model_pattern fnmatch "claude-sonnet-*" (Some "openai") coord)
     = "claude-sonnet-*"
  /\ resolved_model
       (resolve_model_pattern (fun _ _ => false) "gpt-*" (Some "anthropic") coord)
     = "gpt-*"
  /\ resolved_model (resolve_model_pattern fnmatch "claude-sonnet-*" (Some "anthropic") coord)
     = "claude-sonnet-4-5-20250929".
Proof.
  intros fnmatch models coord. split; [|split; [|split; [|split]]].
  - apply (proj1 (C6_resolve_model_pattern fnmatch "claude-opus-4-1" (Some "anthropic") coord)).
    reflexivity.
  - apply (proj1 (proj2 (C6_resolve_model_pattern fnmatch "claude-sonnet-*" None coord))).
    now left.
  - apply (proj1 (proj2 (proj2
             (C6_resolve_model_pattern fnmatch "claude-sonnet-*" (Some "openai") coord)))
             "openai"); reflexivity.
  - apply (proj1 (proj2 (proj2 (proj2
             (C6_resolve_model_pattern (fun _ _ => false) "gpt-*" (Some "anthropic") coord))))
             "anthropic"); reflexivity.
  - destruct (proj2 (proj2 (proj2 (proj2
               (C6_resolve_model_pattern fnmatch "claude-sonnet-*" (Some "anthropic") coord))))
               "anthropic" eq_refl ltac:(discriminate) eq_refl ltac:(discriminate))
      as [_ Hmax].
    apply String.leb_antisym.
    + vm_compute. reflexivity.
    + apply Hmax. vm_compute. auto.
Defined.

(** C8.  A reference to a path that the context has with the value [None]
    fails as a reference to a missing path does: with the undefined-
    variable error of the path when the reference opens the expression,
    and with that of an unresolved reference of the expression wherever
    it stands. *)
Theorem C8_none_is_undefined (p post : string) (c c' : context) :
  is_dotted_path p = true -> path_is_None p c -> path_missing p c' ->
  evaluate_condition (reference p +:+ post) c
  = (Raise (ExpressionError (UndefinedVariable p)), c)
  /\ evaluate_condition (reference p +:+ post) c'
     = (Raise (ExpressionError (UndefinedVariable p)), c')
  /\ (forall pre, exists q,
        (path_missing q c \/ path_is_None q c)
        /\ evaluate_condition (pre +:+ reference p +:+ post) c
           = (Raise (ExpressionError (UndefinedVariable q)), c)).
Proof.
  intros Hp Hc Hc'. repeat split.
  - apply evaluate_condition_undefined_first; auto.
  - apply evaluate_condition_undefined_first; auto.
  - intros pre. apply evaluate_condition_undefined; auto.
Qed.

Lemma C8_witness :
  evaluate_condition "{{step.result}} == 'ok'"
    (<["step" := VDict (<["result" := VNone]> ∅) "{'result': None}"]> ∅)
  = (Raise (ExpressionError (UndefinedVariable "step.result")),
     <["step" := VDict (<["result" := VNone]> ∅) "{'result': None}"]> ∅)
  /\ evaluate_condition "{{step.result}} == 'ok'" (<["step" := VDict ∅ "{}"]> ∅)
     = (Raise (ExpressionError (UndefinedVariable "step.result")),
        <["step" := VDict ∅ "{}"]> ∅).
Proof.
  destruct (C8_none_is_undefined "step.result" " == 'ok'"
              (<["step" := VDict (<["result" := VNone]> ∅) "{'result': None}"]> ∅)
              (<["step" := VDict ∅ "{}"]> ∅))
    as (H1 & H2 & _); [vm_compute; reflexivity ..|].
  split; [exact H1 | exact H2].
Defined.

(** C9.  A string value is substituted between single quotes as it is, so
    a quote inside it ends the literal early: with [x = "it's"] the
    expression [{{x}} == 'abc'] becomes a text with an unterminated
    literal and raises, and with [x = "z' or 'abc"] it becomes another
    expression, which is true although the value is not [abc]. *)
Theorem C9_quotes_are_not_escaped :
  (exists (c : context) (v : string) (msg : message),
     c !! "x" = Some (VStr v)
     /\ Py.contains_char "'" v = true
     /\ substituted_text "{{x}} == 'abc'" c = Return ("'" +:+ v +:+ "' == 'abc'")
     /\ evaluate_condition "{{x}} == 'abc'" c = (Raise (ExpressionError msg), c))
  /\ (exists (c : context) (v : string),
        c !! "x" = Some (VStr v)
        /\ Py.contains_char "'" v = true
        /\ substituted_text "{{x}} == 'abc'" c = Return ("'" +:+ v +:+ "' == 'abc'")
        /\ String.eqb v "abc" = false
        /\ evaluate_condition "{{x}} == 'abc'" c = (Return true, c)).
Proof.
  split.
  - exists (<["x" := VStr "it's"]> ∅), "it's", (UnterminatedString 14).
    repeat split; vm_compute; reflexivity.
  - exists (<["x" := VStr "z' or 'abc"]> ∅), "z' or 'abc".
    repeat split; vm_compute; reflexivity.
Qed.

(** C10.  A parenthesised sub-expression used as an operand stands for the
    text [true] or [false] of its value: [(p) == 'true'] evaluates to what
    [p] evaluates to, and a comparison of two parenthesised operands
    compares the two texts. *)
Theorem C10_parenthesised_operand (p q : string) (o : operator) (c : context)
    (bp bq : bool) :
  valid_subexpression p c bp -> valid_subexpression q c bq ->
  evaluate_condition p c = (Return bp, c)
  /\ evaluate_condition ("(" +:+ p +:+ ") == 'true'") c = evaluate_condition p c
  /\ evaluate_condition
       ("(" +:+ p +:+ ") " +:+ operator_text o +:+ " (" +:+ q +:+ ")") c
     = (Return (compare_texts o (bool_text bp) (bool_text bq)), c).
Proof.
  intros Hp Hq. pose proof (valid_subexpression_evaluates _ _ _ Hp) as Hev.
  repeat split.
  - exact Hev.
  - rewrite Hev. now apply evaluate_paren_eq_true.
  - now apply evaluate_paren_compare.
Qed.

Lemma C10_witness :
  evaluate_condition "({{n}} > 1 or {{n}} == 0) == 'true'" (<["n" := VInt 5]> ∅)
  = evaluate_condition "{{n}} > 1 or {{n}} == 0" (<["n" := VInt 5]> ∅)
  /\ evaluate_condition "({{n}} > 1 or {{n}} == 0) != ('x' == 'y')" (<["n" := VInt 5]> ∅)
     = (Return true, <["n" := VInt 5]> ∅).
Proof.
  destruct (C10_parenthesised_operand "{{n}} > 1 or {{n}} == 0" "'x' == 'y'" OpNe
              (<["n" := VInt 5]> ∅) true false)
    as (_ & H1 & H2).
  - exists "5 > 1 or 5 == 0", ["5"; ">"; "1"; "or"; "5"; "=="; "0"].
    repeat split; vm_compute; reflexivity.
  - exists "'x' == 'y'", ["'x'"; "=="; "'y'"].
    repeat split; vm_compute; reflexivity.
  - split; [exact H1 | exact H2].
Defined.

(** ** The parser and the grammar *)

Lemma occurs_at_app (a b tokens : list string) (pos : nat) :
  occurs_at (a ++ b) tokens pos ->
  occurs_at a tokens pos /\ occurs_at b tokens (pos + length a).
Proof.
  intros H. split; intros i t Hi.
  - apply H. now apply lookup_app_l_Some.
  - rewrite <- Nat.add_assoc. apply H. rewrite lookup_app_r by lia.
    now replace (length a + i - length a) with i by lia.
Qed.

Lemma occurs_at_cons (t : string) (ts tokens : list string) (pos : nat) :
  occurs_at (t :: ts) tokens pos ->
  tokens !! pos = Some t /\ occurs_at ts tokens (pos + 1).
Proof.
  intros H. split.
  - rewrite <- (Nat.add_0_r pos). now apply H.
  - intros i t' Hi. rewrite <- Nat.add_assoc. now apply H.
Qed.

Lemma occurs_at_self (ts : list string) : occurs_at ts ts 0.
Proof. intros i t H. exact H. Qed.

Lemma peek_is_at (tokens : list string) (pos : nat) (t w : string) :
  tokens !! pos = Some t -> peek_is tokens pos w = String.eqb t w.
Proof. intros H. unfold peek_is, _peek. now rewrite H. Qed.

Lemma peek_in_at (tokens : list string) (pos : nat) (t : string) (items : list string) :
  tokens !! pos = Some t -> peek_in tokens pos items = Py.in_tuple t items.
Proof. intros H. unfold peek_in, _peek. now rewrite H. Qed.

(** *** More fuel, same result *)

Section Fuel.

Variable tokens : list string.

Lemma or_more_fuel (f f' pos : nat) :
  f <= f' -> has_fuel (_parse_or tokens f pos) ->
  _parse_or tokens f' pos = _parse_or tokens f pos.
Proof. intros Hle. now apply (parser_fuel_le tokens f f' Hle). Qed.

Lemma or_loop_more_fuel (f f' : nat) (v : bool) (pos : nat) :
  f <= f' -> has_fuel (_parse_or_loop tokens f v pos) ->
  _parse_or_loop tokens f' v pos = _parse_or_loop tokens f v pos.
Proof. intros Hle. now apply (parser_fuel_le tokens f f' Hle). Qed.

Lemma and_more_fuel (f f' pos : nat) :
  f <= f' -> has_fuel (_parse_and tokens f pos) ->
  _parse_and tokens f' pos = _parse_and tokens f pos.
Proof. intros Hle. now apply (parser_fuel_le tokens f f' Hle). Qed.

Lemma and_loop_more_fuel (f f' : nat) (v : bool) (pos : nat) :
  f <= f' -> has_fuel (_parse_and_loop tokens f v pos) ->
  _parse_and_loop tokens f' v pos = _parse_and_loop tokens f v pos.
Proof. intros Hle. now apply (parser_fuel_le tokens f f' Hle). Qed.

(** *** The steps of the grammar *)

Lemma comparison_bare_at (pos stop : nat) (txt : string) :
  returns_at (_parse_atom tokens) pos stop txt ->
  peek_in tokens stop COMPARISON_OPS = false ->
  returns_at (_parse_comparison tokens) pos stop (_is_truthy (strip_quotes txt)).
Proof.
  intros [n Hn] Hpeek. exists (S n). intros [|f] Hf; [lia|].
  apply comparison_bare; [apply Hn; lia | assumption].
Qed.

Lemma comparison_binary_at (pos p1 stop : nat) (lv rv : string) (o : operator) :
  returns_at (_parse_atom tokens) pos p1 lv ->
  tokens !! p1 = Some (operator_text o) ->
  returns_at (_parse_atom tokens) (p1 + 1) stop rv ->
  returns_at (_parse_comparison tokens) pos stop (comparison_value o lv rv).
Proof.
  intros [n Hn] Hop [m Hm]. exists (S (n + m)). intros [|f] Hf; [lia|].
  eapply comparison_binary; [apply Hn; lia | eassumption | apply Hm; lia].
Qed.

Lemma not_lift_at (pos stop : nat) (v : bool) :
  returns_at (_parse_comparison tokens) pos stop v ->
  peek_is tokens pos "not" = false ->
  returns_at (_parse_not tokens) pos stop v.
Proof.
  intros [n Hn] Hpeek. exists (S n). intros [|f] Hf; [lia|].
  simpl. rewrite Hpeek. apply Hn. lia.
Qed.

Lemma not_step_at (pos stop : nat) (v : bool) :
  tokens !! pos = Some "not" ->
  returns_at (_parse_not tokens) (pos + 1) stop v ->
  returns_at (_parse_not tokens) pos stop (negb v).
Proof.
  intros Hnot [n Hn]. exists (S n). intros [|f] Hf; [lia|].
  simpl. rewrite (peek_is_at _ _ _ _ Hnot). simpl.
  unfold _consume. rewrite Hnot. simpl. rewrite Hn by lia. reflexivity.
Qed.

Lemma and_lift_at (pos stop : nat) (v : bool) :
  returns_at (_parse_not tokens) pos stop v ->
  continues_at (_parse_and tokens) (_parse_and_loop tokens) pos stop v.
Proof.
  intros [n Hn] g Hg. exists (S (n + g)). simpl.
  rewrite Hn by lia. simpl. apply and_loop_more_fuel; [lia | assumption].
Qed.

Lemma and_step_at (pos p1 stop : nat) (vl vr : bool) :
  continues_at (_parse_and tokens) (_parse_and_loop tokens) pos p1 vl ->
  tokens !! p1 = Some "and" ->
  returns_at (_parse_not tokens) (p1 + 1) stop vr ->
  continues_at (_parse_and tokens) (_parse_and_loop tokens) pos stop (vl && vr).
Proof.
  intros Hl Hand [n Hn] g Hg.
  assert (_parse_and_loop tokens (S (n + g)) vl p1
          = _parse_and_loop tokens g (vl && vr) stop) as Hstep.
  { simpl. rewrite (peek_is_at _ _ _ _ Hand). simpl.
    unfold _consume. rewrite Hand. simpl. rewrite Hn by lia. simpl.
    apply and_loop_more_fuel; [lia | assumption]. }
  destruct (Hl (S (n + g))) as [fuel Hfuel].
  - rewrite Hstep. exact Hg.
  - exists fuel. now rewrite Hfuel.
Qed.

Lemma and_result_at (pos stop : nat) (v : bool) :
  continues_at (_parse_and tokens) (_parse_and_loop tokens) pos stop v ->
  peek_is tokens stop "and" = false ->
  returns_at (_parse_and tokens) pos stop v.
Proof.
  intros H Hpeek.
  assert (_parse_and_loop tokens 1 v stop = Return (v, stop)) as Hloop
    by (simpl; now rewrite Hpeek).
  destruct (H 1) as [fuel Hfuel]; [rewrite Hloop; discriminate|].
  rewrite Hloop in Hfuel. exists fuel. intros f Hf.
  rewrite (and_more_fuel fuel f pos Hf); rewrite Hfuel; [reflexivity | discriminate].
Qed.

Lemma or_lift_at (pos stop : nat) (v : bool) :
  continues_at (_parse_and tokens) (_parse_and_loop tokens) pos stop v ->
  peek_is tokens stop "and" = false ->
  continues_at (_parse_or tokens) (_parse_or_loop tokens) pos stop v.
Proof.
  intros H Hpeek g Hg. destruct (and_result_at _ _ _ H Hpeek) as [n Hn].
  exists (S (n + g)). simpl. rewrite Hn by lia. simpl.
  apply or_loop_more_fuel; [lia | assumption].
Qed.

Lemma or_step_at (pos p1 stop : nat) (vl vr : bool) :
  continues_at (_parse_or tokens) (_parse_or_loop tokens) pos p1 vl ->
  tokens !! p1 = Some "or" ->
  continues_at (_parse_and tokens) (_parse_and_loop tokens) (p1 + 1) stop vr ->
  peek_is tokens stop "and" = false ->
  continues_at (_parse_or tokens) (_parse_or_loop tokens) pos stop (vl || vr).
Proof.
  intros Hl Hor Hr Hpeek g Hg.
  destruct (and_result_at _ _ _ Hr Hpeek) as [n Hn].
  assert (_parse_or_loop tokens (S (n + g)) vl p1
          = _parse_or_loop tokens g (vl || vr) stop) as Hstep.
  { simpl. rewrite (peek_is_at _ _ _ _ Hor). simpl.
    unfold _consume. rewrite Hor. simpl. rewrite Hn by lia. simpl.
    apply or_loop_more_fuel; [lia | assumption]. }
  destruct (Hl (S (n + g))) as [fuel Hfuel].
  - rewrite Hstep. exact Hg.
  - exists fuel. now rewrite Hfuel.
Qed.

Lemma or_result_at (pos stop : nat) (v : bool) :
  continues_at (_parse_or tokens) (_parse_or_loop tokens) pos stop v ->
  peek_is tokens stop "or" = false ->
  returns_at (_parse_or tokens) pos stop v.
Proof.
  intros H Hpeek.
  assert (_parse_or_loop tokens 1 v stop = Return (v, stop)) as Hloop
    by (simpl; now rewrite Hpeek).
  destruct (H 1) as [fuel Hfuel]; [rewrite Hloop; discriminate|].
  rewrite Hloop in Hfuel. exists fuel. intros f Hf.
  rewrite (or_more_fuel fuel f pos Hf); rewrite Hfuel; [reflexivity | discriminate].
Qed.

Lemma atom_paren_at (pos p : nat) (v : bool) :
  tokens !! pos = Some "(" ->
  continues_at (_parse_or tokens) (_parse_or_loop tokens) (pos + 1) p v ->
  tokens !! p = Some ")" ->
  returns_at (_parse_atom tokens) pos (p + 1) (bool_text v).
Proof.
  intros Hopen Hor Hclose.
  destruct (or_result_at _ _ _ Hor) as [n Hn].
  { now rewrite (peek_is_at _ _ _ _ Hclose). }
  exists (S n). intros [|f] Hf; [lia|].
  simpl. unfold _peek, _consume. rewrite Hopen. simpl.
  rewrite Hn by lia. simpl.
  rewrite (peek_is_at _ _ _ _ Hclose). simpl. rewrite Hclose. reflexivity.
Qed.

Lemma atom_value_at (pos : nat) (a : string) :
  tokens !! pos = Some a -> is_value_token a = true ->
  returns_at (_parse_atom tokens) pos (pos + 1) a.
Proof.
  intros Ha Hv. exists 1. intros [|f] Hf; [lia|]. now apply atom_value.
Qed.

End Fuel.

Lemma is_truthy_bool_text (b : bool) : _is_truthy (strip_quotes (bool_text b)) = b.
Proof. now destruct b. Qed.

Lemma value_token_not_not (a : string) :
  is_value_token a = true -> String.eqb a "not" = false.
Proof.
  intros H. apply String.eqb_neq. apply (value_token_not_keyword a "not" H). reflexivity.
Qed.

(** The first token of a comparison is not the keyword [not]. *)
Lemma comparison_first_token (e : expr) :
  fits 3 e = true ->
  exists h rest, tokens_of e = h :: rest /\ String.eqb h "not" = false.
Proof.
  assert (forall a, fits 4 a = true ->
            exists h rest, tokens_of a = h :: rest /\ String.eqb h "not" = false) as Hatom.
  { intros [t|inner| | | |]; simpl; try discriminate; intros H.
    - exists t, []. split; [reflexivity | now apply value_token_not_not].
    - exists "(", (tokens_of inner ++ [")"])%list. now split. }
  destruct e as [t|inner|l o r| | |]; simpl; try discriminate; intros H.
  - apply (Hatom (Atom t) H).
  - apply (Hatom (Paren inner) H).
  - apply andb_true_iff in H as [Hl _]. destruct (Hatom l Hl) as (h & rest & -> & Hh).
    exists h, (rest ++ operator_text o :: tokens_of r)%list. now split.
Qed.

Lemma fits_le (e : expr) (k k' : nat) : k' <= k -> fits k e = true -> fits k' e = true.
Proof.
  intros Hle. destruct e; simpl; try tauto; intros H.
  all: repeat (apply andb_true_iff in H as [H ?]).
  all: apply Nat.leb_le in H.
  all: repeat (apply andb_true_iff; split); try assumption; apply Nat.leb_le; lia.
Qed.

(** What the parser does where the tokens of an expression stand. *)
Lemma parser_follows_grammar (e : expr) :
  forall (tokens : list string) (pos : nat),
    occurs_at (tokens_of e) tokens pos ->
    let stop := pos + length (tokens_of e) in
    (fits 4 e = true ->
     returns_at (_parse_atom tokens) pos stop (operand_text e))
    /\ (fits 3 e = true -> peek_in tokens stop COMPARISON_OPS = false ->
        returns_at (_parse_comparison tokens) pos stop (value_of e))
    /\ (fits 2 e = true -> peek_in tokens stop COMPARISON_OPS = false ->
        returns_at (_parse_not tokens) pos stop (value_of e))
    /\ (fits 1 e = true -> peek_in tokens stop COMPARISON_OPS = false ->
        continues_at (_parse_and tokens) (_parse_and_loop tokens) pos stop (value_of e))
    /\ (fits 0 e = true -> peek_in tokens stop COMPARISON_OPS = false ->
        peek_is tokens stop "and" = false ->
        continues_at (_parse_or tokens) (_parse_or_loop tokens) pos stop (value_of e)).
Proof.
  assert (forall (e : expr) (tokens : list string) (pos stop : nat),
            occurs_at (tokens_of e) tokens pos ->
            fits 3 e = true ->
            returns_at (_parse_comparison tokens) pos stop (value_of e) ->
            returns_at (_parse_not tokens) pos stop (value_of e)) as Hup.
  { intros e0 tokens pos stop Hocc Hfit Hcmp. apply not_lift_at; [assumption|].
    destruct (comparison_first_token e0 Hfit) as (h & rest & Heq & Hh).
    rewrite Heq in Hocc. apply occurs_at_cons in Hocc as [Hpos _].
    now rewrite (peek_is_at _ _ _ _ Hpos). }
  induction e as [t|inner IH|l IHl o r IHr|operand IH|l IHl r IHr|l IHl r IHr];
    intros tokens pos Hocc stop.
  - (* a value token *)
    simpl in Hocc, stop. apply occurs_at_cons in Hocc as [Hpos _].
    assert (is_value_token t = true -> returns_at (_parse_atom tokens) pos stop t) as Hatom
      by (intros Hv; now apply atom_value_at).
    assert (is_value_token t = true -> peek_in tokens stop COMPARISON_OPS = false ->
            returns_at (_parse_not tokens) pos stop (_is_truthy (strip_quotes t))) as Hnot.
    { intros Hv Hpeek. apply not_lift_at.
      - apply comparison_bare_at; auto.
      - rewrite (peek_is_at _ _ _ _ Hpos). now apply value_token_not_not. }
    simpl. repeat split; intros Hv; auto.
    + intros Hpeek. apply comparison_bare_at; auto.
    + intros Hpeek. now apply and_lift_at, Hnot.
    + intros Hpeek Hand. apply or_lift_at; [|assumption]. now apply and_lift_at, Hnot.
  - (* parentheses *)
    simpl in Hocc. apply occurs_at_cons in Hocc as [Hopen Hocc].
    apply occurs_at_app in Hocc as [Hin Hclose].
    apply occurs_at_cons in Hclose as [Hclose _].
    assert (stop = pos + 1 + length (tokens_of inner) + 1) as Hstop
      by (subst stop; simpl; rewrite length_app; simpl; lia).
    assert (fits 0 inner = true ->
            returns_at (_parse_atom tokens) pos stop (bool_text (value_of inner))) as Hatom.
    { intros Hfit. rewrite Hstop. apply atom_paren_at; [assumption| |assumption].
      apply (IH tokens (pos + 1) Hin); [assumption| |].
      - now rewrite (peek_in_at _ _ _ _ Hclose).
      - now rewrite (peek_is_at _ _ _ _ Hclose). }
    assert (fits 0 inner = true -> peek_in tokens stop COMPARISON_OPS = false ->
            returns_at (_parse_not tokens) pos stop (value_of inner)) as Hnot.
    { intros Hfit Hpeek. apply not_lift_at.
      - rewrite <- (is_truthy_bool_text (value_of inner)).
        apply comparison_bare_at; auto.
      - now rewrite (peek_is_at _ _ _ _ Hopen). }
    simpl. repeat split; intros Hfit; auto.
    + intros Hpeek. rewrite <- (is_truthy_bool_text (value_of inner)).
      apply comparison_bare_at; auto.
    + intros Hpeek. now apply and_lift_at, Hnot.
    + intros Hpeek Hand. apply or_lift_at; [|assumption]. now apply and_lift_at, Hnot.
  - (* a comparison of two atoms *)
    pose proof Hocc as Hwhole.
    simpl in Hocc. apply occurs_at_app in Hocc as [Hl Hr].
    apply occurs_at_cons in Hr as [Hop Hr].
    assert (stop = pos + length (tokens_of l) + 1 + length (tokens_of r)) as Hstop
      by (subst stop; simpl; rewrite length_app; simpl; lia).
    assert (fits 4 l = true -> fits 4 r = true ->
            returns_at (_parse_comparison tokens) pos stop
              (comparison_value o (operand_text l) (operand_text r))) as Hcmp.
    { intros Hfl Hfr. eapply comparison_binary_at.
      - now apply (IHl tokens pos Hl).
      - exact Hop.
      - rewrite Hstop. now apply (IHr tokens _ Hr). }
    assert (forall k, fits k (Compare l o r) = true ->
            returns_at (_parse_not tokens) pos stop (value_of (Compare l o r))) as Hnot.
    { intros k Hfit. apply (Hup (Compare l o r)); [assumption| |].
      - simpl in Hfit. apply andb_true_iff in Hfit as [Hfit Hfr].
        apply andb_true_iff in Hfit as [_ Hfl]. simpl. now rewrite Hfl, Hfr.
      - simpl in Hfit. apply andb_true_iff in Hfit as [Hfit Hfr].
        apply andb_true_iff in Hfit as [_ Hfl]. now apply Hcmp. }
    repeat split; intros Hfit.
    + simpl in Hfit. discriminate.
    + intros _. simpl in Hfit. apply andb_true_iff in Hfit as [Hfl Hfr].
      now apply Hcmp.
    + intros _. now apply (Hnot 2).
    + intros _. now apply and_lift_at, (Hnot 1).
    + intros _ Hand. apply or_lift_at; [|assumption]. now apply and_lift_at, (Hnot 0).
  - (* not *)
    simpl in Hocc. apply occurs_at_cons in Hocc as [Hkw Hocc].
    assert (stop = pos + 1 + length (tokens_of operand)) as Hstop
      by (subst stop; simpl; lia).
    assert (forall k, fits k (Not operand) = true ->
            peek_in tokens stop COMPARISON_OPS = false ->
            returns_at (_parse_not tokens) pos stop (negb (value_of operand))) as Hnot.
    { intros k Hfit Hpeek. simpl in Hfit. apply andb_true_iff in Hfit as [_ Hfit].
      apply not_step_at; [assumption|]. rewrite Hstop in *.
      now apply (IH tokens (pos + 1) Hocc). }
    simpl. repeat split; intros Hfit; try discriminate.
    + intros Hpeek. now apply (Hnot 2).
    + intros Hpeek. now apply and_lift_at, (Hnot 1).
    + intros Hpeek Hand. apply or_lift_at; [|assumption]. now apply and_lift_at, (Hnot 0).
  - (* and *)
    simpl in Hocc. apply occurs_at_app in Hocc as [Hl Hr].
    apply occurs_at_cons in Hr as [Hkw Hr].
    assert (stop = pos + length (tokens_of l) + 1 + length (tokens_of r)) as Hstop
      by (subst stop; simpl; rewrite length_app; simpl; lia).
    assert (forall k, fits k (And l r) = true ->
            peek_in tokens stop COMPARISON_OPS = false ->
            continues_at (_parse_and tokens) (_parse_and_loop tokens) pos stop
              (value_of l && value_of r)) as Hand.
    { intros k Hfit Hpeek. simpl in Hfit. apply andb_true_iff in Hfit as [Hfit Hfr].
      apply andb_true_iff in Hfit as [_ Hfl].
      eapply and_step_at.
      - apply (IHl tokens pos Hl); [assumption|].
        now rewrite (peek_in_at _ _ _ _ Hkw).
      - exact Hkw.
      - rewrite Hstop in *. now apply (IHr tokens _ Hr). }
    simpl. repeat split; intros Hfit; try discriminate.
    + intros Hpeek. now apply (Hand 1).
    + intros Hpeek Hnext. apply or_lift_at; [|assumption]. now apply (Hand 0).
  - (* or *)
    simpl in Hocc. apply occurs_at_app in Hocc as [Hl Hr].
    apply occurs_at_cons in Hr as [Hkw Hr].
    assert (stop = pos + length (tokens_of l) + 1 + length (tokens_of r)) as Hstop
      by (subst stop; simpl; rewrite length_app; simpl; lia).
    simpl. repeat split; intros Hfit; try discriminate.
    intros Hpeek Hnext. apply andb_true_iff in Hfit as [Hfl Hfr].
    eapply or_step_at.
    + apply (IHl tokens pos Hl); [assumption| |].
      * now rewrite (peek_in_at _ _ _ _ Hkw).
      * now rewrite (peek_is_at _ _ _ _ Hkw).
    + exact Hkw.
    + rewrite Hstop in *. now apply (IHr tokens _ Hr).
    + assumption.
Qed.

(** ** What [parse] returns, from what [_parse_or] does with some fuel *)

Lemma parse_or_enough_fuel (tokens : list string) (f : nat) :
  has_fuel (_parse_or tokens f 0) ->
  _parse_or tokens (enough_fuel (length tokens)) 0 = _parse_or tokens f 0.
Proof.
  intros H. unfold enough_fuel.
  destruct (Nat.le_gt_cases f (5 * length tokens + 5)) as [Hle|Hgt].
  - now apply or_more_fuel.
  - destruct (parser_has_fuel tokens (5 * length tokens + 5)) as [Hfuel _].
    specialize (Hfuel 0 ltac:(lia) ltac:(lia)).
    symmetry. apply or_more_fuel; [lia | assumption].
Qed.

Lemma parse_raise_intro (tokens : list string) (f : nat) (e : exception) :
  _parse_or tokens f 0 = Raise e -> parse tokens = Raise e.
Proof.
  intros H. unfold parse. rewrite (parse_or_enough_fuel tokens f), H; [reflexivity|].
  rewrite H. discriminate.
Qed.

Lemma parse_stops_early (tokens : list string) (f pos : nat) (b : bool) (t : string) :
  _parse_or tokens f 0 = Return (b, pos) -> tokens !! pos = Some t ->
  parse tokens = Raise (ExpressionError (UnexpectedToken t pos)).
Proof.
  intros H Ht. unfold parse. rewrite (parse_or_enough_fuel tokens f), H.
  - simpl. rewrite Ht. apply lookup_lt_Some in Ht.
    now replace (pos <? length tokens) with true by (symmetry; apply Nat.ltb_lt; lia).
  - rewrite H. discriminate.
Qed.

Lemma raise_from_atom (tokens : list string) (f pos : nat) (e : exception) :
  _parse_atom tokens f pos = Raise e ->
  peek_is tokens pos "not" = false ->
  _parse_or tokens (S (S (S (S f)))) pos = Raise e.
Proof.
  intros H Hnot. cbn [_parse_or _parse_and _parse_not _parse_comparison].
  now rewrite Hnot, H.
Qed.

Lemma returns_at_le {A} (method : nat -> nat -> outcome (A * nat)) (pos stop : nat) (a : A) :
  returns_at method pos stop a -> exists f, method f pos = Return (a, stop).
Proof. intros [n Hn]. exists n. now apply Hn. Qed.

(** The parser returns the value of an expression of the grammar: [or]
    binds less than [and], [and] less than [not], [not] less than a
    comparison; [and] and [or] associate to the left; a parenthesised
    expression is an atom, with the text [true] or [false] of its value as
    an operand of a comparison. *)
Theorem parse_tokens_of (e : expr) :
  fits 0 e = true -> parse (tokens_of e) = Return (value_of e).
Proof.
  intros Hfit.
  destruct (parser_follows_grammar e (tokens_of e) 0 (occurs_at_self _))
    as (_ & _ & _ & _ & Hor).
  simpl in Hor. specialize (Hor Hfit (peek_in_end _ _) (peek_is_end _ _)).
  apply or_result_at in Hor; [|apply peek_is_end].
  destruct (returns_at_le _ _ _ _ Hor) as [f Hf].
  now apply parse_intro with (f := f).
Qed.

(** Where the tokens of a comparison of two atoms stand, whatever comes
    next, the comparison is parsed and the parser stops after it unless
    [and] or [or] comes next. *)
Lemma comparison_then_stop (a b : expr) (o : operator) (tokens : list string) :
  fits 4 a = true -> fits 4 b = true ->
  occurs_at (tokens_of (Compare a o b)) tokens 0 ->
  let stop := length (tokens_of (Compare a o b)) in
  peek_is tokens stop "and" = false -> peek_is tokens stop "or" = false ->
  exists f, _parse_or tokens f 0
            = Return (comparison_value o (operand_text a) (operand_text b), stop).
Proof.
  intros Ha Hb Hocc stop Hand Hor.
  pose proof Hocc as Hwhole. simpl in Hocc.
  apply occurs_at_app in Hocc as [Hl Hr]. apply occurs_at_cons in Hr as [Hop Hr].
  destruct (parser_follows_grammar a tokens 0 Hl) as (Hatom_a & _).
  destruct (parser_follows_grammar b tokens _ Hr) as (Hatom_b & _).
  assert (stop = 0 + length (tokens_of a) + 1 + length (tokens_of b)) as Hstop
    by (subst stop; simpl; rewrite length_app; simpl; lia).
  assert (returns_at (_parse_comparison tokens) 0 stop
            (comparison_value o (operand_text a) (operand_text b))) as Hcmp.
  { eapply comparison_binary_at; [now apply Hatom_a | exact Hop |].
    rewrite Hstop. now apply Hatom_b. }
  apply returns_at_le. apply or_result_at; [|assumption].
  apply or_lift_at; [|assumption]. apply and_lift_at. apply not_lift_at; [assumption|].
  destruct (comparison_first_token (Compare a o b)) as (h & rest & Heq & Hh).
  { simpl. now rewrite Ha, Hb. }
  rewrite Heq in Hwhole. apply occurs_at_cons in Hwhole as [Hpos _].
  now rewrite (peek_is_at _ _ _ _ Hpos).
Qed.

Lemma occurs_at_prefix (ts rest : list string) : occurs_at ts (ts ++ rest) 0.
Proof. intros i t H. now apply lookup_app_l_Some. Qed.

Lemma operator_text_not_keyword (o : operator) (w : string) :
  Py.in_tuple w ["and"; "or"; "not"] = true -> String.eqb (operator_text o) w = false.
Proof.
  intros H. apply String.eqb_neq. intros <-. destruct o; discriminate.
Qed.

(** X2.  Comparisons do not chain: after [a o1 b], a further comparison
    operator is a token the parser does not expect. *)
Theorem comparisons_do_not_chain (a b : expr) (o1 o2 : operator) (rest : list string) :
  fits 4 a = true -> fits 4 b = true ->
  let first := tokens_of (Compare a o1 b) in
  parse (first ++ operator_text o2 :: rest)
  = Raise (ExpressionError (UnexpectedToken (operator_text o2) (length first))).
Proof.
  intros Ha Hb first.
  set (tokens := (first ++ operator_text o2 :: rest)%list).
  assert (tokens !! length first = Some (operator_text o2)) as Hnext.
  { subst tokens. rewrite lookup_app_r by lia. now rewrite Nat.sub_diag. }
  destruct (comparison_then_stop a b o1 tokens Ha Hb) as [f Hf].
  - apply occurs_at_prefix.
  - rewrite (peek_is_at _ _ _ _ Hnext). now apply operator_text_not_keyword.
  - rewrite (peek_is_at _ _ _ _ Hnext). now apply operator_text_not_keyword.
  - now apply parse_stops_early with (f := f) (b := comparison_value o1 (operand_text a) (operand_text b)).
Qed.

Lemma peek_is_beyond (tokens : list string) (pos : nat) (w : string) :
  length tokens <= pos -> peek_is tokens pos w = false.
Proof.
  intros H. unfold peek_is, _peek. now rewrite (proj2 (lookup_ge_None tokens pos) H).
Qed.

Lemma atom_at_end (tokens : list string) (f pos : nat) :
  length tokens <= pos ->
  _parse_atom tokens (S f) pos = Raise (ExpressionError UnexpectedEnd).
Proof.
  intros H. simpl. unfold _peek. now rewrite (proj2 (lookup_ge_None tokens pos) H).
Qed.

Lemma not_at_end (tokens : list string) (f pos : nat) :
  length tokens <= pos ->
  _parse_not tokens (S (S (S f))) pos = Raise (ExpressionError UnexpectedEnd).
Proof.
  intros H. cbn [_parse_not _parse_comparison].
  now rewrite (peek_is_beyond _ _ _ H), (atom_at_end _ _ _ H).
Qed.

(** X3.  An operator or a keyword with nothing after it: a comparison
    operator after an atom, [and] after an and-expression, [or] after an
    or-expression and [not] alone all end with the error of an
    unexpected end of expression. *)
Theorem missing_operand_raises (e : expr) (o : operator) :
  (fits 4 e = true ->
   parse (tokens_of e ++ [operator_text o]) = Raise (ExpressionError UnexpectedEnd))
  /\ (fits 1 e = true ->
      parse (tokens_of e ++ ["and"]) = Raise (ExpressionError UnexpectedEnd))
  /\ (fits 0 e = true ->
      parse (tokens_of e ++ ["or"]) = Raise (ExpressionError UnexpectedEnd))
  /\ parse ["not"] = Raise (ExpressionError UnexpectedEnd).
Proof.
  split; [|split; [|split]].
  - intros Hfit. set (tokens := (tokens_of e ++ [operator_text o])%list).
    assert (tokens !! length (tokens_of e) = Some (operator_text o)) as Hop.
    { subst tokens. rewrite lookup_app_r by lia. now rewrite Nat.sub_diag. }
    assert (length tokens = length (tokens_of e) + 1) as Hlen
      by (subst tokens; rewrite length_app; simpl; lia).
    destruct (parser_follows_grammar e tokens 0 (occurs_at_prefix _ _)) as (Hatom & _).
    destruct (Hatom Hfit) as [n Hn]. simpl in Hn.
    apply parse_raise_intro with (f := S (S (S (S (S n))))).
    cbn [_parse_or _parse_and _parse_not _parse_comparison].
    destruct (comparison_first_token e (fits_le e 4 3 ltac:(lia) Hfit))
      as (h & tl & Heq & Hh).
    assert (tokens !! 0 = Some h) as Hhead by (subst tokens; now rewrite Heq).
    rewrite (peek_is_at _ _ _ _ Hhead), Hh.
    rewrite (Hn (S n)) by lia.
    cbn [out_bind]. rewrite (peek_in_at _ _ _ _ Hop), operator_text_in_ops.
    unfold _consume. rewrite Hop. cbn [out_bind].
    rewrite atom_at_end by lia. reflexivity.
  - intros Hfit. set (tokens := (tokens_of e ++ ["and"])%list).
    assert (tokens !! length (tokens_of e) = Some "and") as Hkw.
    { subst tokens. rewrite lookup_app_r by lia. now rewrite Nat.sub_diag. }
    assert (length tokens = length (tokens_of e) + 1) as Hlen
      by (subst tokens; rewrite length_app; simpl; lia).
    destruct (parser_follows_grammar e tokens 0 (occurs_at_prefix _ _))
      as (_ & _ & _ & Hand & _).
    simpl in Hand. specialize (Hand Hfit).
    rewrite (peek_in_at _ _ _ _ Hkw) in Hand. specialize (Hand eq_refl).
    assert (_parse_and_loop tokens 4 (value_of e) (length (tokens_of e))
            = Raise (ExpressionError UnexpectedEnd)) as Hloop.
    { cbn [_parse_and_loop]. rewrite (peek_is_at _ _ _ _ Hkw). simpl String.eqb.
      cbv iota. unfold _consume. rewrite Hkw. cbn [out_bind].
      rewrite not_at_end by lia. reflexivity. }
    destruct (Hand 4) as [f Hf]; [rewrite Hloop; discriminate|].
    rewrite Hloop in Hf. apply parse_raise_intro with (f := S f).
    cbn [_parse_or]. now rewrite Hf.
  - intros Hfit. set (tokens := (tokens_of e ++ ["or"])%list).
    assert (tokens !! length (tokens_of e) = Some "or") as Hkw.
    { subst tokens. rewrite lookup_app_r by lia. now rewrite Nat.sub_diag. }
    assert (length tokens = length (tokens_of e) + 1) as Hlen
      by (subst tokens; rewrite length_app; simpl; lia).
    destruct (parser_follows_grammar e tokens 0 (occurs_at_prefix _ _))
      as (_ & _ & _ & _ & Hor).
    simpl in Hor. specialize (Hor Hfit).
    rewrite (peek_in_at _ _ _ _ Hkw), (peek_is_at _ _ _ _ Hkw) in Hor.
    specialize (Hor eq_refl eq_refl).
    assert (_parse_or_loop tokens 5 (value_of e) (length (tokens_of e))
            = Raise (ExpressionError UnexpectedEnd)) as Hloop.
    { cbn [_parse_or_loop]. rewrite (peek_is_at _ _ _ _ Hkw). simpl String.eqb.
      cbv iota. unfold _consume. rewrite Hkw. cbn [out_bind _parse_and].
      rewrite not_at_end by lia. reflexivity. }
    destruct (Hor 5) as [f Hf]; [rewrite Hloop; discriminate|].
    rewrite Hloop in Hf. now apply parse_raise_intro with (f := f).
  - reflexivity.
Qed.

Lemma unbalanced_parentheses_value (ts : list string) (b : bool) :
  parse ts = Return b -> parse ("(" :: ts ++ [")"]) = Return b.
Proof.
  intros Hp. set (f := enough_fuel (length ts)).
  pose proof (atom_paren [] ts [] f b Hp (Nat.le_refl _)) as Hatom.
  cbn [app length Nat.add] in Hatom.
  assert (length ("(" :: ts ++ [")"]) = length ts + 2) as Hlen
    by (simpl; rewrite length_app; simpl; lia).
  apply parse_intro with (f := S (S (S (S (S f))))). rewrite Hlen.
  apply parse_or_comparison.
  - rewrite <- (is_truthy_bool_text b) at 1.
    apply comparison_bare; [exact Hatom|]. rewrite <- Hlen. apply peek_in_end.
  - reflexivity.
  - rewrite <- Hlen. apply peek_is_end.
  - rewrite <- Hlen. apply peek_is_end.
Qed.

Lemma unclosed_parenthesis (ts : list string) (b : bool) :
  parse ts = Return b -> parse ("(" :: ts) = Raise (ExpressionError ExpectedCloseParen).
Proof.
  intros Hp. apply parse_Return_inv in Hp.
  pose proof (parse_or_embedded ["("] ts [] eq_refl _ (enough_fuel (length ts)) b Hp
                (Nat.le_refl _)) as Hor.
  rewrite app_nil_r in Hor. cbn [app length] in Hor.
  apply parse_raise_intro with (f := S (S (S (S (S (enough_fuel (length ts))))))).
  apply raise_from_atom; [|reflexivity].
  cbn [_parse_atom]. unfold _peek, _consume. cbn [lookup list_lookup String.eqb].
  simpl. rewrite Hor. cbn [out_bind].
  rewrite peek_is_beyond by (simpl; lia). reflexivity.
Qed.

(** X4.  Parentheses about a complete expression keep its value; without
    the closing one the parser asks for it, and a closing one too many
    is a token it does not expect. *)
Theorem unbalanced_parentheses (ts : list string) (b : bool) :
  parse ts = Return b ->
  parse ("(" :: ts ++ [")"]) = Return b
  /\ parse ("(" :: ts) = Raise (ExpressionError ExpectedCloseParen)
  /\ parse (ts ++ [")"]) = Raise (ExpressionError (UnexpectedToken ")" (length ts))).
Proof.
  intros Hp. split; [|split].
  - now apply unbalanced_parentheses_value.
  - now apply unclosed_parenthesis with (b := b).
  - now apply (parse_trailing_token ts b ")").
Qed.

(** X5.  Where a value is expected at the start of the tokens, or right
    after an opening parenthesis, a binary keyword is refused as a
    keyword and an operator or a closing parenthesis as an operator. *)
Theorem value_expected (t : string) (rest : list string) :
  (Py.in_tuple t ["and"; "or"] = true ->
   parse (t :: rest) = Raise (ExpressionError (UnexpectedKeyword t))
   /\ parse ("(" :: t :: rest) = Raise (ExpressionError (UnexpectedKeyword t)))
  /\ (Py.in_tuple t [")"; "=="; "!="; "<"; ">"; ">="; "<="] = true ->
      parse (t :: rest) = Raise (ExpressionError (UnexpectedOperator t))
      /\ parse ("(" :: t :: rest) = Raise (ExpressionError (UnexpectedOperator t))).
Proof.
  split; intros H.
  - assert (t = "and" \/ t = "or") as [-> | ->].
    { simpl in H. rewrite orb_false_r in H. apply orb_true_iff in H.
      destruct H as [H|H]; apply String.eqb_eq in H; auto. }
    + split; [apply parse_raise_intro with (f := 5); reflexivity
             | apply parse_raise_intro with (f := 10); reflexivity].
    + split; [apply parse_raise_intro with (f := 5); reflexivity
             | apply parse_raise_intro with (f := 10); reflexivity].
  - simpl in H. rewrite orb_false_r in H.
    repeat (apply orb_true_iff in H as [H|H]).
    all: apply String.eqb_eq in H as ->.
    all: split; [apply parse_raise_intro with (f := 5); reflexivity
                | apply parse_raise_intro with (f := 10); reflexivity].
Qed.

(** ** Boolean connectives about parenthesised expressions *)

Lemma paren_returns_atom (pre ts post : list string) (b : bool) :
  parse ts = Return b ->
  returns_at (_parse_atom (pre ++ "(" :: ts ++ ")" :: post))
    (length pre) (length pre + length ts + 2) (bool_text b).
Proof.
  intros Hp. exists (S (enough_fuel (length ts))). intros [|f] Hf; [lia|].
  apply atom_paren; [assumption | lia].
Qed.

Lemma paren_returns_not (pre ts post : list string) (b : bool) :
  parse ts = Return b ->
  let tokens := (pre ++ "(" :: ts ++ ")" :: post)%list in
  peek_in tokens (length pre + length ts + 2) COMPARISON_OPS = false ->
  returns_at (_parse_not tokens) (length pre) (length pre + length ts + 2) b.
Proof.
  intros Hp tokens Hpeek. apply not_lift_at.
  - rewrite <- (is_truthy_bool_text b). apply comparison_bare_at; [|assumption].
    now apply paren_returns_atom.
  - assert (tokens !! length pre = Some "(") as H0.
    { subst tokens. rewrite lookup_app_r by lia. now rewrite Nat.sub_diag. }
    now rewrite (peek_is_at _ _ _ _ H0).
Qed.

Lemma parse_from_or (tokens : list string) (v : bool) :
  continues_at (_parse_or tokens) (_parse_or_loop tokens) 0 (length tokens) v ->
  parse tokens = Return v.
Proof.
  intros H. apply or_result_at in H; [|apply peek_is_end].
  destruct (returns_at_le _ _ _ _ H) as [f Hf]. now apply parse_intro with (f := f).
Qed.

Lemma parse_from_not (tokens : list string) (v : bool) :
  returns_at (_parse_not tokens) 0 (length tokens) v -> parse tokens = Return v.
Proof.
  intros H. apply parse_from_or. apply or_lift_at; [|apply peek_is_end].
  now apply and_lift_at.
Qed.

Lemma parse_not_paren (ts : list string) (b : bool) :
  parse ts = Return b -> parse ("not" :: "(" :: ts ++ [")"]) = Return (negb b).
Proof.
  intros Hp. set (tokens := ("not" :: "(" :: ts ++ [")"])%list).
  assert (length tokens = 1 + length ts + 2) as Hlen
    by (subst tokens; simpl; rewrite length_app; simpl; lia).
  apply parse_from_not. apply not_step_at; [reflexivity|]. rewrite Hlen.
  apply (paren_returns_not ["not"] ts [] b Hp).
  cbn [app length]. fold tokens. rewrite <- Hlen. apply peek_in_end.
Qed.

Section TwoOperands.

Variables (tp tq : list string) (bp bq : bool) (kw : string).
Hypothesis parse_p : parse tp = Return bp.
Hypothesis parse_q : parse tq = Return bq.

Let tokens := ("(" :: tp ++ ")" :: kw :: "(" :: tq ++ [")"])%list.

Lemma two_operands_length : length tokens = length tp + 2 + 1 + length tq + 2.
Proof. subst tokens. simpl. rewrite length_app. simpl. rewrite length_app. simpl. lia. Qed.

Lemma two_operands_keyword : tokens !! (length tp + 2) = Some kw.
Proof.
  subst tokens. rewrite app_comm_cons, lookup_app_r by (simpl; lia).
  simpl. now replace (length tp + 2 - S (length tp)) with 1 by lia.
Qed.

Lemma two_operands_left :
  Py.in_tuple kw COMPARISON_OPS = false ->
  returns_at (_parse_not tokens) 0 (length tp + 2) bp.
Proof.
  intros Hkw. apply (paren_returns_not [] tp (kw :: "(" :: tq ++ [")"]) bp parse_p).
  cbn [app length Nat.add]. fold tokens.
  now rewrite (peek_in_at _ _ _ _ two_operands_keyword).
Qed.

Lemma two_operands_right :
  returns_at (_parse_not tokens) (length tp + 2 + 1) (length tokens) bq.
Proof.
  assert (tokens = (("(" :: tp ++ [")"; kw]) ++ "(" :: tq ++ [")"])%list) as Htok.
  { subst tokens. simpl. f_equal. now rewrite <- app_assoc. }
  pose proof (paren_returns_not ("(" :: tp ++ [")"; kw]) tq [] bq parse_q) as H.
  cbv zeta in H. rewrite <- Htok in H.
  assert (length ("(" :: tp ++ [")"; kw]) = length tp + 2 + 1) as Hpre
    by (simpl; rewrite length_app; simpl; lia).
  rewrite Hpre in H.
  replace (length tp + 2 + 1 + length tq + 2) with (length tokens) in H
    by (rewrite two_operands_length; lia).
  apply H. apply peek_in_end.
Qed.

End TwoOperands.

Lemma parse_and_parens (tp tq : list string) (bp bq : bool) :
  parse tp = Return bp -> parse tq = Return bq ->
  parse ("(" :: tp ++ ")" :: "and" :: "(" :: tq ++ [")"]) = Return (bp && bq).
Proof.
  intros Hp Hq. apply parse_from_or. apply or_lift_at; [|apply peek_is_end].
  eapply and_step_at.
  - apply and_lift_at. now apply (two_operands_left tp tq bp "and" Hp).
  - apply two_operands_keyword.
  - now apply two_operands_right.
Qed.

Lemma parse_or_parens (tp tq : list string) (bp bq : bool) :
  parse tp = Return bp -> parse tq = Return bq ->
  parse ("(" :: tp ++ ")" :: "or" :: "(" :: tq ++ [")"]) = Return (bp || bq).
Proof.
  intros Hp Hq. apply parse_from_or.
  eapply or_step_at.
  - apply or_lift_at.
    + apply and_lift_at. now apply (two_operands_left tp tq bp "or" Hp).
    + now rewrite (peek_is_at _ _ _ _ (two_operands_keyword tp tq "or")).
  - apply two_operands_keyword.
  - apply and_lift_at. now apply two_operands_right.
  - apply peek_is_end.
Qed.

(** ** The same on the text of an expression *)

Lemma Scan_then (k1 : string) (ts1 : list string) (k2 : string) (ts2 : list string)
    (r : string) :
  Scan k1 ts1 "" ->
  head_is is_word_char (k2 +:+ r) = false ->
  head_is (Ascii.eqb "=") (k2 +:+ r) = false ->
  Scan k2 ts2 r ->
  Scan (k1 +:+ k2) (ts1 ++ ts2) r.
Proof.
  intros H1 Hw He H2.
  apply (Scan_trans k1 ts1 k2 ts2 r (k2 +:+ r)); [|reflexivity|assumption].
  now apply Scan_extend.
Qed.

Lemma evaluate_scanned (e s : string) (ts : list string) (c : context) :
  substituted_text e c = Return s ->
  head_is not_space s = true -> last_is not_space s = true ->
  Scan s ts "" ->
  evaluate_condition e c = (parse ts, c).
Proof.
  intros Hs Hh Hl Hscan.
  rewrite (evaluate_condition_substituted e s c Hs (head_not_space_not_blank _ Hh)).
  now rewrite <- evaluate_expression_strip, (evaluate_expression_tokens s ts).
Qed.

Lemma substituted_in_parens (pre p sp : string) (c : context) :
  Py.contains_char "{" pre = false ->
  substituted_text p c = Return sp ->
  forall post post',
    breaks_reference post = true ->
    substituted_text post c = Return post' ->
    substituted_text (pre +:+ p +:+ post) c = Return (pre +:+ sp +:+ post').
Proof.
  intros Hpre Hs post post' Hbreak Hpost.
  rewrite (substituted_text_prefix pre) by assumption.
  rewrite substituted_text_app by assumption. now rewrite Hs, Hpost.
Qed.

Lemma Scan_close : Scan ")" [")"] "".
Proof. apply (Scan_paren ")" _ _ "" eq_refl). constructor. Qed.

Lemma Scan_closed (s : string) (ts : list string) :
  Scan s ts "" -> Scan (s +:+ ")") (ts ++ [")"]) "".
Proof.
  intros H. apply Scan_then; [assumption | reflexivity | reflexivity | apply Scan_close].
Qed.

(** X6.  [(p)] keeps the value of [p], and [not (p)] is its negation. *)
Theorem evaluate_paren (p : string) (c : context) (b : bool) :
  valid_subexpression p c b ->
  evaluate_condition ("(" +:+ p +:+ ")") c = (Return b, c)
  /\ evaluate_condition ("not (" +:+ p +:+ ")") c = (Return (negb b), c).
Proof.
  intros Hv. destruct (valid_subexpression_Scan _ _ _ Hv) as (s & ts & Hs & Hscan & Hparse).
  split.
  - rewrite (evaluate_scanned _ ("(" +:+ s +:+ ")") ("(" :: ts ++ [")"])).
    + f_equal. now apply unbalanced_parentheses_value.
    + now apply substituted_in_parens.
    + reflexivity.
    + rewrite <- append_assoc. now rewrite last_is_append.
    + apply (Scan_paren "(" _ _ "" eq_refl). now apply Scan_closed.
  - rewrite (evaluate_scanned _ ("not (" +:+ s +:+ ")") ("not" :: "(" :: ts ++ [")"])).
    + f_equal. now apply parse_not_paren.
    + now apply substituted_in_parens.
    + reflexivity.
    + rewrite <- append_assoc. now rewrite last_is_append.
    + apply (Scan_word "not" (" (" +:+ s +:+ ")") ("(" :: ts ++ [")"]) "");
        [discriminate | reflexivity | reflexivity |].
      apply (Scan_space " " _ _ "" eq_refl).
      apply (Scan_paren "(" _ _ "" eq_refl). now apply Scan_closed.
Qed.

Lemma Scan_keyword_between (kw s : string) (ts : list string) :
  is_word_text kw = true ->
  Scan s ts "" ->
  Scan (") " +:+ kw +:+ " (" +:+ s +:+ ")") (")" :: kw :: "(" :: ts ++ [")"]) "".
Proof.
  intros Hkw Hscan.
  apply (Scan_paren ")" _ _ "" eq_refl). apply (Scan_space " " _ _ "" eq_refl).
  apply andb_true_iff in Hkw as [Hne Hchars].
  apply (Scan_word kw (" (" +:+ s +:+ ")") ("(" :: ts ++ [")"]) "");
    [now destruct kw | assumption | reflexivity |].
  apply (Scan_space " " _ _ "" eq_refl).
  apply (Scan_paren "(" _ _ "" eq_refl). now apply Scan_closed.
Qed.

(** Two parenthesised sub-expressions about a keyword. *)
Lemma evaluate_between (kw p q : string) (c : context) (sp sq : string)
    (tp tq : list string) :
  is_word_text kw = true ->
  substituted_text p c = Return sp -> Scan sp tp "" ->
  substituted_text q c = Return sq -> Scan sq tq "" ->
  evaluate_condition ("(" +:+ p +:+ ") " +:+ kw +:+ " (" +:+ q +:+ ")") c
  = (parse ("(" :: tp ++ ")" :: kw :: "(" :: tq ++ [")"]), c).
Proof.
  intros Hkw Hsp Hscanp Hsq Hscanq.
  assert (Py.contains_char "{" kw = false) as Hbrace.
  { apply andb_true_iff in Hkw as [_ Hchars]. clear -Hchars.
    induction kw as [|ch kw IH]; [reflexivity|]. cbn [Py.all_chars Py.contains_char] in *.
    apply andb_true_iff in Hchars as [Hch Hrest]. rewrite (IH Hrest), orb_false_r.
    destruct (Ascii.eqb_spec "{" ch) as [<-|]; [discriminate | reflexivity]. }
  apply (evaluate_scanned _ ("(" +:+ sp +:+ ") " +:+ kw +:+ " (" +:+ sq +:+ ")")).
  - apply substituted_in_parens; [reflexivity | assumption | reflexivity |].
    replace (") " +:+ kw +:+ " (" +:+ q +:+ ")")
      with ((") " +:+ kw +:+ " (") +:+ q +:+ ")") by now rewrite !append_assoc.
    replace (") " +:+ kw +:+ " (" +:+ sq +:+ ")")
      with ((") " +:+ kw +:+ " (") +:+ sq +:+ ")") by now rewrite !append_assoc.
    apply substituted_in_parens; try reflexivity; [|assumption].
    now rewrite !contains_char_append, Hbrace.
  - reflexivity.
  - rewrite <- !append_assoc. now rewrite last_is_append.
  - apply (Scan_paren "(" _ _ "" eq_refl).
    apply Scan_then; [assumption | reflexivity | reflexivity |].
    now apply Scan_keyword_between.
Qed.

(** X7.  [(p) and (q)] is the conjunction and [(p) or (q)] the disjunction of
    the values of [p] and [q]. *)
Theorem evaluate_and_or (p q : string) (c : context) (bp bq : bool) :
  valid_subexpression p c bp -> valid_subexpression q c bq ->
  evaluate_condition ("(" +:+ p +:+ ") and (" +:+ q +:+ ")") c = (Return (bp && bq), c)
  /\ evaluate_condition ("(" +:+ p +:+ ") or (" +:+ q +:+ ")") c = (Return (bp || bq), c).
Proof.
  intros Hp Hq.
  destruct (valid_subexpression_Scan _ _ _ Hp) as (sp & tp & Hsp & Hscanp & Hparsep).
  destruct (valid_subexpression_Scan _ _ _ Hq) as (sq & tq & Hsq & Hscanq & Hparseq).
  split.
  - rewrite <- (parse_and_parens tp tq bp bq Hparsep Hparseq).
    now apply (evaluate_between "and" p q c sp sq tp tq).
  - rewrite <- (parse_or_parens tp tq bp bq Hparsep Hparseq).
    now apply (evaluate_between "or" p q c sp sq tp tq).
Qed.

(** ** White space about an expression, and expressions without references *)

Lemma evaluate_condition_cases (e : string) (c : context) :
  Py.all_chars Py.isspace e = false ->
  evaluate_condition e c
  = match substituted_text e c with
    | Return s => (_evaluate_expression s, c)
    | Raise x => (Raise x, c)
    | OutOfFuel => (OutOfFuel, c)
    end.
Proof.
  intros He. rewrite (evaluate_condition_not_blank _ _ He).
  unfold ctx_bind. rewrite substitute_text.
  destruct (substituted_text e c); try reflexivity.
  unfold ctx_lift. now rewrite evaluate_expression_strip.
Qed.

Lemma rstrip_append_spaces (x w : string) :
  Py.all_chars Py.isspace w = true -> Py.rstrip (x +:+ w) = Py.rstrip x.
Proof.
  intros Hw. induction x as [|ch x IH].
  - rewrite append_nil_l. now apply rstrip_spaces.
  - rewrite append_cons. cbn [Py.rstrip]. now rewrite IH.
Qed.

Lemma lstrip_blank (s : string) : Py.all_chars Py.isspace s = true -> Py.lstrip s = "".
Proof.
  induction s as [|ch s IH]; [reflexivity|]. cbn [Py.all_chars Py.lstrip].
  intros H. apply andb_true_iff in H as [-> Hs]. now apply IH.
Qed.

Lemma lstrip_append (s w : string) :
  Py.all_chars Py.isspace s = false -> Py.lstrip (s +:+ w) = Py.lstrip s +:+ w.
Proof.
  induction s as [|ch s IH]; [discriminate|]. rewrite append_cons.
  cbn [Py.all_chars Py.lstrip]. destruct (Py.isspace ch); [exact IH|].
  intros _. now rewrite append_cons.
Qed.

Lemma strip_padding (w0 s w3 : string) :
  Py.all_chars Py.isspace w0 = true -> Py.all_chars Py.isspace w3 = true ->
  Py.strip (w0 +:+ s +:+ w3) = Py.strip s.
Proof.
  intros H0 H3. unfold Py.strip. rewrite (lstrip_spaces _ _ H0).
  destruct (Py.all_chars Py.isspace s) eqn:Hs.
  - rewrite !lstrip_blank; [reflexivity | assumption |].
    now rewrite all_chars_append, Hs, H3.
  - rewrite (lstrip_append _ _ Hs). now apply rstrip_append_spaces.
Qed.

Lemma evaluate_expression_padding (w0 s w3 : string) :
  Py.all_chars Py.isspace w0 = true -> Py.all_chars Py.isspace w3 = true ->
  _evaluate_expression (w0 +:+ s +:+ w3) = _evaluate_expression s.
Proof.
  intros H0 H3. rewrite <- evaluate_expression_strip, strip_padding by assumption.
  apply evaluate_expression_strip.
Qed.

Lemma blank_breaks_reference (w : string) :
  Py.all_chars Py.isspace w = true -> breaks_reference w = true.
Proof.
  destruct w as [|ch w]; [reflexivity|]. cbn [Py.all_chars]. intros H.
  apply andb_true_iff in H as [Hch _]. unfold breaks_reference. cbn [head_is].
  apply negb_true_iff. unfold is_reference_char, Py.is_word.
  revert Hch. generalize ch. clear.
  intros ch. destruct ch as [[] [] [] [] [] [] [] []]; vm_compute; congruence.
Qed.

Lemma substituted_text_padding (w0 e w3 : string) (c : context) :
  Py.all_chars Py.isspace w0 = true -> Py.all_chars Py.isspace w3 = true ->
  substituted_text (w0 +:+ e +:+ w3) c
  = let* s := substituted_text e c in Return (w0 +:+ s +:+ w3).
Proof.
  intros H0 H3. rewrite (substituted_text_prefix w0) by now apply blank_has_no_brace.
  rewrite substituted_text_app by now apply blank_breaks_reference.
  rewrite (substituted_text_plain w3) by now apply blank_has_no_brace.
  now destruct (substituted_text e c).
Qed.

(** X8.  White space before and after an expression changes nothing. *)
Theorem padding_is_ignored (w0 e w3 : string) (c : context) :
  Py.all_chars Py.isspace w0 = true -> Py.all_chars Py.isspace w3 = true ->
  evaluate_condition (w0 +:+ e +:+ w3) c = evaluate_condition e c.
Proof.
  intros H0 H3. destruct (Py.all_chars Py.isspace e) eqn:He.
  - assert (Py.all_chars Py.isspace (w0 +:+ e +:+ w3) = true) as Hall
      by now rewrite !all_chars_append, H0, He, H3.
    unfold evaluate_condition.
    now rewrite (strip_blank _ Hall), (strip_blank _ He), !orb_true_r.
  - assert (Py.all_chars Py.isspace (w0 +:+ e +:+ w3) = false) as Hall
      by now rewrite !all_chars_append, He, andb_false_r.
    rewrite !evaluate_condition_cases by assumption.
    rewrite substituted_text_padding by assumption.
    destruct (substituted_text e c) as [s| |]; try reflexivity.
    cbn [out_bind]. now rewrite evaluate_expression_padding.
Qed.

(** X9.  An expression without an opening brace has no references: it is
    evaluated as it is written, the same in every context. *)
Theorem expression_without_references (e : string) (c c' : context) :
  Py.contains_char "{" e = false ->
  evaluate_condition e c = (_evaluate_expression e, c)
  /\ fst (evaluate_condition e c) = fst (evaluate_condition e c').
Proof.
  intros He.
  assert (forall k, evaluate_condition e k = (_evaluate_expression e, k)) as H.
  { intros k. destruct (Py.all_chars Py.isspace e) eqn:Hb.
    - unfold evaluate_condition, _evaluate_expression.
      now rewrite (strip_blank _ Hb), orb_true_r.
    - rewrite evaluate_condition_cases by assumption.
      now rewrite substituted_text_plain. }
  split; [apply H | now rewrite !H].
Qed.

(** ** What the tokenizer returns *)

Lemma closes_quote_intro (q : ascii) (body : string) :
  Py.contains_char q body = false -> closes_quote q (body +:+ String q "") = true.
Proof.
  induction body as [|ch body IH]; intros H.
  - rewrite append_nil_l. cbn. apply Ascii.eqb_refl.
  - cbn [Py.contains_char] in H. apply orb_false_iff in H as [Hch Hbody].
    rewrite append_cons.
    assert (exists a s, body +:+ String q "" = String a s) as (a & s & E)
      by (destruct body; rewrite ?append_nil_l, ?append_cons; eauto).
    specialize (IH Hbody). rewrite E in *.
    change (closes_quote q (String ch (String a s)))
      with (negb (Ascii.eqb ch q) && closes_quote q (String a s)).
    rewrite IH, andb_true_r. apply negb_true_iff. now rewrite Ascii.eqb_sym.
Qed.

Lemma token_text_paren (ch : ascii) :
  is_paren ch = true -> is_token_text (String ch "") = true.
Proof.
  unfold is_paren. intros H. apply orb_true_iff in H as [H|H];
    apply Ascii.eqb_eq in H as ->; reflexivity.
Qed.

Lemma token_text_angle (ch : ascii) :
  is_angle ch = true -> is_token_text (String ch "") = true.
Proof.
  unfold is_angle. intros H. apply orb_true_iff in H as [H|H];
    apply Ascii.eqb_eq in H as ->; reflexivity.
Qed.

Lemma token_text_op2 (op : string) :
  Py.in_tuple op TWO_CHAR_OPS = true -> is_token_text op = true.
Proof.
  intros H. simpl in H. rewrite orb_false_r in H.
  repeat (apply orb_true_iff in H as [H|H]).
  all: apply String.eqb_eq in H as ->; reflexivity.
Qed.

Lemma Scan_token_texts (k : string) (ts : list string) (r : string) :
  Scan k ts r -> Forall (fun t => is_token_text t = true) ts.
Proof.
  induction 1 as [r|ch k ts r Hch _ IH|q body k ts r Hq Hbody _ IH|ch k ts r Hch _ IH
                 |op k ts r Hop _ IH|ch k ts r Hch Hnext _ IH|w k ts r Hne Hw Hnext _ IH];
    try constructor; try assumption.
  - unfold is_token_text, is_literal_text.
    rewrite Hq, (closes_quote_intro _ _ Hbody). cbn [andb]. now rewrite orb_true_r.
  - now apply token_text_paren.
  - now apply token_text_op2.
  - now apply token_text_angle.
  - unfold is_token_text, is_word_text. rewrite Hw, andb_true_r.
    destruct w; [congruence|]. cbn [Py.is_empty negb]. now rewrite orb_true_r.
Qed.

(** A token alone is read back as itself. *)
Lemma Scan_token (t r : string) :
  is_token_text t = true ->
  head_is is_word_char r = false -> head_is (Ascii.eqb "=") r = false ->
  Scan t [t] r.
Proof.
  unfold is_token_text. intros H Hw He.
  apply orb_true_iff in H as [H|H]; [apply orb_true_iff in H as [H|H]|].
  - simpl in H. rewrite orb_false_r in H.
    repeat (apply orb_true_iff in H as [H|H]).
    all: apply String.eqb_eq in H as ->.
    + apply (Scan_paren "(" "" [] r eq_refl). constructor.
    + apply (Scan_paren ")" "" [] r eq_refl). constructor.
    + apply (Scan_op2 "==" "" [] r eq_refl). constructor.
    + apply (Scan_op2 "!=" "" [] r eq_refl). constructor.
    + apply (Scan_op2 ">=" "" [] r eq_refl). constructor.
    + apply (Scan_op2 "<=" "" [] r eq_refl). constructor.
    + apply (Scan_angle "<" "" [] r eq_refl); [exact He | constructor].
    + apply (Scan_angle ">" "" [] r eq_refl); [exact He | constructor].
  - now apply Scan_literal.
  - now apply Scan_word_text.
Qed.

Lemma concat_cons2 (sep x y : string) (l : list string) :
  String.concat sep (x :: y :: l) = x +:+ sep +:+ String.concat sep (y :: l).
Proof. reflexivity. Qed.

Lemma Scan_join (ts : list string) :
  Forall (fun t => is_token_text t = true) ts -> Scan (String.concat " " ts) ts "".
Proof.
  induction ts as [|x [|y l] IH]; intros H.
  - constructor.
  - apply Forall_cons in H as [Hx _]. now apply Scan_token.
  - apply Forall_cons in H as [Hx Hrest]. rewrite concat_cons2.
    set (rest := String.concat " " (y :: l)) in *.
    apply (Scan_trans x [x] (" " +:+ rest) (y :: l) "" (" " +:+ rest));
      [|symmetry; apply append_nil_r|].
    + now apply Scan_token.
    + apply (Scan_space " " _ _ "" eq_refl). now apply IH.
Qed.

(** X10.  The tokens are parentheses, operators, quoted literals and words,
    never an empty text; two texts that tokenize, joined by white space,
    give the tokens of the one followed by those of the other; and the
    tokens written with single spaces between them tokenize to
    themselves. *)
Theorem tokenize_round_trip (e : string) (ts : list string) :
  _tokenize e = Return ts ->
  Forall (fun t => is_token_text t = true /\ t <> "") ts
  /\ _tokenize (String.concat " " ts) = Return ts
  /\ (forall (w e' : string) (ts' : list string),
        w <> "" -> Py.all_chars Py.isspace w = true ->
        _tokenize e' = Return ts' ->
        _tokenize (e +:+ w +:+ e') = Return (ts ++ ts')%list).
Proof.
  intros Htok. pose proof (tokenize_Scan _ _ Htok) as Hscan.
  pose proof (Scan_token_texts _ _ _ Hscan) as Hshape.
  split; [|split].
  - eapply Forall_impl; [exact Hshape|]. intros t Ht. split; [assumption|].
    intros ->. discriminate.
  - now apply Scan_tokenize, Scan_join.
  - intros w e' ts' Hne Hw Htok'. apply Scan_tokenize.
    assert (head_is is_word_char (w +:+ e') = false
            /\ head_is (Ascii.eqb "=") (w +:+ e') = false) as [H1 H2].
    { destruct w as [|ch w]; [congruence|]. cbn [Py.all_chars] in Hw.
      apply andb_true_iff in Hw as [Hch _]. rewrite append_cons. cbn [head_is].
      now apply space_not_word. }
    apply Scan_then; rewrite ?append_nil_r; try assumption.
    apply (Scan_trans w [] e' ts' "" (e' +:+ ""));
      [now apply Scan_spaces | reflexivity | now apply tokenize_Scan].
Qed.

(** ** Expressions of the grammar, written as text *)

Lemma atom_text_token_text (a : string) : is_atom_text a = true -> is_token_text a = true.
Proof.
  unfold is_atom_text, is_token_text. intros H.
  apply orb_true_iff in H as [H|H].
  - now rewrite H, orb_true_r.
  - apply andb_true_iff in H as [H _]. now rewrite H, !orb_true_r.
Qed.

Lemma operator_token_text (o : operator) : is_token_text (operator_text o) = true.
Proof. now destruct o. Qed.

Lemma tokens_of_texts (e : expr) :
  atoms_are_texts e = true -> Forall (fun t => is_token_text t = true) (tokens_of e).
Proof.
  induction e as [t|inner IH|l IHl o r IHr|operand IH|l IHl r IHr|l IHl r IHr];
    cbn [atoms_are_texts tokens_of]; intros H.
  - constructor; [now apply atom_text_token_text | constructor].
  - constructor; [reflexivity|]. apply Forall_app. split; [now apply IH|].
    constructor; [reflexivity | constructor].
  - apply andb_true_iff in H as [Hl Hr]. apply Forall_app. split; [now apply IHl|].
    constructor; [apply operator_token_text | now apply IHr].
  - constructor; [reflexivity | now apply IH].
  - apply andb_true_iff in H as [Hl Hr]. apply Forall_app. split; [now apply IHl|].
    constructor; [reflexivity | now apply IHr].
  - apply andb_true_iff in H as [Hl Hr]. apply Forall_app. split; [now apply IHl|].
    constructor; [reflexivity | now apply IHr].
Qed.

Lemma token_text_ends (t : string) :
  is_token_text t = true ->
  head_is not_space t = true /\ last_is not_space t = true.
Proof.
  unfold is_token_text. intros H.
  apply orb_true_iff in H as [H|H]; [apply orb_true_iff in H as [H|H]|].
  - simpl in H. rewrite orb_false_r in H.
    repeat (apply orb_true_iff in H as [H|H]).
    all: apply String.eqb_eq in H as ->; split; reflexivity.
  - destruct (atom_text_ends t) as (Hh & Hl & _); [|now split].
    unfold is_atom_text. now rewrite H.
  - apply andb_true_iff in H as [Hne Hw]. destruct t as [|ch t]; [discriminate|].
    split.
    + cbn [head_is]. cbn [Py.all_chars] in Hw. apply andb_true_iff in Hw as [Hch _].
      now apply word_char_not_space.
    + apply all_chars_last; [discriminate|].
      eapply all_chars_impl; [|exact Hw]. apply word_char_not_space.
Qed.

Lemma concat_ends (ts : list string) :
  ts <> [] -> Forall (fun t => is_token_text t = true) ts ->
  head_is not_space (String.concat " " ts) = true
  /\ last_is not_space (String.concat " " ts) = true.
Proof.
  induction ts as [|x [|y l] IH]; intros Hne H; [congruence| |].
  - apply Forall_cons in H as [Hx _]. now apply token_text_ends.
  - apply Forall_cons in H as [Hx Hrest]. rewrite concat_cons2.
    destruct (token_text_ends x Hx) as [Hh _].
    destruct (IH ltac:(discriminate) Hrest) as [Hh' Hl'].
    set (rest := String.concat " " (y :: l)) in *.
    assert (rest <> "") as Hrest_ne by (destruct rest; [discriminate | discriminate]).
    split.
    + destruct x; [discriminate | exact Hh].
    + rewrite last_is_append by (destruct rest; discriminate).
      rewrite (last_is_append _ " " rest) by assumption. exact Hl'.
Qed.

Lemma tokens_of_not_nil (e : expr) : tokens_of e <> [].
Proof.
  destruct e; cbn [tokens_of]; try discriminate.
  all: match goal with |- (?a ++ _)%list <> _ => destruct a; discriminate end.
Qed.

Lemma evaluate_expression_join (ts : list string) :
  ts <> [] -> Forall (fun t => is_token_text t = true) ts ->
  _evaluate_expression (String.concat " " ts) = _Parser.parse ts.
Proof.
  intros Hne H. destruct (concat_ends ts Hne H) as [Hh Hl].
  rewrite <- evaluate_expression_strip.
  apply evaluate_expression_tokens; [assumption | assumption | now apply Scan_join].
Qed.

(** X1.  The evaluator computes the value of every expression of the
    grammar: on its tokens, and on its text written with single spaces,
    where [or] binds less than [and], [and] less than [not], and [not]
    less than a comparison. *)
Theorem evaluator_follows_grammar (e : expr) :
  fits 0 e = true ->
  _Parser.parse (tokens_of e) = Return (value_of e)
  /\ (atoms_are_texts e = true ->
      let text := String.concat " " (tokens_of e) in
      _evaluate_expression text = Return (value_of e)
      /\ forall c, Py.contains_char "{" text = false ->
           evaluate_condition text c = (Return (value_of e), c)).
Proof.
  intros Hfit. pose proof (parse_tokens_of e Hfit) as Hparse.
  split; [exact Hparse|]. intros Hatoms text.
  assert (_evaluate_expression text = Return (value_of e)) as Hev.
  { subst text. rewrite evaluate_expression_join; [exact Hparse | |].
    - apply tokens_of_not_nil.
    - now apply tokens_of_texts. }
  split; [exact Hev|]. intros c Hbrace.
  destruct (Py.all_chars Py.isspace text) eqn:Hb.
  - unfold _evaluate_expression in Hev. rewrite (strip_blank _ Hb) in Hev.
    cbn in Hev. unfold evaluate_condition.
    rewrite (strip_blank _ Hb), orb_true_r. unfold ctx_ret. now rewrite <- Hev.
  - rewrite evaluate_condition_cases by assumption.
    now rewrite substituted_text_plain, Hev.
Qed.

(** ** Substitution, reference by reference *)

Lemma replace_var_value (p : string) (c : context) (v : value) (t : string) :
  context_lookup p c = Some v -> value_text v = Some t ->
  fst (replace_var p c) = Return t.
Proof.
  unfold context_lookup, replace_var, ctx_bind, _resolve_variable. intros Hv Ht.
  rewrite resolve_parts_lookup, Hv. now destruct v; inversion Ht; destruct_and?; subst.
Qed.

Lemma replace_var_missing (p : string) (c : context) :
  context_lookup p c = None ->
  fst (replace_var p c) = Raise (ExpressionError (UndefinedVariable p)).
Proof.
  intros H. rewrite replace_var_undefined; [reflexivity|]. now left.
Qed.

Lemma word_is_not_brace (ch : ascii) : Py.is_word ch = true -> ch <> "{"%char.
Proof. intros H ->. discriminate. Qed.

Lemma dotted_tail_path_chars (p : string) :
  dotted_tail p = true -> Py.all_chars is_path_or_close p = true.
Proof.
  induction p as [|ch p IH]; [reflexivity|]. cbn [dotted_tail Py.all_chars].
  unfold is_path_or_close at 1. destruct (Py.is_word ch); [now intros H; rewrite IH|].
  destruct (Ascii.eqb ch "."); [|discriminate]. destruct p; [discriminate|].
  intros H. apply andb_true_iff in H as [_ H]. now rewrite IH.
Qed.

(** A reference that follows does not change what matches before it. *)
Lemma match_reference_before (s x : string) :
  s <> "" ->
  match_reference (s +:+ "{{" +:+ x)
  = match match_reference s with
    | Some (path, after) => Some (path, after +:+ "{{" +:+ x)
    | None => None
    end.
Proof.
  intros Hs. destruct (match_reference s) as [[path after]|] eqn:E.
  - pose proof (match_reference_dotted _ _ _ E) as Hp.
    apply match_reference_shape in E as ->.
    replace ("{{" +:+ path +:+ "}}" +:+ after) with (reference path +:+ after)
      by (unfold reference; now rewrite !append_assoc).
    rewrite append_assoc. now apply match_reference_complete.
  - destruct (match_reference (s +:+ "{{" +:+ x)) as [[path after]|] eqn:E';
      [|reflexivity].
    pose proof (match_reference_dotted _ _ _ E') as Hp.
    apply match_reference_shape in E'.
    replace ("{{" +:+ path +:+ "}}" +:+ after) with (reference path +:+ after) in E'
      by (unfold reference; now rewrite !append_assoc).
    apply string_app_eq_app in E' as [(y & -> & _)|(y & Hy & Href & Ht)].
    + rewrite match_reference_complete in E by assumption. discriminate.
    + exfalso. destruct s as [|c1 s]; [congruence|].
      unfold reference in Href. rewrite !append_cons, append_nil_l in Href.
      injection Href as <- Href.
      destruct y as [|ch y]; [congruence|]. rewrite !append_cons in Ht.
      rewrite append_nil_l in Ht. injection Ht as <- Ht.
      apply andb_true_iff in Hp as [Hhead Htail].
      destruct s as [|c2 s].
      * rewrite append_nil_l in Href. injection Href as Href.
        destruct path as [|ch' path]; [discriminate|].
        rewrite append_cons in Href. subst y. rewrite append_cons in Ht.
        injection Ht as <- _. cbn [head_is] in Hhead. discriminate.
      * rewrite append_cons in Href. injection Href as <- Href.
        assert (Py.all_chars is_path_or_close (path +:+ "}}") = true) as Hall
          by (rewrite all_chars_append, (dotted_tail_path_chars _ Htail); reflexivity).
        rewrite Href, all_chars_append in Hall.
        apply andb_true_iff in Hall as [_ Hy']. cbn [Py.all_chars] in Hy'.
        apply andb_true_iff in Hy' as [Hbrace _]. discriminate.
Qed.

Lemma substituted_text_before (x : string) (c : context) :
  forall s,
    substituted_text (s +:+ "{{" +:+ x) c
    = let* a := substituted_text s c in
      let* b := substituted_text ("{{" +:+ x) c in
      Return (a +:+ b).
Proof.
  intros s. remember (String.length s) as n eqn:Hn.
  revert s Hn. induction n as [n IH] using lt_wf_ind. intros s ->.
  destruct s as [|ch rest].
  - rewrite append_nil_l, (substituted_text_eq ""). simpl.
    now destruct (substituted_text ("{{" +:+ x) c).
  - rewrite (substituted_text_eq (String ch rest +:+ "{{" +:+ x)).
    rewrite (substituted_text_eq (String ch rest)).
    rewrite match_reference_before by discriminate. rewrite append_cons.
    destruct (match_reference (String ch rest)) as [[path after]|] eqn:E.
    + apply match_reference_shorter in E.
      destruct (fst (replace_var path c)) as [text| |]; try reflexivity. simpl.
      rewrite (IH _ E after eq_refl).
      destruct (substituted_text after c) as [a| |]; try reflexivity. simpl.
      destruct (substituted_text ("{{" +:+ x) c) as [b| |]; try reflexivity. simpl.
      now rewrite append_assoc.
    + rewrite (IH (String.length rest) ltac:(simpl; lia) rest eq_refl).
      destruct (substituted_text rest c) as [a| |]; try reflexivity. simpl.
      destruct (substituted_text ("{{" +:+ x) c) as [b| |]; reflexivity.
Qed.

Lemma substituted_reference (p post : string) (c : context) :
  is_dotted_path p = true ->
  substituted_text (reference p +:+ post) c
  = let* t := fst (replace_var p c) in
    let* b := substituted_text post c in
    Return (t +:+ b).
Proof.
  intros Hp. rewrite substituted_text_eq.
  assert (exists ch rest, reference p +:+ post = String ch rest) as (ch & rest & E)
    by (unfold reference; rewrite !append_assoc; now eexists _, _).
  rewrite E, <- E, match_reference_complete by assumption. reflexivity.
Qed.

(** X11.  Substitution goes through the expression once, from left to
    right: a reference is replaced by the text of its value whatever
    stands before and after it, and the text put in is not searched for
    references again; the first reference that does not resolve decides
    the error. *)
Theorem substitution_is_one_pass (pre p post : string) (c : context) :
  is_dotted_path p = true ->
  substituted_text (pre +:+ reference p +:+ post) c
  = let* a := substituted_text pre c in
    match context_lookup p c with
    | Some v =>
        match value_text v with
        | Some t => let* b := substituted_text post c in Return (a +:+ t +:+ b)
        | None => Raise (ExpressionError (UndefinedVariable p))
        end
    | None => Raise (ExpressionError (UndefinedVariable p))
    end.
Proof.
  intros Hp. unfold reference at 1. rewrite !append_assoc.
  rewrite substituted_text_before.
  destruct (substituted_text pre c) as [a| |]; try reflexivity. cbn [out_bind].
  replace ("{{" +:+ p +:+ "}}" +:+ post) with (reference p +:+ post)
    by (unfold reference; now rewrite !append_assoc).
  rewrite substituted_reference by assumption.
  destruct (context_lookup p c) as [v|] eqn:Hv.
  - destruct (value_text v) as [t|] eqn:Ht.
    + rewrite (replace_var_value _ _ _ _ Hv Ht). cbn [out_bind].
      now destruct (substituted_text post c).
    + destruct v; try discriminate.
      rewrite replace_var_undefined; [reflexivity | now right].
  - now rewrite replace_var_missing.
Qed.

(** ** The text of an integer, and the float it is read as *)

Lemma string_of_uint_digits (d : Decimal.uint) :
  Py.all_chars PyFloat.is_digit (NilEmpty.string_of_uint d) = true.
Proof. induction d; simpl; auto. Qed.

Lemma digits_of_uint (d : Decimal.uint) :
  forall acc count : Z,
    (0 <= acc)%Z ->
    PyFloat.digits (NilEmpty.string_of_uint d) acc count
    = (if (acc =? 0)%Z then Z.of_N (Pos.of_uint d)
       else Z.pos (Pos.of_uint_acc d (Z.to_pos acc)),
       (count + Z.of_nat (String.length (NilEmpty.string_of_uint d)))%Z,
       "").
Proof.
  induction d as [|d IH|d IH|d IH|d IH|d IH|d IH|d IH|d IH|d IH|d IH];
    intros acc count Hacc.
  { simpl. destruct (Z.eqb_spec acc 0) as [->|Hne]; repeat f_equal; lia. }
  all: cbn [NilEmpty.string_of_uint PyFloat.digits String.length].
  all: change (PyFloat.is_digit _) with true; cbv iota.
  all: match goal with
       | |- context [PyFloat.digit_value ?ch] =>
           let v := eval vm_compute in (PyFloat.digit_value ch) in
           change (PyFloat.digit_value ch) with v
       end.
  all: rewrite IH by lia.
  all: apply (f_equal2 pair); [apply (f_equal2 pair) | reflexivity]; [|lia].
  all: destruct (Z.eqb_spec acc 0) as [->|Hne]; cbn [Pos.of_uint Pos.of_uint_acc].
  all: try reflexivity.
  all: match goal with
       | |- context [(?x =? 0)%Z] => destruct (Z.eqb_spec x 0) as [E|_]; [lia|]
       end.
  all: f_equal; f_equal; lia.
Qed.

Lemma digit_facts (ch : ascii) :
  PyFloat.is_digit ch = true ->
  PyFloat.space_to_ascii ch = ch /\ PyFloat.c_isspace ch = false
  /\ Ascii.eqb ch "_" = false /\ is_word_char ch = true
  /\ (forall rest, PyFloat.sign (String ch rest) = (false, String ch rest)).
Proof.
  destruct ch as [[] [] [] [] [] [] [] []]; vm_compute; intros H; try discriminate.
  all: repeat split; reflexivity.
Qed.

Section DigitStrings.

Variable s : string.
Hypothesis all_digits : Py.all_chars PyFloat.is_digit s = true.

Lemma map_space_digits : PyFloat.map_string PyFloat.space_to_ascii s = s.
Proof.
  induction s as [|ch s' IH]; [reflexivity|]. cbn [Py.all_chars] in all_digits.
  apply andb_true_iff in all_digits as [Hch Hs']. cbn [PyFloat.map_string].
  destruct (digit_facts ch Hch) as (-> & _). now rewrite IH.
Qed.

Lemma c_lstrip_digits : PyFloat.c_lstrip s = s.
Proof.
  destruct s as [|ch s']; [reflexivity|]. cbn [Py.all_chars] in all_digits.
  apply andb_true_iff in all_digits as [Hch _]. cbn [PyFloat.c_lstrip].
  now destruct (digit_facts ch Hch) as (_ & -> & _).
Qed.

Lemma c_rstrip_digits : PyFloat.c_rstrip s = s.
Proof.
  induction s as [|ch s' IH]; [reflexivity|]. cbn [Py.all_chars] in all_digits.
  apply andb_true_iff in all_digits as [Hch Hs']. cbn [PyFloat.c_rstrip].
  rewrite (IH Hs'). destruct s'; [|reflexivity].
  now destruct (digit_facts ch Hch) as (_ & -> & _).
Qed.

Lemma underscores_ok_digits (prev : ascii) :
  Ascii.eqb prev "_" = false -> PyFloat.underscores_ok prev s = true.
Proof.
  revert prev. induction s as [|ch s' IH]; intros prev Hprev.
  - cbn. now rewrite Hprev.
  - cbn [Py.all_chars] in all_digits.
    apply andb_true_iff in all_digits as [Hch Hs']. cbn [PyFloat.underscores_ok].
    destruct (digit_facts ch Hch) as (_ & _ & Hu & _).
    rewrite Hu, Hch, orb_true_r. cbn [andb]. now apply IH.
Qed.

Lemma remove_underscores_digits : PyFloat.remove_underscores s = s.
Proof.
  induction s as [|ch s' IH]; [reflexivity|]. cbn [Py.all_chars] in all_digits.
  apply andb_true_iff in all_digits as [Hch Hs']. cbn [PyFloat.remove_underscores].
  destruct (digit_facts ch Hch) as (_ & _ & -> & _). now rewrite IH.
Qed.

Lemma digits_are_word_text : s <> "" -> is_word_text s = true.
Proof.
  intros Hne. unfold is_word_text. destruct s as [|ch s'] eqn:E; [congruence|].
  cbn [Py.is_empty negb andb]. rewrite <- E in *. clear E Hne.
  induction s as [|c s0 IH]; [reflexivity|]. cbn [Py.all_chars] in *.
  apply andb_true_iff in all_digits as [Hch Hs']. rewrite (IH Hs'), andb_true_r.
  now destruct (digit_facts c Hch) as (_ & _ & _ & -> & _).
Qed.

End DigitStrings.

Lemma of_string_uint (d : Decimal.uint) :
  d <> Decimal.Nil ->
  PyFloat.of_string (NilEmpty.string_of_uint d)
  = Some (PyFloat.of_decimal (Z.of_N (Pos.of_uint d)) 0).
Proof.
  intros Hd. pose proof (string_of_uint_digits d) as Hall.
  set (s := NilEmpty.string_of_uint d) in *.
  assert (exists ch rest, s = String ch rest) as (ch & rest & Hs)
    by (subst s; destruct d; simpl; try congruence; eauto).
  unfold PyFloat.of_string.
  rewrite (map_space_digits s Hall), (c_lstrip_digits s Hall), (c_rstrip_digits s Hall).
  rewrite (underscores_ok_digits s Hall) by reflexivity.
  rewrite (remove_underscores_digits s Hall).
  unfold PyFloat.parse_number.
  assert (PyFloat.sign s = (false, s)) as ->.
  { rewrite Hs. rewrite Hs in Hall. cbn [Py.all_chars] in Hall.
    apply andb_true_iff in Hall as [Hch _]. now apply digit_facts. }
  subst s. rewrite (digits_of_uint d 0 0) by lia. cbn [Z.eqb].
  assert ((0 + Z.of_nat (String.length (NilEmpty.string_of_uint d)) + 0 =? 0)%Z = false)
    as -> by (apply Z.eqb_neq; rewrite Hs; simpl; lia).
  replace (0 - 0)%Z with 0%Z by reflexivity. reflexivity.
Qed.

(** An integer below [2 ^ 53] is a float. *)
Lemma nearest_exact (n : Z) :
  (0 < n < 2 ^ 53)%Z -> float_is (PyFloat.nearest n 1) n.
Proof.
  intros Hn. unfold PyFloat.nearest.
  replace (Z.log2 1) with 0%Z by reflexivity. rewrite Z.sub_0_r.
  pose proof (Z.log2_spec n ltac:(lia)) as [Hlo Hhi].
  pose proof (Z.log2_nonneg n) as Hnn.
  assert (Z.log2 n < 53)%Z as Hlog by (apply Z.log2_lt_pow2; lia).
  assert (PyFloat.pow2_le_ratio (Z.log2 n) n 1 = true) as ->.
  { unfold PyFloat.pow2_le_ratio. replace (0 <=? Z.log2 n)%Z with true
      by (symmetry; apply Z.leb_le; lia). apply Z.leb_le. lia. }
  rewrite Z.max_l by lia.
  destruct (Z.leb_spec 0 (Z.log2 n - 52)) as [Hq|Hq].
  - assert (Z.log2 n - 52 = 0)%Z as -> by lia.
    change (1 * 2 ^ 0)%Z with 1%Z.
    assert (PyFloat.round_half_even n 1 = n) as ->.
    { unfold PyFloat.round_half_even. rewrite Z.mod_1_r, Z.div_1_r. reflexivity. }
    replace (2 ^ 1024 <=? n * 2 ^ 0)%Z with false.
    + simpl. unfold Qeq. simpl. lia.
    + symmetry. apply Z.leb_gt. assert (2 ^ 53 < 2 ^ 1024)%Z by now vm_compute. lia.
  - set (k := (- (Z.log2 n - 52))%Z).
    assert (0 < k <= 52)%Z as Hk by (subst k; lia).
    assert (0 < 2 ^ k)%Z as Hpow by (apply Z.pow_pos_nonneg; lia).
    assert (PyFloat.round_half_even (n * 2 ^ k) 1 = (n * 2 ^ k)%Z) as ->.
    { unfold PyFloat.round_half_even. rewrite Z.mod_1_r, Z.div_1_r. reflexivity. }
    simpl. unfold Qeq. simpl. rewrite Z2Pos.id by assumption. lia.
Qed.

Lemma compare_floats_ints (o : operator) (x y : PyFloat.float) (a b : Z) :
  float_is x a -> float_is y b -> compare_floats o x y = compare_ints o a b.
Proof.
  destruct x as [| |p]; try contradiction. destruct y as [| |q]; try contradiction.
  simpl. intros Hp Hq.
  assert (Qeq_bool p q = (a =? b)%Z) as Heq.
  { destruct (Z.eqb_spec a b) as [->|Hne].
    - apply Qeq_bool_iff. now rewrite Hp, Hq.
    - apply not_true_is_false. intros H. apply Qeq_bool_iff in H.
      rewrite Hp, Hq in H. apply Hne. now apply inject_Z_injective. }
  assert (forall (u v : Q) (c d : Z), Qeq u (inject_Z c) -> Qeq v (inject_Z d) ->
            Qle_bool u v = (c <=? d)%Z) as Hle.
  { intros u v c d Hu Hv. destruct (Z.leb_spec c d) as [H|H].
    - apply Qle_bool_iff. rewrite Hu, Hv. now rewrite <- Zle_Qle.
    - apply not_true_is_false. intros H'. apply Qle_bool_iff in H'.
      rewrite Hu, Hv, <- Zle_Qle in H'. lia. }
  assert (Qeq_bool q p = (b =? a)%Z) as Heq'.
  { rewrite Z.eqb_sym, <- Heq. destruct (Qeq_bool p q) eqn:E.
    - apply Qeq_bool_iff. symmetry. now apply Qeq_bool_iff.
    - apply not_true_is_false. intros H. apply Qeq_bool_iff in H.
      symmetry in H. apply Qeq_bool_iff in H. congruence. }
  destruct o; simpl; unfold PyFloat.leb, PyFloat.ltb, PyFloat.eqb;
    rewrite ?Heq, ?Heq', ?(Hle q p b a Hq Hp), ?(Hle p q a b Hp Hq); lia.
Qed.

(** *** [str(n)] *)

Lemma str_int_nonneg (n : Z) :
  (0 <= n)%Z ->
  exists d, Py.str_int n = NilEmpty.string_of_uint d /\ d <> Decimal.Nil
            /\ Z.of_N (Pos.of_uint d) = n
            /\ (d = Decimal.D0 Decimal.Nil <-> n = 0%Z).
Proof.
  intros Hn. destruct n as [|p|p]; [| |lia].
  - exists (Decimal.D0 Decimal.Nil). repeat split; congruence.
  - exists (Pos.to_uint p). split; [reflexivity|]. split; [apply Unsigned.to_uint_nonnil|].
    split; [now rewrite DecimalPos.Unsigned.of_to|].
    split; [|discriminate]. intros H. now apply Unsigned.to_uint_nonzero in H.
Qed.

Lemma str_int_negative (n : Z) :
  (n < 0)%Z -> exists rest, Py.str_int n = String "-" rest.
Proof.
  intros Hn. destruct n as [|p|p]; [lia|lia|].
  now exists (NilEmpty.string_of_uint (Pos.to_uint p)).
Qed.

Lemma digits_not_word (s : string) (items : list string) :
  Py.all_chars PyFloat.is_digit s = true ->
  forallb (fun item => negb (head_is PyFloat.is_digit item)) items = true ->
  s <> "" -> Py.in_tuple s items = false.
Proof.
  intros Hs Hitems Hne. unfold Py.in_tuple.
  induction items as [|item items IH]; [reflexivity|]. cbn [existsb forallb] in *.
  apply andb_true_iff in Hitems as [Hitem Hrest]. rewrite (IH Hrest), orb_false_r.
  apply String.eqb_neq. intros <-. destruct s as [|ch s']; [congruence|].
  cbn [Py.all_chars head_is] in *. apply andb_true_iff in Hs as [Hch _].
  now rewrite Hch in Hitem.
Qed.

Lemma str_int_atom (n : Z) :
  (0 <= n)%Z ->
  is_atom_text (Py.str_int n) = true
  /\ strip_quotes (Py.str_int n) = Py.str_int n
  /\ _is_truthy (Py.str_int n) = negb (n =? 0)%Z.
Proof.
  intros Hn. destruct (str_int_nonneg n Hn) as (d & Hs & Hd & _ & Hzero).
  pose proof (string_of_uint_digits d) as Hall. rewrite <- Hs in Hall.
  assert (Py.str_int n <> "") as Hne by (rewrite Hs; destruct d; simpl; congruence).
  pose proof (digits_are_word_text _ Hall Hne) as Hword.
  split; [|split].
  - unfold is_atom_text. rewrite Hword.
    rewrite (digits_not_word _ ["and"; "or"; "not"] Hall eq_refl Hne).
    now rewrite orb_true_r.
  - now apply strip_quotes_word.
  - unfold _is_truthy. f_equal.
    assert (forall w, head_is PyFloat.is_digit w = false ->
              String.eqb (Py.str_int n) w = false) as Hw.
    { intros w Hhead. pose proof (digits_not_word _ [w] Hall) as H.
      cbn [forallb Py.in_tuple existsb] in H. rewrite Hhead in H.
      specialize (H eq_refl Hne). now rewrite orb_false_r in H. }
    rewrite !in_tuple_cons.
    rewrite (Hw "false"), (Hw "False"), (Hw ""), (Hw "none"), (Hw "None") by reflexivity.
    cbn [Py.in_tuple existsb orb]. rewrite !orb_false_r.
    destruct (Z.eqb_spec n 0) as [->|Hnz]; [reflexivity|].
    apply String.eqb_neq. intros H. apply Hnz, Hzero. rewrite Hs in H.
    destruct d; try discriminate. simpl in H. injection H as H.
    now destruct d.
Qed.

(** ** Variables by the type of their value *)

Lemma substituted_reference_value (p post : string) (c : context) (v : value)
    (t : string) :
  is_dotted_path p = true -> context_lookup p c = Some v -> value_text v = Some t ->
  substituted_text (reference p +:+ post) c
  = let* b := substituted_text post c in Return (t +:+ b).
Proof.
  intros Hp Hv Ht. rewrite substituted_reference by assumption.
  now rewrite (replace_var_value _ _ _ _ Hv Ht).
Qed.

Lemma substituted_reference_alone (p : string) (c : context) (v : value) (t : string) :
  is_dotted_path p = true -> context_lookup p c = Some v -> value_text v = Some t ->
  substituted_text (reference p) c = Return t.
Proof.
  intros Hp Hv Ht. rewrite <- (append_nil_r (reference p)).
  rewrite (substituted_reference_value _ _ _ _ _ Hp Hv Ht).
  rewrite (substituted_text_eq ""). cbn [out_bind]. now rewrite append_nil_r.
Qed.

Lemma evaluate_variable_atom (p : string) (c : context) (v : value) (t : string) :
  is_dotted_path p = true -> context_lookup p c = Some v -> value_text v = Some t ->
  is_atom_text t = true ->
  evaluate_condition (reference p) c = (Return (_is_truthy (strip_quotes t)), c).
Proof.
  intros Hp Hv Ht Hatom. destruct (atom_text_ends _ Hatom) as (Hhead & _).
  rewrite (evaluate_condition_substituted _ t c).
  - rewrite <- (evaluate_expression_atom "" t "") by auto.
    now rewrite append_nil_l, append_nil_r.
  - now apply (substituted_reference_alone p c v).
  - now apply head_not_space_not_blank.
Qed.

Lemma quoted_is_literal (s : string) :
  Py.contains_char "'" s = false ->
  is_atom_text ("'" +:+ s +:+ "'") = true /\ strip_quotes ("'" +:+ s +:+ "'") = s.
Proof.
  intros Hs. split.
  - unfold is_atom_text, is_literal_text. rewrite append_cons, append_nil_l.
    now rewrite (closes_quote_intro "'" s Hs).
  - rewrite append_cons, append_nil_l. unfold strip_quotes.
    rewrite startswith_cons. cbn [Ascii.eqb].
    replace (String "'" (s +:+ "'")) with (String "'" s +:+ "'")
      by now rewrite append_cons.
    rewrite endswith_snoc. cbn [andb orb]. rewrite append_cons.
    apply slice_1_m1_literal.
Qed.

(** X12.  A reference alone is true or false by the value it stands for: a
    boolean is itself, a string without a single quote is false exactly
    if it is one of the six false texts (so the empty string is false),
    and an integer that is not negative is false exactly if it is 0. *)
Theorem variable_alone (p : string) (c : context) :
  is_dotted_path p = true ->
  (forall b, context_lookup p c = Some (VBool b) ->
     evaluate_condition (reference p) c = (Return b, c))
  /\ (forall s, context_lookup p c = Some (VStr s) ->
        Py.contains_char "'" s = false ->
        evaluate_condition (reference p) c = (Return (_is_truthy s), c))
  /\ (forall n, context_lookup p c = Some (VInt n) -> (0 <= n)%Z ->
        evaluate_condition (reference p) c = (Return (negb (n =? 0)%Z), c)).
Proof.
  intros Hp. split; [|split].
  - intros b Hv. rewrite <- (is_truthy_bool_text b) at 1.
    apply (evaluate_variable_atom p c (VBool b)); try assumption; [reflexivity|].
    now destruct b.
  - intros s Hv Hs. destruct (quoted_is_literal s Hs) as [Hatom Hstrip].
    rewrite <- Hstrip at 1.
    now apply (evaluate_variable_atom p c (VStr s)).
  - intros n Hv Hn. destruct (str_int_atom n Hn) as (Hatom & Hstrip & Htruthy).
    rewrite <- Htruthy, <- Hstrip at 1.
    now apply (evaluate_variable_atom p c (VInt n)).
Qed.

Lemma strip_keeps_head (ch : ascii) (s : string) :
  Py.isspace ch = false -> exists rest, Py.strip (String ch s) = String ch rest.
Proof.
  intros Hch. unfold Py.strip. cbn [Py.lstrip]. rewrite Hch. cbn [Py.rstrip].
  destruct (Py.rstrip s); [rewrite Hch|]; eauto.
Qed.

Lemma tokenize_minus (rest : string) :
  _tokenize (String "-" rest)
  = Raise (ExpressionError (UnexpectedCharacter "-" 0)).
Proof.
  rewrite <- (append_nil_l (String "-" rest)).
  apply (tokenize_unexpected "" [] "-" rest); try reflexivity. constructor.
Qed.

(** X13.  A negative integer is written with a minus sign, which starts no
    token: an expression that begins with a reference to a negative
    integer raises a syntax error at position 0, if the references after
    it resolve. *)
Theorem negative_integer_raises (p post : string) (c : context) (n : Z) (t : string) :
  is_dotted_path p = true ->
  context_lookup p c = Some (VInt n) -> (n < 0)%Z ->
  substituted_text post c = Return t ->
  evaluate_condition (reference p +:+ post) c
  = (Raise (ExpressionError (UnexpectedCharacter "-" 0)), c).
Proof.
  intros Hp Hv Hn Hpost. destruct (str_int_negative n Hn) as [digits Hstr].
  assert (substituted_text (reference p +:+ post) c
          = Return (String "-" (digits +:+ t))) as Hs.
  { rewrite (substituted_reference_value p post c (VInt n) (Py.str_int n))
      by (assumption || reflexivity).
    rewrite Hpost. cbn [out_bind]. now rewrite Hstr, append_cons. }
  rewrite (evaluate_condition_substituted _ _ c Hs) by reflexivity.
  unfold _evaluate_expression.
  destruct (strip_keeps_head "-" (digits +:+ t) eq_refl) as [rest ->].
  cbn [Py.is_empty]. now rewrite tokenize_minus.
Qed.

Lemma of_string_str_int (n : Z) :
  (0 <= n < 2 ^ 53)%Z ->
  exists x, PyFloat.of_string (Py.str_int n) = Some x /\ float_is x n.
Proof.
  intros Hn. destruct (str_int_nonneg n ltac:(lia)) as (d & Hs & Hd & Hval & _).
  rewrite Hs, (of_string_uint d Hd), Hval. eexists. split; [reflexivity|].
  unfold PyFloat.of_decimal. destruct (Z.eqb_spec n 0) as [->|Hnz]; [reflexivity|].
  cbn [Z.leb Z.compare]. cbv iota. change (10 ^ 0)%Z with 1%Z. rewrite Z.mul_1_r.
  apply nearest_exact. lia.
Qed.

Lemma comparison_value_ints (o : operator) (a b : Z) :
  (0 <= a < 2 ^ 53)%Z -> (0 <= b < 2 ^ 53)%Z ->
  comparison_value o (Py.str_int a) (Py.str_int b) = compare_ints o a b.
Proof.
  intros Ha Hb. unfold comparison_value.
  destruct (str_int_atom a ltac:(lia)) as (_ & -> & _).
  destruct (str_int_atom b ltac:(lia)) as (_ & -> & _).
  destruct (of_string_str_int a Ha) as (x & -> & Hx).
  destruct (of_string_str_int b Hb) as (y & -> & Hy).
  now apply compare_floats_ints.
Qed.

(** X14.  Integers from 0 to [2 ^ 53 - 1] compare by their value, not by
    their text: a reference to an integer against a reference to another,
    and against an integer written in the expression. *)
Theorem integers_compare_by_value (px py : string) (c : context) (a b : Z)
    (o : operator) :
  is_dotted_path px = true -> context_lookup px c = Some (VInt a) ->
  (0 <= a < 2 ^ 53)%Z -> (0 <= b < 2 ^ 53)%Z ->
  (is_dotted_path py = true -> context_lookup py c = Some (VInt b) ->
   evaluate_condition (reference px +:+ " " +:+ operator_text o +:+ " " +:+ reference py) c
   = (Return (compare_ints o a b), c))
  /\ evaluate_condition (reference px +:+ " " +:+ operator_text o +:+ " " +:+ Py.str_int b) c
     = (Return (compare_ints o a b), c).
Proof.
  intros Hpx Hvx Ha Hb.
  destruct (str_int_atom a ltac:(lia)) as (Hatom_a & _).
  destruct (str_int_atom b ltac:(lia)) as (Hatom_b & _).
  assert (_evaluate_expression
            (Py.str_int a +:+ " " +:+ operator_text o +:+ " " +:+ Py.str_int b)
          = Return (compare_ints o a b)) as Hev.
  { rewrite <- (comparison_value_ints o a b Ha Hb).
    rewrite <- (evaluate_expression_comparison "" (Py.str_int a) " " o " " (Py.str_int b) "")
      by auto.
    now rewrite append_nil_l, append_nil_r. }
  assert (Py.all_chars Py.isspace
            (Py.str_int a +:+ " " +:+ operator_text o +:+ " " +:+ Py.str_int b) = false)
    as Hblank.
  { apply head_not_space_not_blank. destruct (atom_text_ends _ Hatom_a) as (Hh & _ & _ & Hne).
    destruct (Py.str_int a); [congruence | exact Hh]. }
  assert (forall tail tail',
            substituted_text tail c = Return tail' ->
            substituted_text (reference px +:+ " " +:+ operator_text o +:+ " " +:+ tail) c
            = Return (Py.str_int a +:+ " " +:+ operator_text o +:+ " " +:+ tail')) as Hsub.
  { intros tail tail' Htail.
    rewrite (substituted_reference_value px _ c (VInt a) (Py.str_int a))
      by (assumption || reflexivity).
    replace (" " +:+ operator_text o +:+ " " +:+ tail)
      with ((" " +:+ operator_text o +:+ " ") +:+ tail) by now rewrite !append_assoc.
    rewrite substituted_text_prefix
      by now rewrite !contains_char_append, operator_has_no_brace.
    rewrite Htail. cbn [out_bind]. now rewrite !append_assoc. }
  split.
  - intros Hpy Hvy.
    rewrite (evaluate_condition_substituted _ _ c
               (Hsub _ _ (substituted_reference_alone py c (VInt b) _ Hpy Hvy eq_refl)))
      by assumption.
    now rewrite Hev.
  - assert (substituted_text (Py.str_int b) c = Return (Py.str_int b)) as Hlit.
    { apply substituted_text_plain.
      destruct (str_int_nonneg b ltac:(lia)) as (d & -> & _).
      pose proof (string_of_uint_digits d) as Hall.
      induction (NilEmpty.string_of_uint d) as [|ch s IH]; [reflexivity|].
      cbn [Py.all_chars Py.contains_char] in *.
      apply andb_true_iff in Hall as [Hch Hrest]. rewrite (IH Hrest), orb_false_r.
      destruct (Ascii.eqb_spec "{" ch) as [<-|]; [discriminate | reflexivity]. }
    rewrite (evaluate_condition_substituted _ _ c (Hsub _ _ Hlit)) by assumption.
    now rewrite Hev.
Qed.

(** ** Dotted paths *)

Lemma split_not_nil (sep : ascii) (s : string) : Py.split sep s <> [].
Proof.
  induction s as [|ch s IH]; [discriminate|]. cbn [Py.split].
  destruct (Ascii.eqb ch sep); [discriminate|].
  destruct (Py.split sep s); discriminate.
Qed.

Lemma split_app (sep : ascii) (p q : string) :
  Py.split sep (p +:+ String sep q) = (Py.split sep p ++ Py.split sep q)%list.
Proof.
  induction p as [|ch p IH].
  - rewrite append_nil_l. cbn [Py.split]. now rewrite Ascii.eqb_refl.
  - rewrite append_cons. cbn [Py.split]. rewrite IH.
    destruct (Ascii.eqb ch sep); [reflexivity|].
    pose proof (split_not_nil sep p) as Hne.
    destruct (Py.split sep p) as [|part parts]; [congruence | reflexivity].
Qed.

Lemma split_plain (sep : ascii) (k : string) :
  Py.contains_char sep k = false -> Py.split sep k = [k].
Proof.
  induction k as [|ch k IH]; [reflexivity|]. cbn [Py.contains_char Py.split].
  intros H. apply orb_false_iff in H as [Hch Hk]. rewrite Ascii.eqb_sym, Hch.
  now rewrite (IH Hk).
Qed.

Lemma resolve_parts_None (parts : list string) (v : value) :
  parts <> [] -> is_dict v = false -> resolve_parts parts v = VNone.
Proof. destruct parts; [congruence|]. now destruct v. Qed.

Lemma resolve_parts_app (l1 l2 : list string) :
  forall v, resolve_parts (l1 ++ l2) v = resolve_parts l2 (resolve_parts l1 v).
Proof.
  induction l1 as [|part l1 IH]; intros v; [reflexivity|]. cbn [app resolve_parts].
  destruct v; try (now destruct l2).
  destruct (items !! part); [apply IH | now destruct l2].
Qed.

(** X15.  A dotted path is followed part by part through nested
    dictionaries: the path [p.q] is the path [q] in what [p] leads to; a
    name without a dot leads to what the context holds under it; and a
    path that goes on through a value that is not a dictionary is an
    undefined variable. *)
Theorem paths_are_followed (p q post : string) (c : context) :
  fst (_resolve_variable (p +:+ "." +:+ q) c)
  = Return (resolve_parts (Py.split "." q) (resolve_parts (Py.split "." p) (VDict c "")))
  /\ (forall v, Py.contains_char "." p = false ->
        fst (_resolve_variable p (<[p := v]> c)) = Return v)
  /\ (is_dotted_path (p +:+ "." +:+ q) = true ->
      is_dict (resolve_parts (Py.split "." p) (VDict c "")) = false ->
      evaluate_condition (reference (p +:+ "." +:+ q) +:+ post) c
      = (Raise (ExpressionError (UndefinedVariable (p +:+ "." +:+ q))), c)).
Proof.
  assert (Py.split "." (p +:+ "." +:+ q) = (Py.split "." p ++ Py.split "." q)%list)
    as Hsplit by (rewrite append_cons, append_nil_l; apply split_app).
  split; [|split].
  - unfold _resolve_variable. cbn [fst]. now rewrite Hsplit, resolve_parts_app.
  - intros v Hp. unfold _resolve_variable. cbn [fst].
    rewrite (split_plain _ _ Hp). cbn [resolve_parts]. now rewrite lookup_insert_eq.
  - intros Hpath Hv. apply evaluate_condition_undefined_first; [assumption|].
    unfold path_missing, path_is_None.
    assert (resolve_parts (Py.split "." (p +:+ "." +:+ q)) (VDict c "") = VNone) as H.
    { rewrite Hsplit, resolve_parts_app.
      apply resolve_parts_None; [apply split_not_nil | assumption]. }
    rewrite resolve_parts_lookup in H.
    destruct (lookup_path _ _) as [v|]; [right; congruence | now left].
Qed.

(** ** The laws of comparison *)

Lemma string_compare_refl (s : string) : String.compare s s = Eq.
Proof.
  pose proof (String.compare_antisym s s) as H.
  destruct (String.compare s s); simpl in H; congruence.
Qed.

Lemma string_eqb_compare (l r : string) :
  String.eqb l r = match String.compare l r with Eq => true | _ => false end.
Proof.
  destruct (String.eqb_spec l r) as [->|Hne].
  - now rewrite string_compare_refl.
  - destruct (String.compare l r) eqn:E; try reflexivity.
    now apply String.compare_eq_iff in E.
Qed.

Lemma string_order (l r : string) :
  one_of_three (String.ltb l r) (String.eqb l r) (String.ltb r l) = true
  /\ String.leb l r = String.ltb l r || String.eqb l r
  /\ String.leb r l = String.ltb r l || String.eqb l r.
Proof.
  rewrite string_eqb_compare. unfold String.ltb, String.leb.
  rewrite (String.compare_antisym l r). now destruct (String.compare r l).
Qed.

Lemma rational_order (p q : Q) :
  one_of_three (negb (Qle_bool q p)) (Qeq_bool p q) (negb (Qle_bool p q)) = true
  /\ Qeq_bool q p = Qeq_bool p q.
Proof.
  split; [|apply Qeq_bool_comm].
  destruct (Qle_bool q p) eqn:E1, (Qle_bool p q) eqn:E2, (Qeq_bool p q) eqn:E3;
    try reflexivity; exfalso.
  - apply Qle_bool_iff in E1, E2. apply Qeq_bool_neq in E3. apply E3.
    now apply Qle_antisym.
  - apply Qle_bool_iff in E1. apply Qeq_bool_iff in E3.
    assert (Qle_bool p q = true) as H by (apply Qle_bool_iff; rewrite E3; apply Qle_refl).
    congruence.
  - apply Qle_bool_iff in E2. apply Qeq_bool_iff in E3.
    assert (Qle_bool q p = true) as H by (apply Qle_bool_iff; rewrite E3; apply Qle_refl).
    congruence.
  - apply Qeq_bool_iff in E3.
    assert (Qle_bool q p = true) as H by (apply Qle_bool_iff; rewrite E3; apply Qle_refl).
    congruence.
  - destruct (Qlt_le_dec q p) as [H|H].
    + apply Qlt_le_weak in H. apply Qle_bool_iff in H. congruence.
    + apply Qle_bool_iff in H. congruence.
Qed.

Lemma float_order (x y : PyFloat.float) :
  (if match x, y with PyFloat.Nan, _ | _, PyFloat.Nan => true | _, _ => false end
   then PyFloat.ltb x y = false /\ PyFloat.eqb x y = false /\ PyFloat.ltb y x = false
   else one_of_three (PyFloat.ltb x y) (PyFloat.eqb x y) (PyFloat.ltb y x) = true)
  /\ PyFloat.eqb y x = PyFloat.eqb x y.
Proof.
  destruct x as [|a|p], y as [|b|q]; simpl; try (split; [repeat split|]; reflexivity).
  - split; [now destruct a, b | now destruct a, b].
  - split; [now destruct a | reflexivity].
  - split; [now destruct b | reflexivity].
  - apply rational_order.
Qed.

(** X16.  The six comparisons of two operands agree with one another:
    [!=] is the negation of [==], [<=] is [<] or [==], [>=] is [>] or
    [==], and exactly one of [<], [==] and [>] holds, unless both
    operands are numbers and one is not a number, when none of the three
    holds.  An operand equals itself unless it is read as not a number. *)
Theorem comparison_laws (a b : string) :
  is_value_token a = true -> is_value_token b = true ->
  (exists lt eq gt : bool,
     _Parser.parse [a; "<"; b] = Return lt
     /\ _Parser.parse [a; "=="; b] = Return eq
     /\ _Parser.parse [a; ">"; b] = Return gt
     /\ _Parser.parse [a; "!="; b] = Return (negb eq)
     /\ _Parser.parse [a; "<="; b] = Return (lt || eq)
     /\ _Parser.parse [a; ">="; b] = Return (gt || eq)
     /\ (if unordered a b then lt = false /\ eq = false /\ gt = false
         else one_of_three lt eq gt = true))
  /\ _Parser.parse [a; "=="; a] = Return (negb (reads_as_nan a)).
Proof.
  intros Ha Hb. split.
  - exists (comparison_value OpLt a b), (comparison_value OpEq a b),
      (comparison_value OpGt a b).
    split; [exact (parse_binary_comparison a b OpLt Ha Hb)|].
    split; [exact (parse_binary_comparison a b OpEq Ha Hb)|].
    split; [exact (parse_binary_comparison a b OpGt Ha Hb)|].
    split; [|split; [|split]].
    + pose proof (parse_binary_comparison a b OpNe Ha Hb) as HOpNe.
      cbn [operator_text] in HOpNe. rewrite HOpNe. f_equal.
      unfold comparison_value.
      destruct (PyFloat.of_string (strip_quotes a)), (PyFloat.of_string (strip_quotes b));
        reflexivity.
    + pose proof (parse_binary_comparison a b OpLe Ha Hb) as HOpLe.
      cbn [operator_text] in HOpLe. rewrite HOpLe. f_equal.
      unfold comparison_value, _try_numeric.
      destruct (PyFloat.of_string (strip_quotes a)) as [x|];
        destruct (PyFloat.of_string (strip_quotes b)) as [y|]; simpl;
        try reflexivity; apply string_order.
    + pose proof (parse_binary_comparison a b OpGe Ha Hb) as HOpGe.
      cbn [operator_text] in HOpGe. rewrite HOpGe. f_equal.
      unfold comparison_value, _try_numeric.
      destruct (PyFloat.of_string (strip_quotes a)) as [x|];
        destruct (PyFloat.of_string (strip_quotes b)) as [y|]; simpl;
        try apply string_order.
      unfold PyFloat.leb. f_equal. apply float_order.
    + unfold unordered, is_numeric, reads_as_nan, comparison_value, _try_numeric.
      destruct (PyFloat.of_string (strip_quotes a)) as [x|];
        destruct (PyFloat.of_string (strip_quotes b)) as [y|]; simpl;
        try apply string_order.
      destruct (float_order x y) as [H _].
      destruct x, y; simpl in *; assumption.
  - pose proof (parse_binary_comparison a a OpEq Ha Ha) as Hrefl.
    cbn [operator_text] in Hrefl. rewrite Hrefl. f_equal.
    unfold comparison_value, reads_as_nan, _try_numeric.
    destruct (PyFloat.of_string (strip_quotes a)) as [[|s|q]|]; simpl.
    + reflexivity.
    + now destruct s.
    + apply Qeq_bool_refl.
    + apply String.eqb_refl.
Qed.

(** ** More on the resolution of model patterns *)

Lemma is_descending_cons (x y : string) (l : list string) :
  is_descending (x :: y :: l) = String.leb y x && is_descending (y :: l).
Proof. reflexivity. Qed.

Lemma insert_descending_sorted (x : string) (l : list string) :
  is_descending l = true -> is_descending (insert_descending x l) = true.
Proof.
  induction l as [|y l IH]; [reflexivity|]. intros Hl. cbn [insert_descending].
  destruct (String.leb y x) eqn:E.
  - now rewrite is_descending_cons, E, Hl.
  - apply leb_false_flip in E. destruct l as [|z l].
    + cbn [insert_descending]. now rewrite is_descending_cons, E.
    + rewrite is_descending_cons in Hl. apply andb_true_iff in Hl as [Hzy Hrest].
      specialize (IH Hrest). cbn [insert_descending] in *.
      destruct (String.leb z x) eqn:E'.
      * now rewrite !is_descending_cons, E, E', Hrest.
      * rewrite is_descending_cons, Hzy. exact IH.
Qed.

Lemma sort_reverse_sorted (l : list string) : is_descending (sort_reverse l) = true.
Proof.
  induction l as [|x l IH]; [reflexivity|]. now apply insert_descending_sorted.
Qed.

Lemma insert_descending_perm (x : string) (l : list string) :
  Permutation (insert_descending x l) (x :: l).
Proof.
  induction l as [|y l IH]; [reflexivity|]. cbn [insert_descending].
  destruct (String.leb y x); [reflexivity|].
  rewrite IH. apply perm_swap.
Qed.

Lemma sort_reverse_perm (l : list string) : Permutation (sort_reverse l) l.
Proof.
  induction l as [|x l IH]; [reflexivity|]. cbn [sort_reverse].
  rewrite insert_descending_perm. now constructor.
Qed.

Lemma descending_head (x : string) (l : list string) :
  is_descending (x :: l) = true -> forall y, In y l -> String.leb y x = true.
Proof.
  revert x. induction l as [|z l IH]; intros x Hs y Hy; [destruct Hy|].
  rewrite is_descending_cons in Hs. apply andb_true_iff in Hs as [Hzx Hrest].
  destruct Hy as [<-|Hy]; [assumption|].
  apply leb_trans with (b := z); [now apply IH | assumption].
Qed.

Lemma descending_tail (x : string) (l : list string) :
  is_descending (x :: l) = true -> is_descending l = true.
Proof.
  destruct l; [reflexivity|]. rewrite is_descending_cons. intros H.
  now apply andb_true_iff in H as [_ H].
Qed.

(** Two descending lists with the same elements are the same list. *)
Lemma descending_unique (l : list string) :
  forall l', is_descending l = true -> is_descending l' = true ->
    Permutation l l' -> l = l'.
Proof.
  induction l as [|x l IH]; intros l' Hl Hl' Hp.
  - now apply Permutation_nil in Hp.
  - destruct l' as [|x' l']; [now apply Permutation_sym, Permutation_nil in Hp|].
    assert (x = x') as <-.
    { apply String.leb_antisym.
      - assert (In x (x' :: l')) as [->|Hin]
          by (eapply Permutation_in; [exact Hp | now left]).
        + apply leb_refl.
        + now apply (descending_head x' l').
      - assert (In x' (x :: l)) as [->|Hin]
          by (eapply Permutation_in; [symmetry; exact Hp | now left]).
        + apply leb_refl.
        + now apply (descending_head x l). }
    f_equal. apply IH.
    + now apply descending_tail in Hl.
    + now apply descending_tail in Hl'.
    + now apply Permutation_cons_inv in Hp.
Qed.

Lemma filter_perm {A} (f : A -> bool) (l l' : list A) :
  Permutation l l' -> Permutation (List.filter f l) (List.filter f l').
Proof.
  induction 1 as [|x l l' _ IH|x y l|l l' l'' _ IH1 _ IH2]; cbn [List.filter].
  - reflexivity.
  - destruct (f x); [now constructor | assumption].
  - destruct (f x), (f y); try reflexivity. apply perm_swap.
  - now rewrite IH1.
Qed.

Section Resolution.

Variable fnmatch : string -> string -> bool.
Variables (model_hint name : string) (coord : coordinator).
Hypothesis is_pattern : is_glob_pattern model_hint = true.
Hypothesis named : name <> "".

Let available := query_available_models name coord.
Let matched := sort_reverse (fnmatch_filter fnmatch available model_hint).

(** The result of a pattern with a provider, case by case. *)
Lemma resolve_pattern_cases :
  resolve_model_pattern fnmatch model_hint (Some name) coord
  = match available, matched with
    | [], _ =>
        {| resolved_model := model_hint; pattern := Some model_hint;
           available_models := Some []; matched_models := Some [] |}
    | _ :: _, [] =>
        {| resolved_model := model_hint; pattern := Some model_hint;
           available_models := Some available; matched_models := Some [] |}
    | _ :: _, resolved :: _ =>
        {| resolved_model := resolved; pattern := Some model_hint;
           available_models := Some available; matched_models := Some matched |}
    end.
Proof.
  subst matched available. unfold resolve_model_pattern.
  rewrite is_pattern. cbn [negb].
  destruct name as [|ch rest]; [congruence|].
  destruct (query_available_models (String ch rest) coord) as [|m ms]; [reflexivity|].
  destruct (fnmatch_filter fnmatch (m :: ms) model_hint) as [|x xs] eqn:Ef;
    [reflexivity|].
  destruct (sort_reverse (x :: xs)) as [|r rs] eqn:Es; [|reflexivity].
  now apply sort_reverse_nil in Es.
Qed.

End Resolution.

Lemma sorted_matches (fnmatch : string -> string -> bool) (available : list string)
    (model_hint : string) :
  let matched := sort_reverse (fnmatch_filter fnmatch available model_hint) in
  is_descending matched = true
  /\ Permutation matched (fnmatch_filter fnmatch available model_hint)
  /\ forall m, In m matched <-> In m available /\ fnmatch m model_hint = true.
Proof.
  intros matched. split; [apply sort_reverse_sorted|]. split; [apply sort_reverse_perm|].
  intros m. subst matched. rewrite sort_reverse_In. unfold fnmatch_filter.
  exact (filter_In (fun name => fnmatch name model_hint) m available).
Qed.

(** X17.  The result of resolving a pattern with a named provider records
    the pattern, the models of the provider as they were listed, and the
    models that match in descending order; the resolved model is the
    first of these, or the pattern itself when there is none.  A name
    that is no pattern is returned with nothing recorded. *)
Theorem resolution_result (fnmatch : string -> string -> bool)
    (model_hint : string) (provider_name : option string) (coord : coordinator) :
  let result := resolve_model_pattern fnmatch model_hint provider_name coord in
  (is_glob_pattern model_hint = false ->
   result = {| resolved_model := model_hint; pattern := None;
               available_models := None; matched_models := None |})
  /\ (forall name, is_glob_pattern model_hint = true ->
        provider_name = Some name -> name <> "" ->
        let available := query_available_models name coord in
        exists matched,
          pattern result = Some model_hint
          /\ available_models result = Some available
          /\ matched_models result = Some matched
          /\ is_descending matched = true
          /\ Permutation matched (fnmatch_filter fnmatch available model_hint)
          /\ resolved_model result = List.hd model_hint matched).
Proof.
  cbv zeta. split.
  - intros H. unfold resolve_model_pattern. now rewrite H.
  - intros name Hglob -> Hname.
    destruct (sorted_matches fnmatch (query_available_models name coord) model_hint)
      as (Hsorted & Hperm & _).
    rewrite (resolve_pattern_cases fnmatch model_hint name coord Hglob Hname).
    exists (sort_reverse
              (fnmatch_filter fnmatch (query_available_models name coord) model_hint)).
    destruct (query_available_models name coord) as [|m ms] eqn:Ea.
    + cbn. repeat split; constructor.
    + destruct (sort_reverse (fnmatch_filter fnmatch (m :: ms) model_hint))
        as [|r rs] eqn:Es; cbn; repeat split; assumption.
Qed.

(** X18.  The resolved model is never made up: it is the hint as it was
    given, or one of the models the provider listed, and then one that
    the pattern matches. *)
Theorem resolved_model_is_listed (fnmatch : string -> string -> bool)
    (model_hint : string) (provider_name : option string) (coord : coordinator) :
  let resolved :=
    resolved_model (resolve_model_pattern fnmatch model_hint provider_name coord) in
  resolved = model_hint
  \/ exists name,
       provider_name = Some name
       /\ In resolved (query_available_models name coord)
       /\ fnmatch resolved model_hint = true.
Proof.
  cbv zeta. destruct (is_glob_pattern model_hint) eqn:Hglob;
    [|left; unfold resolve_model_pattern; now rewrite Hglob].
  destruct provider_name as [name|];
    [|left; unfold resolve_model_pattern; now rewrite Hglob].
  destruct (String.eqb_spec name "") as [->|Hname];
    [left; unfold resolve_model_pattern; now rewrite Hglob|].
  destruct (sorted_matches fnmatch (query_available_models name coord) model_hint)
    as (_ & _ & Hin).
  rewrite (resolve_pattern_cases fnmatch model_hint name coord Hglob Hname).
  destruct (query_available_models name coord) as [|m ms] eqn:Ea; [now left|].
  destruct (sort_reverse (fnmatch_filter fnmatch (m :: ms) model_hint))
    as [|r rs] eqn:Es; [now left|].
  right. exists name. split; [reflexivity|]. rewrite Ea. cbn [resolved_model].
  apply Hin. now left.
Qed.

(** X19.  The order in which the provider lists its models changes neither
    the resolved model nor the list of matches. *)
Theorem listing_order_is_irrelevant (fnmatch : string -> string -> bool)
    (model_hint : string) (name : string) (coord coord' : coordinator) :
  Permutation (query_available_models name coord) (query_available_models name coord') ->
  let result := resolve_model_pattern fnmatch model_hint (Some name) coord in
  let result' := resolve_model_pattern fnmatch model_hint (Some name) coord' in
  resolved_model result = resolved_model result'
  /\ matched_models result = matched_models result'.
Proof.
  intros Hperm. cbv zeta.
  destruct (is_glob_pattern model_hint) eqn:Hglob;
    [|unfold resolve_model_pattern; now rewrite Hglob].
  destruct (String.eqb_spec name "") as [->|Hname];
    [unfold resolve_model_pattern; now rewrite Hglob|].
  rewrite !(resolve_pattern_cases fnmatch model_hint name _ Hglob Hname).
  assert (sort_reverse (fnmatch_filter fnmatch (query_available_models name coord) model_hint)
          = sort_reverse
              (fnmatch_filter fnmatch (query_available_models name coord') model_hint))
    as Hsame.
  { apply descending_unique; try apply sort_reverse_sorted.
    rewrite !sort_reverse_perm. now apply filter_perm. }
  rewrite Hsame.
  destruct (query_available_models name coord) as [|m ms];
    destruct (query_available_models name coord') as [|m' ms'].
  - now split.
  - now apply Permutation_nil in Hperm.
  - now apply Permutation_sym, Permutation_nil in Hperm.
  - destruct (sort_reverse (fnmatch_filter fnmatch (m' :: ms') model_hint)); now split.
Qed.

Lemma not_own_suffix (s : string) : String.eqb s ("provider-" +:+ s) = false.
Proof.
  apply String.eqb_neq. intros H. apply (f_equal String.length) in H.
  rewrite length_append in H. simpl in H. lia.
Qed.

(** X20.  The provider is the first one, in the order of the mounted
    providers, whose name is the name asked for, or is that name once
    every [provider-] is taken out of it; the third alternative of the
    test, the name asked for with [provider-] before it, never holds. *)
Theorem provider_is_first_match (provider_name : string)
    (providers : list (string * provider)) :
  find_provider provider_name providers
  = option_map snd
      (List.find (fun entry => provider_matches provider_name (fst entry)) providers).
Proof.
  induction providers as [|[name p] providers IH]; [reflexivity|].
  cbn [find_provider List.find fst]. unfold provider_matches at 1.
  unfold Py.in_tuple. cbn [existsb]. rewrite not_own_suffix, !orb_false_r.
  destruct (String.eqb provider_name name
            || String.eqb provider_name (remove_occurrences "provider-" name 0));
    [reflexivity | exact IH].
Qed.

(** ** The properties at concrete inputs *)

(** [false or not 0 and 1 < 2] is [false or ((not 0) and (1 < 2))]. *)
Lemma X1_witness :
  _Parser.parse ["false"; "or"; "not"; "0"; "and"; "1"; "<"; "2"] = Return true
  /\ _evaluate_expression "false or not 0 and 1 < 2" = Return true.
Proof.
  destruct (evaluator_follows_grammar
              (Or (Atom "false")
                  (And (Not (Atom "0")) (Compare (Atom "1") OpLt (Atom "2"))))
              eq_refl) as [Htokens Htext].
  split.
  - refine (eq_trans Htokens _). vm_compute. reflexivity.
  - refine (eq_trans (proj1 (Htext eq_refl)) _). vm_compute. reflexivity.
Defined.

(** [1 < 2 < 3] *)
Lemma X2_witness :
  _Parser.parse ["1"; "<"; "2"; "<"; "3"]
  = Raise (ExpressionError (UnexpectedToken "<" 3)).
Proof.
  exact (comparisons_do_not_chain (Atom "1") (Atom "2") OpLt OpLt ["3"] eq_refl eq_refl).
Defined.

(** [a ==], [a and] and [a or] *)
Lemma X3_witness :
  _Parser.parse ["a"; "=="] = Raise (ExpressionError UnexpectedEnd)
  /\ _Parser.parse ["a"; "and"] = Raise (ExpressionError UnexpectedEnd)
  /\ _Parser.parse ["a"; "or"] = Raise (ExpressionError UnexpectedEnd).
Proof.
  destruct (missing_operand_raises (Atom "a") OpEq) as (H1 & H2 & H3 & _).
  split; [exact (H1 eq_refl) | split; [exact (H2 eq_refl) | exact (H3 eq_refl)]].
Defined.

(** [(a)], [(a] and [a)] *)
Lemma X4_witness :
  _Parser.parse ["("; "a"; ")"] = Return true
  /\ _Parser.parse ["("; "a"] = Raise (ExpressionError ExpectedCloseParen)
  /\ _Parser.parse ["a"; ")"] = Raise (ExpressionError (UnexpectedToken ")" 1)).
Proof.
  exact (unbalanced_parentheses ["a"] true eq_refl).
Defined.

(** [and x], [(and x], [== x] and [(== x] *)
Lemma X5_witness :
  (_Parser.parse ["and"; "x"] = Raise (ExpressionError (UnexpectedKeyword "and"))
   /\ _Parser.parse ["("; "and"; "x"] = Raise (ExpressionError (UnexpectedKeyword "and")))
  /\ (_Parser.parse ["=="; "x"] = Raise (ExpressionError (UnexpectedOperator "=="))
      /\ _Parser.parse ["("; "=="; "x"]
         = Raise (ExpressionError (UnexpectedOperator "=="))).
Proof.
  split.
  - exact (proj1 (value_expected "and" ["x"]) eq_refl).
  - exact (proj2 (value_expected "==" ["x"]) eq_refl).
Defined.

Lemma X6_witness :
  evaluate_condition "({{n}} > 1)" (<["n" := VInt 5]> ∅)
  = (Return true, <["n" := VInt 5]> ∅)
  /\ evaluate_condition "not ({{n}} > 1)" (<["n" := VInt 5]> ∅)
     = (Return false, <["n" := VInt 5]> ∅).
Proof.
  apply (evaluate_paren "{{n}} > 1" (<["n" := VInt 5]> ∅) true).
  exists "5 > 1", ["5"; ">"; "1"]. repeat split; vm_compute; reflexivity.
Defined.

Lemma X7_witness :
  evaluate_condition "({{n}} > 1) and ('x' == 'y')" (<["n" := VInt 5]> ∅)
  = (Return false, <["n" := VInt 5]> ∅)
  /\ evaluate_condition "({{n}} > 1) or ('x' == 'y')" (<["n" := VInt 5]> ∅)
     = (Return true, <["n" := VInt 5]> ∅).
Proof.
  apply (evaluate_and_or "{{n}} > 1" "'x' == 'y'" (<["n" := VInt 5]> ∅) true false).
  - exists "5 > 1", ["5"; ">"; "1"]. repeat split; vm_compute; reflexivity.
  - exists "'x' == 'y'", ["'x'"; "=="; "'y'"]. repeat split; vm_compute; reflexivity.
Defined.

Lemma X8_witness :
  evaluate_condition "  {{n}} > 1 " (<["n" := VInt 5]> ∅)
  = evaluate_condition "{{n}} > 1" (<["n" := VInt 5]> ∅).
Proof.
  exact (padding_is_ignored "  " "{{n}} > 1" " " (<["n" := VInt 5]> ∅) eq_refl eq_refl).
Defined.

Lemma X9_witness :
  evaluate_condition "1 < 2" ∅ = (_evaluate_expression "1 < 2", ∅)
  /\ fst (evaluate_condition "1 < 2" ∅)
     = fst (evaluate_condition "1 < 2" (<["n" := VInt 5]> ∅)).
Proof.
  exact (expression_without_references "1 < 2" ∅ (<["n" := VInt 5]> ∅) eq_refl).
Defined.

Lemma X10_witness :
  _tokenize "a <= b" = Return ["a"; "<="; "b"]
  /\ _tokenize "a<=(b) 'c d'" = Return ["a"; "<="; "("; "b"; ")"; "'c d'"].
Proof.
  pose proof (tokenize_round_trip "a<=b" ["a"; "<="; "b"] eq_refl) as (_ & Hjoin & _).
  pose proof (tokenize_round_trip "a<=(b)" ["a"; "<="; "("; "b"; ")"] eq_refl)
    as (_ & _ & Hthen).
  split; [exact Hjoin|].
  exact (Hthen " " "'c d'" ["'c d'"] ltac:(discriminate) eq_refl eq_refl).
Defined.

(** The value of [v] is the text of a reference, which stays as it is. *)
Lemma X11_witness :
  substituted_text "x == {{v}} or {{w}}"
    (<["v" := VStr "{{w}}"]> (<["w" := VBool true]> ∅))
  = Return "x == '{{w}}' or true".
Proof.
  refine (eq_trans
            (substitution_is_one_pass "x == " "v" " or {{w}}"
               (<["v" := VStr "{{w}}"]> (<["w" := VBool true]> ∅)) eq_refl) _).
  vm_compute. reflexivity.
Defined.

Lemma X12_witness :
  evaluate_condition "{{flag}}" (<["flag" := VBool false]> ∅)
  = (Return false, <["flag" := VBool false]> ∅)
  /\ evaluate_condition "{{name}}" (<["name" := VStr ""]> ∅)
     = (Return false, <["name" := VStr ""]> ∅)
  /\ evaluate_condition "{{count}}" (<["count" := VInt 0]> ∅)
     = (Return false, <["count" := VInt 0]> ∅).
Proof.
  split; [|split].
  - apply (proj1 (variable_alone "flag" (<["flag" := VBool false]> ∅) eq_refl) false).
    vm_compute. reflexivity.
  - apply (proj1 (proj2 (variable_alone "name" (<["name" := VStr ""]> ∅) eq_refl)) "");
      [vm_compute; reflexivity | reflexivity].
  - apply (proj2 (proj2 (variable_alone "count" (<["count" := VInt 0]> ∅) eq_refl)) 0%Z);
      [vm_compute; reflexivity | lia].
Defined.

Lemma X13_witness :
  evaluate_condition "{{n}} < 0" (<["n" := VInt (-5)]> ∅)
  = (Raise (ExpressionError (UnexpectedCharacter "-" 0)), <["n" := VInt (-5)]> ∅).
Proof.
  apply (negative_integer_raises "n" " < 0" (<["n" := VInt (-5)]> ∅) (-5)%Z " < 0");
    [reflexivity | vm_compute; reflexivity | lia | vm_compute; reflexivity].
Defined.

Lemma X14_witness :
  evaluate_condition "{{a}} > {{b}}" (<["a" := VInt 10]> (<["b" := VInt 9]> ∅))
  = (Return true, <["a" := VInt 10]> (<["b" := VInt 9]> ∅))
  /\ evaluate_condition "{{a}} > 9" (<["a" := VInt 10]> (<["b" := VInt 9]> ∅))
     = (Return true, <["a" := VInt 10]> (<["b" := VInt 9]> ∅)).
Proof.
  destruct (integers_compare_by_value "a" "b"
              (<["a" := VInt 10]> (<["b" := VInt 9]> ∅)) 10 9 OpGt) as [Hvar Hlit];
    [ reflexivity | vm_compute; reflexivity
    | change (2 ^ 53)%Z with 9007199254740992%Z; lia
    | change (2 ^ 53)%Z with 9007199254740992%Z; lia | ].
  split; [|exact Hlit].
  apply Hvar; [reflexivity | vm_compute; reflexivity].
Defined.

Lemma X15_witness :
  evaluate_condition "{{step.id}} == 1" (<["step" := VInt 3]> ∅)
  = (Raise (ExpressionError (UndefinedVariable "step.id")), <["step" := VInt 3]> ∅).
Proof.
  apply (proj2 (proj2 (paths_are_followed "step" "id" " == 1" (<["step" := VInt 3]> ∅))));
    [reflexivity | vm_compute; reflexivity].
Defined.

(** [nan == nan] is false. *)
Lemma X16_witness : _Parser.parse ["nan"; "=="; "nan"] = Return false.
Proof.
  refine (eq_trans (proj2 (comparison_laws "nan" "nan" eq_refl eq_refl)) _).
  vm_compute. reflexivity.
Defined.

Lemma X17_witness :
  let fnmatch := fun name (_ : string) => String.prefix "claude-" name in
  let coord : coordinator :=
    Some [("provider-anthropic",
           {| truthy := true;
              list_models := Some (Some [ModelName "claude-3"; ModelName "gpt";
                                         ModelName "claude-4"]) |})] in
  exists matched,
    pattern (resolve_model_pattern fnmatch "claude-*" (Some "anthropic") coord)
    = Some "claude-*"
    /\ available_models (resolve_model_pattern fnmatch "claude-*" (Some "anthropic") coord)
       = Some (query_available_models "anthropic" coord)
    /\ matched_models (resolve_model_pattern fnmatch "claude-*" (Some "anthropic") coord)
       = Some matched
    /\ is_descending matched = true
    /\ Permutation matched
         (fnmatch_filter fnmatch (query_available_models "anthropic" coord) "claude-*")
    /\ resolved_model (resolve_model_pattern fnmatch "claude-*" (Some "anthropic") coord)
       = List.hd "claude-*" matched.
Proof.
  intros fnmatch coord.
  exact (proj2 (resolution_result fnmatch "claude-*" (Some "anthropic") coord)
           "anthropic" eq_refl eq_refl ltac:(discriminate)).
Defined.

Lemma X19_witness :
  let fnmatch := fun name (_ : string) => String.prefix "claude-" name in
  let provider_of models : coordinator :=
    Some [("anthropic", {| truthy := true; list_models := Some (Some models) |})] in
  resolved_model
    (resolve_model_pattern fnmatch "claude-*" (Some "anthropic")
       (provider_of [ModelName "claude-3"; ModelName "claude-4"]))
  = resolved_model
      (resolve_model_pattern fnmatch "claude-*" (Some "anthropic")
         (provider_of [ModelName "claude-4"; ModelName "claude-3"])).
Proof.
  intros fnmatch provider_of.
  refine (proj1 (listing_order_is_irrelevant fnmatch "claude-*" "anthropic" _ _ _)).
  vm_compute. apply perm_swap.
Defined.
